(** * Book API: request authentication, response contract and resource handlers

    A shallow embedding of the Express application (routes/auth.js,
    routes/users.js, routes/authors.js, middleware/auth.js,
    middleware/validate.js and the migrations) together with the properties
    of its specification.

    Conventions.
    - The JavaScript runtime is modelled as far as the handlers use it:
      strings are byte strings, numbers are exact rationals extended with
      NaN, the two infinities and the negative zero (rounding of doubles is
      not modelled; every integer below 2^53 is exact).
    - The relational store is an explicit state; every query a handler
      issues is recorded in a log, so that "no store access" is a statement
      about that log.
    - The libraries the application imports (jsonwebtoken, bcrypt,
      validator.js' isEmail and normalizeEmail) are operations of the class
      [Externals]; what is assumed of them is stated as named contracts and
      appears as a hypothesis of the theorems that need it. *)

From Stdlib Require Import String Ascii List ZArith QArith Qround Lia Bool.
From Stdlib Require Import Permutation Sorted DecimalString.
Import ListNotations.

#[local] Set Warnings "-register-all".

Local Open Scope string_scope.
Local Open Scope Z_scope.
Local Open Scope list_scope.

(* ================================================================== *)
(** ** JavaScript values *)

Module JS.

(** A JavaScript number. [Fin q] is a finite double, [Fin 0] the positive
    zero and [NZero] the negative zero. *)
Inductive number :=
| NaN
| PInf
| NInf
| NZero
| Fin (q : Q).

Definition of_Z (z : Z) : number := Fin (inject_Z z).

Definition is_negative (n : number) : bool :=
  match n with
  | NInf | NZero => true
  | Fin q => Z.ltb (Qnum q) 0
  | _ => false
  end.

Definition is_zero (n : number) : bool :=
  match n with
  | NZero => true
  | Fin q => Z.eqb (Qnum q) 0
  | _ => false
  end.

Definition infinity (neg : bool) : number := if neg then NInf else PInf.
Definition zero (neg : bool) : number := if neg then NZero else Fin 0.

(** [a / b] on doubles. *)
Definition div (a b : number) : number :=
  let neg := xorb (is_negative a) (is_negative b) in
  match a, b with
  | NaN, _ | _, NaN => NaN
  | (PInf | NInf), (PInf | NInf) => NaN
  | (PInf | NInf), _ => infinity neg
  | _, (PInf | NInf) => zero neg
  | _, _ =>
      if is_zero b then (if is_zero a then NaN else infinity neg)
      else if is_zero a then zero neg
      else match a, b with
           | Fin x, Fin y => Fin (Qred (x / y))
           | _, _ => NaN
           end
  end.

(** [Math.ceil]. *)
Definition ceil (n : number) : number :=
  match n with
  | Fin q =>
      let c := Qceiling q in
      if Z.eqb c 0 && Z.ltb (Qnum q) 0 then NZero else of_Z c
  | _ => n
  end.

(** [Number.isFinite]. *)
Definition isFinite (n : number) : bool :=
  match n with
  | NZero | Fin _ => true
  | _ => false
  end.

(** *** Characters and digit strings *)

Definition code (c : ascii) : Z := Z.of_nat (nat_of_ascii c).

(** White space as [String.prototype.trim] and the numeric conversions strip
    it (the one-byte characters: TAB, LF, VT, FF, CR and SP). *)
Definition is_space (c : ascii) : bool :=
  let n := code c in ((9 <=? n) && (n <=? 13)) || (n =? 32).

Fixpoint trimStart (s : string) : string :=
  match s with
  | String c s' => if is_space c then trimStart s' else s
  | EmptyString => s
  end.

Fixpoint trimEnd (s : string) : string :=
  match s with
  | EmptyString => EmptyString
  | String c s' =>
      let t := trimEnd s' in
      if is_space c && (t =? EmptyString)%string then EmptyString else String c t
  end.

Definition trim (s : string) : string := trimEnd (trimStart s).

(** The value of [c] as a digit of the given radix. *)
Definition digit_of (radix : Z) (c : ascii) : option Z :=
  let n := code c in
  let v := if (48 <=? n) && (n <=? 57) then Some (n - 48)
           else if (97 <=? n) && (n <=? 122) then Some (n - 87)
           else if (65 <=? n) && (n <=? 90) then Some (n - 55)
           else None in
  match v with
  | Some d => if d <? radix then Some d else None
  | None => None
  end.

(** The longest prefix of digits of [s], and what follows it. *)
Fixpoint take_digits (radix : Z) (s : string) : list Z * string :=
  match s with
  | EmptyString => ([], s)
  | String c s' =>
      match digit_of radix c with
      | Some d => let (ds, rest) := take_digits radix s' in (d :: ds, rest)
      | None => ([], s)
      end
  end.

Definition digits_value (radix : Z) (ds : list Z) : Z :=
  fold_left (fun acc d => acc * radix + d) ds 0.

Definition strip_sign (s : string) : bool * string :=
  match s with
  | String "-" r => (true, r)
  | String "+" r => (false, r)
  | _ => (false, s)
  end.

(** [parseInt(s)] without a radix. The result is an integer or NaN
    ([None]); the sign of a zero result is dropped, no caller observes it. *)
Definition parseInt (s : string) : option Z :=
  let (neg, s2) := strip_sign (trimStart s) in
  let (radix, s3) :=
    match s2 with
    | String "0" (String x r) =>
        if ((x =? "x") || (x =? "X"))%char then (16, r) else (10, s2)
    | _ => (10, s2)
    end in
  match take_digits radix s3 with
  | ([], _) => None
  | (ds, _) => Some ((if neg then -1 else 1) * digits_value radix ds)
  end.

(** A literal with a radix prefix: every character after the prefix has to
    be a digit of the radix. *)
Definition radix_literal (radix : Z) (s : string) : number :=
  match take_digits radix s with
  | ([], _) => NaN
  | (ds, EmptyString) => of_Z (digits_value radix ds)
  | _ => NaN
  end.

Definition scale (neg : bool) (m e : Z) : number :=
  if m =? 0 then zero neg
  else
    let m' := if neg then - m else m in
    if 0 <=? e then of_Z (m' * 10 ^ e)
    else Fin (Qred (m' # Z.to_pos (10 ^ (- e)))).

(** The exponent part of a decimal literal: its value and the rest, [None]
    when an [e] is not followed by an integer. *)
Definition exponent_part (s : string) : option (Z * string) :=
  match s with
  | String c r =>
      if ((c =? "e") || (c =? "E"))%char then
        let (neg, r') := strip_sign r in
        match take_digits 10 r' with
        | ([], _) => None
        | (ds, rest) =>
            Some ((if neg then -1 else 1) * digits_value 10 ds, rest)
        end
      else Some (0, s)
  | EmptyString => Some (0, s)
  end.

Definition decimal_literal (s : string) : number :=
  let (neg, r0) := strip_sign s in
  if (r0 =? "Infinity")%string then infinity neg
  else
    let (ip, r1) := take_digits 10 r0 in
    let (fp, r2) :=
      match r1 with
      | String "." r => take_digits 10 r
      | _ => ([], r1)
      end in
    match ip ++ fp with
    | [] => NaN
    | ds =>
        match exponent_part r2 with
        | Some (e, EmptyString) =>
            scale neg (digits_value 10 ds) (e - Z.of_nat (List.length fp))
        | _ => NaN
        end
    end.

(** [Number(s)] on a string. *)
Definition Number (s : string) : number :=
  let t := trim s in
  match t with
  | EmptyString => Fin 0
  | String "0" (String x r) =>
      if ((x =? "x") || (x =? "X"))%char then radix_literal 16 r
      else if ((x =? "o") || (x =? "O"))%char then radix_literal 8 r
      else if ((x =? "b") || (x =? "B"))%char then radix_literal 2 r
      else decimal_literal t
  | _ => decimal_literal t
  end.

(** *** Values *)

(** The values a handler passes to [res.json]. A [Date] is kept as its
    epoch time in milliseconds. *)
Inductive value :=
| VUndefined
| VNull
| VBool (b : bool)
| VNum (n : number)
| VStr (s : string)
| VDate (t : Z)
| VArr (items : list value)
| VObj (fields : list (string * value)).

Definition object := list (string * value).

Fixpoint get (k : string) (o : object) : option value :=
  match o with
  | [] => None
  | (k', v) :: o' => if (k =? k')%string then Some v else get k o'
  end.

(** Assignment of a property: an existing key keeps its place, a new one
    goes last (the order [{...o, k: v}] enumerates). *)
Fixpoint set (k : string) (v : value) (o : object) : object :=
  match o with
  | [] => [(k, v)]
  | (k', v') :: o' =>
      if (k =? k')%string then (k, v) :: o' else (k', v') :: set k v o'
  end.

(** [{...o, k1: v1, ..., kn: vn}] *)
Definition spread (o : object) (kvs : list (string * value)) : object :=
  fold_left (fun acc kv => set (fst kv) (snd kv) acc) kvs o.

Definition keys (o : object) : list string := map fst o.

Definition has_key (k : string) (o : object) : bool :=
  match get k o with Some _ => true | None => false end.

(** The columns [cols] of a row, in that order. *)
Definition pick (cols : list string) (o : object) : object :=
  flat_map (fun c => match get c o with
                     | Some v => [(c, v)]
                     | None => []
                     end) cols.

End JS.

(* ================================================================== *)
(** ** The relational store *)

Module Pg.

(** *** Tables *)

(** Modelled from the spec: the migration that creates the [users] table is
    not part of the sources; the columns are the ones the routes read and
    write, and the email column is unique (spec, section 3). *)
Record user := {
  user_id : Z;
  username : string;
  user_email : string;
  password : string;
  user_created_at : Z;
  user_updated_at : Z
}.

(** migrations/..._create_authors_table.js *)
Record author := {
  author_id : Z;
  name : string;
  author_email : string;
  bio : option string;
  author_created_at : Z;
  author_updated_at : Z
}.

(** migrations/..._create_books_table.js; both references cascade. *)
Record book := {
  book_id : Z;
  title : string;
  genre : string;
  year : Z;
  book_author_id : option Z;
  book_user_id : option Z
}.

Record db := {
  users : list user;
  users_id_seq : Z;
  authors : list author;
  authors_id_seq : Z;
  books : list book
}.

Definition empty : db :=
  {| users := []; users_id_seq := 1; authors := []; authors_id_seq := 1;
     books := [] |}.

(** *** Errors and the query monad *)

(** What a rejected query or a throwing library call raises; [message] is
    the [error.message] a handler copies into its response. *)
Inductive error :=
| UniqueViolation (constraint : string)
| ValueTooLong (limit : Z)
| InvalidInteger (text : string)
| IntegerOutOfRange (text : string)
| NegativeLimit
| NegativeOffset
| UndefinedBinding (column : string)
| LibraryError (text : string).

Definition message (e : error) : string :=
  match e with
  | UniqueViolation c =>
      "duplicate key value violates unique constraint " ++ c
  | ValueTooLong _ => "value too long for type character varying"
  | InvalidInteger t => "invalid input syntax for type integer: " ++ t
  | IntegerOutOfRange t => "value is out of range for type integer: " ++ t
  | NegativeLimit => "LIMIT must not be negative"
  | NegativeOffset => "A non-negative integer must be provided to offset."
  | UndefinedBinding c =>
      "Undefined binding(s) detected. Undefined column(s): " ++ c
  | LibraryError t => t
  end.

Inductive table := Users | Authors.
Inductive statement := Select | Insert | Update | Delete.

(** One statement sent to the store. *)
Definition access : Type := table * statement.

Record world := {
  store : db;
  log : list access
}.

Inductive result (A : Type) :=
| Ok (a : A)
| Threw (e : error).
Arguments Ok {A} a.
Arguments Threw {A} e.

(** A computation that may query the store and may throw. *)
Definition Query (A : Type) : Type := world -> result A * world.

Definition ret {A} (a : A) : Query A := fun w => (Ok a, w).

Definition throw {A} (e : error) : Query A := fun w => (Threw e, w).

Definition bind {A B} (m : Query A) (k : A -> Query B) : Query B :=
  fun w =>
    match m w with
    | (Ok a, w') => k a w'
    | (Threw e, w') => (Threw e, w')
    end.

(** A computation whose exceptions are caught: it answers, whatever the
    store does. *)
Definition Caught (R : Type) : Type := world -> R * world.

Definition reply {R} (r : R) : Caught R := fun w => (r, w).

(** [try { m } catch (error) { return h error }] *)
Definition try_catch {R} (m : Query R) (h : error -> R) : Caught R :=
  fun w =>
    match m w with
    | (Ok r, w') => (r, w')
    | (Threw e, w') => (h e, w')
    end.

(** The statement reaches the store. *)
Definition sent (t : table) (s : statement) : Query unit :=
  fun w => (Ok tt, {| store := store w; log := log w ++ [(t, s)] |}).

Definition read {A} (f : db -> A) : Query A := fun w => (Ok (f (store w)), w).

Definition write (f : db -> db) : Query unit :=
  fun w => (Ok tt, {| store := f (store w); log := log w |}).

Definition lift {A} (r : result A) : Query A := fun w => (r, w).

End Pg.

Declare Scope query_scope.
Delimit Scope query_scope with query.
Notation "x <- m ;; k" := (Pg.bind m (fun x => k))
  (at level 100, m at next level, right associativity) : query_scope.
Notation "m ;;; k" := (Pg.bind m (fun _ => k))
  (at level 100, right associativity) : query_scope.

(** *** Queries, as the handlers build them with the query builder *)

Module Knex.
Import Pg.
Local Open Scope query_scope.

(** A binding that is [undefined] makes the builder throw before anything
    is sent. *)
Definition binding {A} (column : string) (v : option A) : Query A :=
  match v with
  | Some x => ret x
  | None => throw (UndefinedBinding column)
  end.

(** Input of an [integer] column from text: optional sign and decimal
    digits, white space around them, within 32 bits. *)
Definition int4_in (text : string) : result Z :=
  let (neg, r) := JS.strip_sign (JS.trim text) in
  match JS.take_digits 10 r with
  | ([], _) => Threw (InvalidInteger text)
  | (ds, EmptyString) =>
      let v := (if neg then -1 else 1) * JS.digits_value 10 ds in
      if (- 2 ^ 31 <=? v) && (v <? 2 ^ 31) then Ok v
      else Threw (IntegerOutOfRange text)
  | _ => Threw (InvalidInteger text)
  end.

(** An element of a [whereIn] list compared with an [integer] column. *)
Definition int4_of_value (v : JS.value) : result (option Z) :=
  match v with
  | JS.VNull => Ok None
  | JS.VStr s => match int4_in s with
                 | Ok z => Ok (Some z)
                 | Threw e => Threw e
                 end
  | JS.VNum (JS.Fin q) =>
      if (Zpos (Qden q) =? 1) && (- 2 ^ 31 <=? Qnum q) && (Qnum q <? 2 ^ 31)
      then Ok (Some (Qnum q))
      else Threw (InvalidInteger "number")
  | JS.VNum JS.NZero => Ok (Some 0)
  | _ => Threw (InvalidInteger "value")
  end.

Fixpoint int4_list (vs : list JS.value) : result (list Z) :=
  match vs with
  | [] => Ok []
  | v :: vs' =>
      match int4_of_value v, int4_list vs' with
      | Ok (Some z), Ok zs => Ok (z :: zs)
      | Ok None, Ok zs => Ok zs
      | Threw e, _ => Threw e
      | _, Threw e => Threw e
      end
  end.

(** Rows as the driver returns them. *)
Definition user_row (u : user) : JS.object :=
  [ ("id", JS.VNum (JS.of_Z (user_id u)));
    ("username", JS.VStr (username u));
    ("email", JS.VStr (user_email u));
    ("password", JS.VStr (password u));
    ("created_at", JS.VDate (user_created_at u));
    ("updated_at", JS.VDate (user_updated_at u)) ].

Definition author_row (a : author) : JS.object :=
  [ ("id", JS.VNum (JS.of_Z (author_id a)));
    ("name", JS.VStr (name a));
    ("email", JS.VStr (author_email a));
    ("bio", match bio a with Some b => JS.VStr b | None => JS.VNull end);
    ("created_at", JS.VDate (author_created_at a));
    ("updated_at", JS.VDate (author_updated_at a)) ].

Definition has_user_id (i : Z) (u : user) : bool := user_id u =? i.
Definition has_author_id (i : Z) (a : author) : bool := author_id a =? i.
Definition has_user_email (e : string) (u : user) : bool :=
  (user_email u =? e)%string.
Definition has_author_email (e : string) (a : author) : bool :=
  (author_email a =? e)%string.

Definition is_some_of (i : Z) (o : option Z) : bool :=
  match o with
  | Some j => j =? i
  | None => false
  end.

(** **** users *)

(** [db('users').where({ email }).first()] *)
Definition users_where_email_first (email : string) : Query (option user) :=
  sent Users Select ;;;
  read (fun d => find (has_user_email email) (users d)).

(** [db('users').where({ id }).first()] *)
Definition users_where_id_first (id : option Z) : Query (option user) :=
  i <- binding "id" id ;;
  sent Users Select ;;;
  read (fun d => find (has_user_id i) (users d)).

(** [db('users').insert({...}).returning(cols)]: the new row. *)
Definition users_insert (uname email pw : string) (created updated : Z)
  : Query (list user) :=
  sent Users Insert ;;;
  i <- read users_id_seq ;;
  write (fun d => {| users := users d; users_id_seq := i + 1;
                     authors := authors d; authors_id_seq := authors_id_seq d;
                     books := books d |}) ;;;
  taken <- read (fun d => existsb (has_user_email email) (users d)) ;;
  if taken : bool then throw (UniqueViolation "users_email_unique")
  else
    let u := {| user_id := i; username := uname; user_email := email;
                password := pw; user_created_at := created;
                user_updated_at := updated |} in
    write (fun d => {| users := users d ++ [u]; users_id_seq := users_id_seq d;
                       authors := authors d;
                       authors_id_seq := authors_id_seq d;
                       books := books d |}) ;;;
    ret [u].

Definition set_user (uname email : string) (updated : Z) (u : user) : user :=
  {| user_id := user_id u; username := uname; user_email := email;
     password := password u; user_created_at := user_created_at u;
     user_updated_at := updated |}.

(** [db('users').where({ id }).update({...}).returning(cols)] *)
Definition users_where_id_update (id : option Z) (uname email : string)
    (updated : Z) : Query (list user) :=
  i <- binding "id" id ;;
  sent Users Update ;;;
  d <- read (fun d => d) ;;
  let hit := filter (has_user_id i) (users d) in
  let others := filter (fun u => negb (has_user_id i u)) (users d) in
  match hit with
  | [] => ret []
  | _ :: _ =>
      if existsb (has_user_email email) others
      then throw (UniqueViolation "users_email_unique")
      else
        let upd := fun u => if has_user_id i u
                            then set_user uname email updated u else u in
        write (fun d => {| users := map upd (users d);
                           users_id_seq := users_id_seq d;
                           authors := authors d;
                           authors_id_seq := authors_id_seq d;
                           books := books d |}) ;;;
        ret (map upd hit)
  end.

(** [db('users').where({ id }).del()]: the number of deleted rows. *)
Definition users_where_id_del (id : option Z) : Query Z :=
  i <- binding "id" id ;;
  sent Users Delete ;;;
  n <- read (fun d => Z.of_nat (List.length (filter (has_user_id i) (users d)))) ;;
  write (fun d =>
    {| users := filter (fun u => negb (has_user_id i u)) (users d);
       users_id_seq := users_id_seq d;
       authors := authors d; authors_id_seq := authors_id_seq d;
       books := filter (fun b => negb (is_some_of i (book_user_id b)))
                       (books d) |}) ;;;
  ret n.

(** **** authors *)

Definition lower (c : ascii) : ascii :=
  let n := JS.code c in
  if (65 <=? n) && (n <=? 90) then ascii_of_nat (nat_of_ascii c + 32) else c.

(** [LIKE]: [%] matches any run of characters, [_] any one character and a
    backslash makes the next pattern character literal. A pattern that ends
    in a lone backslash is rejected by the store; the pattern of the list
    query always ends in the [%] the handler appends, so that does not
    arise. *)
Fixpoint like (p s : list ascii) : bool :=
  match p with
  | [] => match s with [] => true | _ :: _ => false end
  | "%"%char :: p' =>
      (fix skip (s : list ascii) : bool :=
         like p' s || match s with [] => false | _ :: s' => skip s' end) s
  | "_"%char :: p' =>
      match s with [] => false | _ :: s' => like p' s' end
  | "\"%char :: c :: p' =>
      match s with [] => false | x :: s' => Ascii.eqb c x && like p' s' end
  | c :: p' =>
      match s with [] => false | x :: s' => Ascii.eqb c x && like p' s' end
  end.

(** [ILIKE], on the one-byte letters. *)
Definition ilike (text pattern : string) : bool :=
  like (map lower (list_ascii_of_string pattern))
       (map lower (list_ascii_of_string text)).

(** [baseQuery]: all authors, or [where('name', 'ilike', `%${search}%`)] for
    a search string that is not empty. *)
Definition matching (search : string) (a : author) : bool :=
  if (search =? EmptyString)%string then true
  else ilike (name a) ("%" ++ search ++ "%").

Fixpoint insert_desc (a : author) (l : list author) : list author :=
  match l with
  | [] => [a]
  | b :: l' =>
      if author_created_at b <=? author_created_at a then a :: l
      else b :: insert_desc a l'
  end.

(** [orderBy('created_at', 'desc')]; rows of equal creation time keep the
    order of the table (the store does not define it). *)
Definition order_by_created_at_desc (l : list author) : list author :=
  fold_right insert_desc [] l.

(** [baseQuery.clone().count('* as count').first()] *)
Definition authors_count (search : string) : Query Z :=
  sent Authors Select ;;;
  read (fun d => Z.of_nat (List.length (filter (matching search) (authors d)))).

(** The builder's [limit(v)]: NaN is ignored with a warning. *)
Definition apply_limit (limit : option Z) (l : list author) : list author :=
  match limit with
  | Some n => firstn (Z.to_nat n) l
  | None => l
  end.

(** The builder's [offset(v)] for a value that is not negative: NaN is
    ignored with a warning. *)
Definition apply_offset (offset : option Z) (l : list author) : list author :=
  match offset with
  | Some n => skipn (Z.to_nat n) l
  | None => l
  end.

Definition is_negative (v : option Z) : bool :=
  match v with
  | Some n => n <? 0
  | None => false
  end.

(** [baseQuery.clone().select('*').orderBy('created_at', 'desc')
      .limit(limit).offset(offset)]. The builder throws on a negative
    offset while the query is built; the store rejects a negative limit. *)
Definition authors_page (search : string) (limit offset : option Z)
  : Query (list author) :=
  if is_negative offset then throw NegativeOffset
  else
    sent Authors Select ;;;
    if is_negative limit then throw NegativeLimit
    else
      read (fun d =>
        apply_limit limit
          (apply_offset offset
             (order_by_created_at_desc
                (filter (matching search) (authors d))))).

(** [db('authors').select('*').where({ id }).first()], the id being the
    text of the path parameter. *)
Definition authors_where_id_first (id : string) : Query (option author) :=
  sent Authors Select ;;;
  i <- lift (int4_in id) ;;
  read (fun d => find (has_author_id i) (authors d)).

(** [name] and [email] are [varchar(255)], [bio] is [varchar(500)]. *)
Definition fits (limit : Z) (s : string) : bool :=
  Z.of_nat (String.length s) <=? limit.

Definition check_author_columns (nm email : string) (b : option string)
  : Query unit :=
  if negb (fits 255 nm) then throw (ValueTooLong 255)
  else if negb (fits 255 email) then throw (ValueTooLong 255)
  else match b with
       | Some t => if fits 500 t then ret tt else throw (ValueTooLong 500)
       | None => ret tt
       end.

(** [db('authors').insert({...}).returning(cols)]. A rejected insert has
    drawn its id from the sequence all the same. *)
Definition authors_insert (nm email : string) (b : option string)
    (created updated : Z) : Query (list author) :=
  sent Authors Insert ;;;
  i <- read authors_id_seq ;;
  write (fun d => {| users := users d; users_id_seq := users_id_seq d;
                     authors := authors d; authors_id_seq := i + 1;
                     books := books d |}) ;;;
  check_author_columns nm email b ;;;
  taken <- read (fun d => existsb (has_author_email email) (authors d)) ;;
  if taken : bool then throw (UniqueViolation "authors_email_unique")
  else
    let a := {| author_id := i; name := nm; author_email := email; bio := b;
                author_created_at := created; author_updated_at := updated |} in
    write (fun d => {| users := users d; users_id_seq := users_id_seq d;
                       authors := authors d ++ [a];
                       authors_id_seq := authors_id_seq d;
                       books := books d |}) ;;;
    ret [a].

(** A [bio] that is [undefined] is left out of the [update]. *)
Definition set_author (nm email : string) (b : option string) (updated : Z)
    (a : author) : author :=
  {| author_id := author_id a; name := nm; author_email := email;
     bio := match b with Some t => Some t | None => bio a end;
     author_created_at := author_created_at a;
     author_updated_at := updated |}.

(** [db('authors').where({ id }).update({...}).returning(cols)] *)
Definition authors_where_id_update (id : string) (nm email : string)
    (b : option string) (updated : Z) : Query (list author) :=
  sent Authors Update ;;;
  i <- lift (int4_in id) ;;
  d <- read (fun d => d) ;;
  let hit := filter (has_author_id i) (authors d) in
  let others := filter (fun a => negb (has_author_id i a)) (authors d) in
  match hit with
  | [] => ret []
  | _ :: _ =>
      check_author_columns nm email b ;;;
      if existsb (has_author_email email) others
      then throw (UniqueViolation "authors_email_unique")
      else
        let upd := fun a => if has_author_id i a
                            then set_author nm email b updated a else a in
        write (fun d => {| users := users d; users_id_seq := users_id_seq d;
                           authors := map upd (authors d);
                           authors_id_seq := authors_id_seq d;
                           books := books d |}) ;;;
        ret (map upd hit)
  end.

(** Deleting authors deletes their books. *)
Definition delete_authors (ids : list Z) (d : db) : db :=
  let gone := fun i => existsb (Z.eqb i) ids in
  {| users := users d; users_id_seq := users_id_seq d;
     authors := filter (fun a => negb (gone (author_id a))) (authors d);
     authors_id_seq := authors_id_seq d;
     books := filter (fun b => match book_author_id b with
                               | Some i => negb (gone i)
                               | None => true
                               end) (books d) |}.

Definition count_authors (ids : list Z) (d : db) : Z :=
  Z.of_nat (List.length
              (filter (fun a => existsb (Z.eqb (author_id a)) ids) (authors d))).

(** [db('authors').where({ id }).del()] *)
Definition authors_where_id_del (id : string) : Query Z :=
  sent Authors Delete ;;;
  i <- lift (int4_in id) ;;
  n <- read (count_authors [i]) ;;
  write (delete_authors [i]) ;;;
  ret n.

(** [db('authors').whereIn('id', ids).del()] *)
Definition authors_whereIn_id_del (ids : list JS.value) : Query Z :=
  sent Authors Delete ;;;
  zs <- lift (int4_list ids) ;;
  n <- read (count_authors zs) ;;
  write (delete_authors zs) ;;;
  ret n.

End Knex.

(* ================================================================== *)
(** ** The application *)

(** *** Imported libraries *)

(** The object given to [jwt.sign]. *)
Record payload := {
  payload_id : option Z;
  payload_email : option string
}.

(** The object [jwt.verify] yields: the payload with the times of issue and
    of expiry, in seconds. *)
Record claims := {
  claims_id : option Z;
  claims_email : option string;
  iat : Z;
  exp : Z
}.

(** The functions the application imports.
    - [jwt_sign payload secret expiresIn now] and
      [jwt_verify token secret now] are jsonwebtoken's [sign] and [verify]
      at the time [now] (seconds); [timespan] reads an [expiresIn] text.
    - [bcrypt_hash password rounds salt] is bcrypt's [hash] with the salt it
      draws, [bcrypt_compare password hash] its [compare].
    - [isEmail] and [normalizeEmail] are validator.js'.
    - [responseFormat] is the object exported by types/response.js, which is
      not part of the sources. *)
Class Externals := {
  jwt_sign : payload -> option string -> string -> Z -> Pg.result string;
  jwt_verify : string -> option string -> Z -> Pg.result claims;
  timespan : string -> option Z;
  bcrypt_hash : string -> Z -> string -> string;
  bcrypt_compare : string -> string -> bool;
  isEmail : string -> bool;
  normalizeEmail : string -> string;
  responseFormat : JS.object
}.

(** *** Requests and responses *)

(** [process.env] *)
Record env := {
  ACCESS_TOKEN_SECRET : option string;
  REFRESH_TOKEN_SECRET : option string;
  ACCESS_TOKEN_EXPIRY : option string;
  REFRESH_TOKEN_EXPIRY : option string;
  PER_PAGE : option string
}.

(** [process.env.X || fallback] *)
Definition or_default (v : option string) (fallback : string) : string :=
  match v with
  | Some EmptyString | None => fallback
  | Some s => s
  end.

(** The parsed JSON body. Its text fields are strings when present. *)
Record body := {
  body_username : option string;
  body_email : option string;
  body_password : option string;
  body_name : option string;
  body_bio : option string;
  body_refreshToken : option string;
  body_ids : JS.value
}.

Record request := {
  authorization : option string;
  query : list (string * string);
  params_id : string;
  req_body : body
}.

(** What a request meets besides the store: the environment, the clock
    (milliseconds) and the salt bcrypt would draw. *)
Record context := {
  environment : env;
  clock : Z;
  entropy : string
}.

Record response := {
  status : Z;
  json : JS.object
}.

Definition respond (code : Z) (o : JS.object) : response :=
  {| status := code; json := o |}.

(** What a middleware does with a request. *)
Inductive middleware (A : Type) :=
| Respond (r : response)
| Next (a : A).
Arguments Respond {A} r.
Arguments Next {A} a.

(** A route handler. *)
Definition Handler := Pg.Caught response.

Definition str (s : string) : JS.value := JS.VStr s.
Definition num (z : Z) : JS.value := JS.VNum (JS.of_Z z).
Definition opt_str (s : option string) : JS.value :=
  match s with
  | Some x => JS.VStr x
  | None => JS.VUndefined
  end.

Definition falsy (s : option string) : bool :=
  match s with
  | Some EmptyString | None => true
  | Some _ => false
  end.

Fixpoint lookup (k : string) (q : list (string * string)) : option string :=
  match q with
  | [] => None
  | (k', v) :: q' => if (k =? k')%string then Some v else lookup k q'
  end.

(** [s.split(sep)] *)
Fixpoint split (sep : ascii) (s : string) : list string :=
  match s with
  | EmptyString => [EmptyString]
  | String c s' =>
      if Ascii.eqb c sep then EmptyString :: split sep s'
      else match split sep s' with
           | piece :: rest => String c piece :: rest
           | [] => [String c EmptyString]
           end
  end.

Definition decimal (z : Z) : string := NilZero.string_of_int (Z.to_int z).

Section Application.
Context {E : Externals}.
Import Pg.
Local Open Scope query_scope.

(** *** middleware/auth.js *)

Definition error_body (text : string) : JS.object := [("error", str text)].

Definition authenticate (c : context) (req : request) : middleware claims :=
  match authorization req with
  | None | Some EmptyString =>
      Respond (respond 401
                 (error_body "Authorization header missing or malformed"))
  | Some authHeader =>
      if negb (String.prefix "Bearer " authHeader)
      then Respond (respond 401
                      (error_body "Authorization header missing or malformed"))
      else
        match nth_error (split " " authHeader) 1 with
        | None | Some EmptyString =>
            Respond (respond 401 (error_body "Access token not provided"))
        | Some token =>
            match jwt_verify token (ACCESS_TOKEN_SECRET (environment c))
                             (clock c / 1000) with
            | Threw _ =>
                Respond (respond 403 (error_body "Invalid or expired token"))
            | Ok user => Next user
            end
        end
  end.

(** *** middleware/validate.js and the rules of express-validator *)

(** The text a rule sees in a field. *)
Definition text (v : option string) : string :=
  match v with
  | Some s => s
  | None => EmptyString
  end.

(** An entry of [validationResult(req).array()], as express-validator
    builds it for a field of the body: besides the message and the path it
    carries the value the failing rule saw ([undefined] for an absent field
    that no sanitizer has touched). *)
Definition field_error (path : string) (v : option string) (msg : string)
  : JS.value :=
  JS.VObj [ ("type", str "field"); ("value", opt_str v); ("msg", str msg);
            ("path", str path); ("location", str "body") ].

Definition failing (ok : bool) (path : string) (v : option string)
    (msg : string) : list JS.value :=
  if ok then [] else [field_error path v msg].

Definition notEmpty (s : string) : bool := negb (s =? EmptyString)%string.

Definition isLength (min : Z) (max : option Z) (s : string) : bool :=
  let n := Z.of_nat (String.length s) in
  (min <=? n) && match max with Some m => n <=? m | None => true end.

Definition validate {A} (errors : list JS.value) (sanitized : A)
  : middleware A :=
  match errors with
  | [] => Next sanitized
  | _ :: _ =>
      Respond (respond 400 [ ("status", str "error");
                             ("message", str "Validation failed");
                             ("errors", JS.VArr errors) ])
  end.

Definition set_username (v : option string) (b : body) : body :=
  {| body_username := v; body_email := body_email b;
     body_password := body_password b; body_name := body_name b;
     body_bio := body_bio b; body_refreshToken := body_refreshToken b;
     body_ids := body_ids b |}.

Definition set_email (v : option string) (b : body) : body :=
  {| body_username := body_username b; body_email := v;
     body_password := body_password b; body_name := body_name b;
     body_bio := body_bio b; body_refreshToken := body_refreshToken b;
     body_ids := body_ids b |}.

Definition set_name (v : option string) (b : body) : body :=
  {| body_username := body_username b; body_email := body_email b;
     body_password := body_password b; body_name := v;
     body_bio := body_bio b; body_refreshToken := body_refreshToken b;
     body_ids := body_ids b |}.

Definition set_bio (v : option string) (b : body) : body :=
  {| body_username := body_username b; body_email := body_email b;
     body_password := body_password b; body_name := body_name b;
     body_bio := v; body_refreshToken := body_refreshToken b;
     body_ids := body_ids b |}.

(** [body('email').trim().isEmail().withMessage(...).normalizeEmail()],
    shared by every route that takes an email. *)
Definition email_errors (b : body) : list JS.value :=
  let e := JS.trim (text (body_email b)) in
  failing (isEmail e) "email" (Some e) "Invalid email format".

Definition email_sanitized (b : body) : body :=
  set_email (Some (normalizeEmail (JS.trim (text (body_email b))))) b.

(** The rules of [POST /auth/register]. *)
Definition register_errors (b : body) : list JS.value :=
  let u := JS.trim (text (body_username b)) in
  failing (notEmpty u) "username" (Some u) "Username is required"
  ++ failing (isLength 3 (Some 30) u) "username" (Some u)
       "Username must be between 3 and 30 characters"
  ++ email_errors b
  ++ failing (isLength 6 None (text (body_password b))) "password"
       (body_password b) "Password must be at least 6 characters long".

Definition register_sanitized (b : body) : body :=
  email_sanitized (set_username (Some (JS.trim (text (body_username b)))) b).

(** The rules of [POST /auth/login]. *)
Definition login_errors (b : body) : list JS.value :=
  email_errors b
  ++ failing (notEmpty (text (body_password b))) "password" (body_password b)
       "Password is required".

Definition login_sanitized (b : body) : body := email_sanitized b.

(** The rules of [PUT /users/me]. *)
Definition update_user_errors (b : body) : list JS.value :=
  let u := JS.trim (text (body_username b)) in
  failing (notEmpty u) "username" (Some u) "Username is required"
  ++ email_errors b.

Definition update_user_sanitized (b : body) : body :=
  email_sanitized (set_username (Some (JS.trim (text (body_username b)))) b).

(** The rules of [POST /authors] and [PUT /authors/:id]; [optional()] skips
    the [bio] chain when the field is absent. *)
Definition bio_errors (b : body) : list JS.value :=
  match body_bio b with
  | None => []
  | Some t =>
      failing (isLength 0 (Some 500) (JS.trim t)) "bio" (Some (JS.trim t))
        "Bio must be less than 500 characters"
  end.

Definition author_errors (b : body) : list JS.value :=
  let n := JS.trim (text (body_name b)) in
  failing (notEmpty n) "name" (Some n) "Author name is required"
  ++ email_errors b
  ++ bio_errors b.

Definition author_sanitized (b : body) : body :=
  let b1 := set_name (Some (JS.trim (text (body_name b)))) b in
  let b2 := email_sanitized b1 in
  match body_bio b with
  | None => b2
  | Some t => set_bio (Some (JS.trim t)) b2
  end.

(** *** The envelope *)

(** [{ ...responseFormat, k1: v1, ... }] sent with [res.status(code)]. *)
Definition envelope (code : Z) (fields : list (string * JS.value)) : response :=
  respond code (JS.spread responseFormat fields).

Definition failure (code : Z) (msg : string) : response :=
  envelope code [ ("success", JS.VBool false); ("message", str msg);
                  ("statusCode", num code) ].

Definition failure_with (code : Z) (msg : string) (e : error) : response :=
  envelope code [ ("success", JS.VBool false); ("message", str msg);
                  ("errors", str (message e)); ("statusCode", num code) ].

(** A field of the body a handler hands to a library or to the query
    builder; it is a string once the rules of the route have run. *)
Definition defined (field : string) (v : option string) : Query string :=
  Knex.binding field v.

Definition sign (p : payload) (secret : option string) (expiresIn : string)
    (c : context) : Query string :=
  lift (jwt_sign p secret expiresIn (clock c / 1000)).

Definition public_columns : list string :=
  ["id"; "username"; "email"; "created_at"; "updated_at"].

Definition author_columns : list string :=
  ["id"; "name"; "email"; "bio"; "created_at"; "updated_at"].

(** The first row of a [returning], [undefined] when there is none. *)
Definition first_row {A} (row : A -> JS.object) (cols : list string)
    (rows : list A) : JS.value :=
  match rows with
  | r :: _ => JS.VObj (JS.pick cols (row r))
  | [] => JS.VUndefined
  end.

(** *** routes/auth.js *)

Definition register (c : context) (b : body) : Handler :=
  let dateNow := clock c in
  try_catch
    (email <- defined "email" (body_email b) ;;
     existingUser <- Knex.users_where_email_first email ;;
     match existingUser with
     | Some _ => ret (failure 409 "User already exists")
     | None =>
         pw <- defined "password" (body_password b) ;;
         let hashedPassword := bcrypt_hash pw 10 (entropy c) in
         uname <- defined "username" (body_username b) ;;
         rows <- Knex.users_insert uname email hashedPassword dateNow dateNow ;;
         ret (envelope 201
                [ ("message", str "User registered successfully");
                  ("data", first_row Knex.user_row public_columns rows);
                  ("statusCode", num 201) ])
     end)
    (failure_with 500 "Registration failed").

Definition access_expiry (c : context) : string :=
  or_default (ACCESS_TOKEN_EXPIRY (environment c)) "1h".

Definition refresh_expiry (c : context) : string :=
  or_default (REFRESH_TOKEN_EXPIRY (environment c)) "7d".

Definition login (c : context) (b : body) : Handler :=
  try_catch
    (email <- defined "email" (body_email b) ;;
     found <- Knex.users_where_email_first email ;;
     match found with
     | None => ret (failure 401 "Invalid email or password")
     | Some user =>
         pw <- defined "password" (body_password b) ;;
         if negb (bcrypt_compare pw (password user))
         then ret (failure 401 "Invalid email or password")
         else
           let p := {| payload_id := Some (user_id user);
                       payload_email := Some (user_email user) |} in
           accessToken <- sign p (ACCESS_TOKEN_SECRET (environment c))
                            (access_expiry c) c ;;
           refreshToken <- sign p (REFRESH_TOKEN_SECRET (environment c))
                             (refresh_expiry c) c ;;
           ret (envelope 200
                  [ ("message", str "Login successful");
                    ("data", JS.VObj
                       [ ("user", JS.VObj
                            [ ("id", num (user_id user));
                              ("username", str (username user));
                              ("email", str (user_email user)) ]);
                         ("accessToken", str accessToken);
                         ("refreshToken", str refreshToken) ]);
                    ("statusCode", num 200) ])
     end)
    (failure_with 500 "Login failed").

Definition refresh_token (c : context) (b : body) : Handler :=
  if falsy (body_refreshToken b)
  then reply (failure 401 "Refresh token is required")
  else
    try_catch
      (p <- lift (jwt_verify (text (body_refreshToken b))
                    (REFRESH_TOKEN_SECRET (environment c)) (clock c / 1000)) ;;
       accessToken <- sign {| payload_id := claims_id p;
                              payload_email := None |}
                        (ACCESS_TOKEN_SECRET (environment c))
                        (access_expiry c) c ;;
       ret (envelope 200
              [ ("message", str "Access token refreshed successfully");
                ("data", JS.VObj [("accessToken", str accessToken)]);
                ("statusCode", num 200) ]))
      (failure_with 403 "Invalid refresh token").

(** *** routes/users.js *)

Definition get_me (user : claims) : Handler :=
  try_catch
    (found <- Knex.users_where_id_first (claims_id user) ;;
     match found with
     | None => ret (failure 404 "User not found")
     | Some u =>
         ret (envelope 200
                [ ("success", JS.VBool true);
                  ("message", str "User details retrieved successfully");
                  ("statusCode", num 200);
                  ("data", JS.VObj (JS.pick public_columns (Knex.user_row u))) ])
     end)
    (failure_with 500 "Failed to retrieve user details").

Definition delete_me (user : claims) : Handler :=
  try_catch
    (let id := claims_id user in
     deletedUser <- Knex.users_where_id_first id ;;
     match deletedUser with
     | None => ret (failure 404 "User not found")
     | Some u =>
         _ <- Knex.users_where_id_del id ;;
         ret (envelope 200
                [ ("success", JS.VBool true);
                  ("message", str "User deleted successfully");
                  ("statusCode", num 200);
                  ("data", JS.VObj
                     [ ("id", num (user_id u));
                       ("username", str (username u));
                       ("email", str (user_email u));
                       ("created_at", JS.VDate (user_created_at u));
                       ("updated_at", JS.VDate (user_updated_at u)) ]) ])
     end)
    (failure_with 500 "Failed to delete user").

Definition update_me (c : context) (user : claims) (b : body) : Handler :=
  let id := claims_id user in
  if falsy (body_username b) || falsy (body_email b)
  then reply (failure 400 "Username and email are required")
  else
    try_catch
      (updatedUser <- Knex.users_where_id_first id ;;
       match updatedUser with
       | None => ret (failure 404 "User not found")
       | Some _ =>
           rows <- Knex.users_where_id_update id (text (body_username b))
                     (text (body_email b)) (clock c) ;;
           ret (envelope 200
                  [ ("success", JS.VBool true);
                    ("message", str "User details updated successfully");
                    ("statusCode", num 200);
                    ("data", first_row Knex.user_row public_columns rows) ])
       end)
      (failure_with 500 "Failed to update user details").

(** *** routes/authors.js *)

Definition option_sub (a : option Z) (b : Z) : option Z :=
  match a with
  | Some x => Some (x - b)
  | None => None
  end.

Definition option_mul (a b : option Z) : option Z :=
  match a, b with
  | Some x, Some y => Some (x * y)
  | _, _ => None
  end.

(** A query parameter, or the default of the destructuring when it is
    absent. The defaults [1] and [10] are numbers in the source; [parseInt]
    and [Number] read them as they read the texts used here. *)
Definition param (k : string) (fallback : string) (req : request) : string :=
  match lookup k (query req) with
  | Some v => v
  | None => fallback
  end.

Definition list_authors (c : context) (req : request) : Handler :=
  try_catch
    (let page := param "page" "1" req in
     let limit := param "limit" (or_default (PER_PAGE (environment c)) "10") req in
     let search := param "search" EmptyString req in
     let offset := option_mul (option_sub (JS.parseInt page) 1)
                              (JS.parseInt limit) in
     totalAuthors <- Knex.authors_count search ;;
     authors <- Knex.authors_page search (JS.parseInt limit) offset ;;
     ret (envelope 200
            [ ("success", JS.VBool true);
              ("message", str "Authors retrieved successfully");
              ("statusCode", num 200);
              ("data", JS.VArr (map (fun a => JS.VObj (Knex.author_row a))
                                    authors));
              ("pagination", JS.VObj
                 [ ("total", num totalAuthors);
                   ("page", JS.VNum (JS.Number page));
                   ("limit", JS.VNum (JS.Number limit));
                   ("pages", JS.VNum
                      (JS.ceil (JS.div (JS.of_Z totalAuthors)
                                       (JS.Number limit)))) ]) ]))
    (failure_with 500 "Failed to retrieve authors").

Definition get_author (req : request) : Handler :=
  let id := params_id req in
  try_catch
    (found <- Knex.authors_where_id_first id ;;
     match found with
     | None => ret (failure 404 "Author not found")
     | Some a =>
         ret (envelope 200
                [ ("success", JS.VBool true);
                  ("message", str "Author retrieved successfully");
                  ("statusCode", num 200);
                  ("data", JS.VObj (Knex.author_row a)) ])
     end)
    (failure_with 500 "Failed to retrieve author").

Definition create_author (c : context) (b : body) : Handler :=
  let dateNow := clock c in
  try_catch
    (nm <- defined "name" (body_name b) ;;
     email <- defined "email" (body_email b) ;;
     newAuthor <- Knex.authors_insert nm email (body_bio b) dateNow dateNow ;;
     ret (envelope 201
            [ ("success", JS.VBool true);
              ("message", str "Author created successfully");
              ("statusCode", num 201);
              ("data", first_row Knex.author_row author_columns newAuthor) ]))
    (failure_with 500 "Failed to create author").

Definition update_author (c : context) (req : request) (b : body) : Handler :=
  let id := params_id req in
  let dateNow := clock c in
  try_catch
    (updatedAuthor <- Knex.authors_where_id_first id ;;
     match updatedAuthor with
     | None => ret (failure 404 "Author not found")
     | Some _ =>
         nm <- defined "name" (body_name b) ;;
         email <- defined "email" (body_email b) ;;
         rows <- Knex.authors_where_id_update id nm email (body_bio b) dateNow ;;
         ret (envelope 200
                [ ("success", JS.VBool true);
                  ("message", str "Author updated successfully");
                  ("statusCode", num 200);
                  ("data", first_row Knex.author_row author_columns rows) ])
     end)
    (failure_with 500 "Failed to update author").

Definition delete_author (req : request) : Handler :=
  let id := params_id req in
  try_catch
    (deletedAuthor <- Knex.authors_where_id_del id ;;
     if deletedAuthor =? 0
     then ret (failure 404 "Author not found")
     else ret (envelope 200
                 [ ("success", JS.VBool true);
                   ("message", str "Author deleted successfully");
                   ("statusCode", num 200) ]))
    (failure_with 500 "Failed to delete author").

Definition batch_delete_authors (b : body) : Handler :=
  match body_ids b with
  | JS.VArr ((_ :: _) as ids) =>
      try_catch
        (deletedCount <- Knex.authors_whereIn_id_del ids ;;
         if deletedCount =? 0
         then ret (failure 404 "No authors found with the provided IDs")
         else ret (envelope 200
                     [ ("success", JS.VBool true);
                       ("message", str (decimal deletedCount
                                        ++ " authors deleted successfully"));
                       ("statusCode", num 200) ]))
        (failure_with 500 "Failed to delete authors")
  | _ => reply (failure 400 "Invalid or empty IDs array")
  end.

(** *** The router *)

Inductive endpoint :=
| PostRegister
| PostLogin
| PostRefreshToken
| GetMe
| PutMe
| DeleteMe
| GetAuthors
| GetAuthor
| PostAuthor
| PutAuthor
| DeleteAuthor
| DeleteAuthors.

(** The middleware of a route in front of its handler. *)
Definition guarded {A} (g : middleware A) (k : A -> Handler) : Handler :=
  match g with
  | Respond r => reply r
  | Next a => k a
  end.

Definition route (ep : endpoint) (c : context) (req : request) : Handler :=
  let b := req_body req in
  match ep with
  | PostRegister =>
      guarded (validate (register_errors b) (register_sanitized b))
              (register c)
  | PostLogin =>
      guarded (validate (login_errors b) (login_sanitized b)) (login c)
  | PostRefreshToken => refresh_token c b
  | GetMe => guarded (authenticate c req) get_me
  | DeleteMe => guarded (authenticate c req) delete_me
  | PutMe =>
      guarded (authenticate c req) (fun user =>
        guarded (validate (update_user_errors b) (update_user_sanitized b))
                (update_me c user))
  | GetAuthors => guarded (authenticate c req) (fun _ => list_authors c req)
  | GetAuthor => guarded (authenticate c req) (fun _ => get_author req)
  | PostAuthor =>
      guarded (authenticate c req) (fun _ =>
        guarded (validate (author_errors b) (author_sanitized b))
                (create_author c))
  | PutAuthor =>
      guarded (authenticate c req) (fun _ =>
        guarded (validate (author_errors b) (author_sanitized b))
                (update_author c req))
  | DeleteAuthor => guarded (authenticate c req) (fun _ => delete_author req)
  | DeleteAuthors =>
      guarded (authenticate c req) (fun _ => batch_delete_authors b)
  end.

(** The routes that list [authenticate] (spec, section 6: Auth = bearer). *)
Definition bearer_protected (ep : endpoint) : bool :=
  match ep with
  | PostRegister | PostLogin | PostRefreshToken => false
  | _ => true
  end.

End Application.

(* ================================================================== *)
(** ** What is assumed of jsonwebtoken *)

(** The contract of [sign] and [verify], with the signature taken as
    unforgeable: a token verifies under the secret it was signed with, until
    it expires, and under no other secret. *)
Section JwtContract.
Context (E : Externals).

(** Signing succeeds with a secret and a readable life time. *)
Definition signs_when_configured : Prop :=
  forall p k e t d,
    k <> EmptyString -> timespan e = Some d ->
    exists tok, jwt_sign p (Some k) e t = Pg.Ok tok.

(** A token is one word: it is not empty and holds no space. *)
Definition tokens_are_words : Prop :=
  forall p k e t tok,
    jwt_sign p k e t = Pg.Ok tok ->
    tok <> EmptyString /\ split " " tok = [tok].

Definition rejects_other_secret : Prop :=
  forall p k e t tok k' now,
    jwt_sign p (Some k) e t = Pg.Ok tok ->
    k' <> Some k ->
    exists err, jwt_verify tok k' now = Pg.Threw err.

Definition rejects_expired : Prop :=
  forall p k e t tok d now,
    jwt_sign p (Some k) e t = Pg.Ok tok ->
    timespan e = Some d ->
    t + d <= now ->
    exists err, jwt_verify tok (Some k) now = Pg.Threw err.

Definition accepts_valid : Prop :=
  forall p k e t tok d now,
    jwt_sign p (Some k) e t = Pg.Ok tok ->
    timespan e = Some d ->
    now < t + d ->
    jwt_verify tok (Some k) now =
      Pg.Ok {| claims_id := payload_id p; claims_email := payload_email p;
               iat := t; exp := t + d |}.

End JwtContract.

(* ================================================================== *)
(** ** A reference implementation of the imported libraries

    Tokens are the signed content written out, hashes the salted password
    written out: enough to run the routes and to show that the contract
    above can be met. *)

Module Reference.

Definition bit (b : bool) : ascii := if b then "1"%char else "0"%char.
Definition is_one (c : ascii) : bool := Ascii.eqb c "1".

Fixpoint write_text (s : string) : string :=
  match s with
  | EmptyString => "e"
  | String (Ascii b0 b1 b2 b3 b4 b5 b6 b7) s' =>
      String "c" (String (bit b0) (String (bit b1) (String (bit b2)
        (String (bit b3) (String (bit b4) (String (bit b5)
          (String (bit b6) (String (bit b7) (write_text s')))))))))
  end.

Fixpoint read_text (s : string) : option (string * string) :=
  match s with
  | String "e" rest => Some (EmptyString, rest)
  | String "c" (String c0 (String c1 (String c2 (String c3 (String c4
      (String c5 (String c6 (String c7 s')))))))) =>
      match read_text s' with
      | Some (t, rest) =>
          Some (String (Ascii (is_one c0) (is_one c1) (is_one c2) (is_one c3)
                              (is_one c4) (is_one c5) (is_one c6) (is_one c7))
                       t, rest)
      | None => None
      end
  | _ => None
  end.

Fixpoint write_pos (p : positive) : string :=
  match p with
  | xI q => String "I" (write_pos q)
  | xO q => String "O" (write_pos q)
  | xH => "H"
  end.

Fixpoint read_pos (s : string) : option (positive * string) :=
  match s with
  | String "I" r =>
      match read_pos r with Some (q, rest) => Some (xI q, rest) | None => None end
  | String "O" r =>
      match read_pos r with Some (q, rest) => Some (xO q, rest) | None => None end
  | String "H" r => Some (xH, r)
  | _ => None
  end.

Definition write_Z (z : Z) : string :=
  match z with
  | Z0 => "z"
  | Zpos p => String "p" (write_pos p)
  | Zneg p => String "n" (write_pos p)
  end.

Definition read_Z (s : string) : option (Z * string) :=
  match s with
  | String "z" r => Some (0, r)
  | String "p" r =>
      match read_pos r with Some (q, rest) => Some (Zpos q, rest) | None => None end
  | String "n" r =>
      match read_pos r with Some (q, rest) => Some (Zneg q, rest) | None => None end
  | _ => None
  end.

Definition write_option {A} (w : A -> string) (o : option A) : string :=
  match o with
  | Some a => String "S" (w a)
  | None => "N"
  end.

Definition read_option {A} (r : string -> option (A * string)) (s : string)
  : option (option A * string) :=
  match s with
  | String "S" t =>
      match r t with Some (a, rest) => Some (Some a, rest) | None => None end
  | String "N" t => Some (None, t)
  | _ => None
  end.

(** The content of a token and the secret it is signed with. *)
Record token := {
  content : claims;
  key : string
}.

Definition write_token (t : token) : string :=
  write_option write_Z (claims_id (content t))
  ++ write_option write_text (claims_email (content t))
  ++ write_Z (iat (content t))
  ++ write_Z (exp (content t))
  ++ write_text (key t).

Definition read_token (s : string) : option token :=
  match read_option read_Z s with
  | Some (i, s1) =>
      match read_option read_text s1 with
      | Some (e, s2) =>
          match read_Z s2 with
          | Some (t0, s3) =>
              match read_Z s3 with
              | Some (t1, s4) =>
                  match read_text s4 with
                  | Some (k, EmptyString) =>
                      Some {| content := {| claims_id := i; claims_email := e;
                                            iat := t0; exp := t1 |};
                              key := k |}
                  | _ => None
                  end
              | None => None
              end
          | None => None
          end
      | None => None
      end
  | None => None
  end.

(** A life time: a number of seconds, minutes, hours or days. *)
Definition timespan (e : string) : option Z :=
  match JS.take_digits 10 e with
  | ([], _) => None
  | (ds, unit) =>
      let n := JS.digits_value 10 ds in
      if (unit =? "s")%string then Some n
      else if (unit =? "m")%string then Some (60 * n)
      else if (unit =? "h")%string then Some (3600 * n)
      else if (unit =? "d")%string then Some (86400 * n)
      else None
  end.

Definition jwt_sign (p : payload) (secret : option string) (expiresIn : string)
    (now : Z) : Pg.result string :=
  match secret with
  | None | Some EmptyString =>
      Pg.Threw (Pg.LibraryError "secretOrPrivateKey must have a value")
  | Some k =>
      match timespan expiresIn with
      | None => Pg.Threw (Pg.LibraryError "expiresIn should be a timespan")
      | Some d =>
          Pg.Ok (write_token
                   {| content := {| claims_id := payload_id p;
                                    claims_email := payload_email p;
                                    iat := now; exp := now + d |};
                      key := k |})
      end
  end.

Definition jwt_verify (tok : string) (secret : option string) (now : Z)
  : Pg.result claims :=
  match secret with
  | None | Some EmptyString =>
      Pg.Threw (Pg.LibraryError "secret or public key must be provided")
  | Some k =>
      match read_token tok with
      | None => Pg.Threw (Pg.LibraryError "jwt malformed")
      | Some t =>
          if negb (key t =? k)%string
          then Pg.Threw (Pg.LibraryError "invalid signature")
          else if exp (content t) <=? now
               then Pg.Threw (Pg.LibraryError "jwt expired")
               else Pg.Ok (content t)
      end
  end.

Definition bcrypt_hash (pw : string) (rounds : Z) (salt : string) : string :=
  salt ++ "$" ++ pw.

Definition bcrypt_compare (pw hash : string) : bool :=
  let n := (String.length hash - String.length pw - 1)%nat in
  (String.substring n (String.length pw + 1)%nat hash =? "$" ++ pw)%string.

(** An address: a local part, [@], and a domain of two labels or more. *)
Definition isEmail (s : string) : bool :=
  match split "@" s with
  | [local; domain] =>
      negb (local =? EmptyString)%string
      && (2 <=? List.length (split "." domain))%nat
      && forallb (fun part => negb (part =? EmptyString)%string) (split "." domain)
  | _ => false
  end.

Definition normalizeEmail (s : string) : string :=
  string_of_list_ascii (map Knex.lower (list_ascii_of_string s)).

(** Modelled from the spec: types/response.js is not part of the sources;
    the object has the fields of the envelope (spec, section 4.3), a
    response being a success unless a handler says otherwise. *)
Definition responseFormat : JS.object :=
  [ ("success", JS.VBool true); ("message", JS.VStr EmptyString);
    ("data", JS.VNull); ("errors", JS.VNull);
    ("statusCode", JS.VNum (JS.of_Z 200)) ].

Definition externals : Externals :=
  Build_Externals jwt_sign jwt_verify timespan bcrypt_hash bcrypt_compare
                  isEmail normalizeEmail responseFormat.

End Reference.

(* ================================================================== *)
(** ** The envelope of the specification *)

(** The shape every response is to have (spec, section 4.3):
    [{ success: bool, message: string, data: T|null,
       errors: string|array|null, statusCode: int, pagination?: {...} }]. *)
Definition is_bool (v : JS.value) : bool :=
  match v with JS.VBool _ => true | _ => false end.
Definition is_string (v : JS.value) : bool :=
  match v with JS.VStr _ => true | _ => false end.
Definition is_number (v : JS.value) : bool :=
  match v with JS.VNum _ => true | _ => false end.
Definition is_object (v : JS.value) : bool :=
  match v with JS.VObj _ => true | _ => false end.
Definition is_errors (v : JS.value) : bool :=
  match v with JS.VStr _ | JS.VArr _ | JS.VNull => true | _ => false end.
Definition any_value (v : JS.value) : bool := true.

Definition envelope_fields : list (string * (JS.value -> bool)) :=
  [ ("success", is_bool); ("message", is_string); ("data", any_value);
    ("errors", is_errors); ("statusCode", is_number);
    ("pagination", is_object) ].

Definition required_fields : list string :=
  ["success"; "message"; "data"; "errors"; "statusCode"].

Fixpoint field_type (k : string) (table : list (string * (JS.value -> bool)))
  : option (JS.value -> bool) :=
  match table with
  | [] => None
  | (k', t) :: table' => if (k =? k')%string then Some t else field_type k table'
  end.

(** A property of the envelope, holding a value of its type. *)
Definition field_ok (kv : string * JS.value) : bool :=
  match field_type (fst kv) envelope_fields with
  | Some t => t (snd kv)
  | None => false
  end.

Definition envelope_shape (o : JS.object) : bool :=
  forallb field_ok o && forallb (fun k => JS.has_key k o) required_fields.

Definition enveloped (r : response) : Prop := envelope_shape (json r) = true.

(** The two shapes the middleware answers with. *)
Definition middleware_answer (r : response) : Prop :=
  (exists code text, r = respond code [("error", JS.VStr text)])
  \/ (exists errors,
        r = respond 400 [ ("status", JS.VStr "error");
                          ("message", JS.VStr "Validation failed");
                          ("errors", JS.VArr errors) ]).

(** Every result of the computation satisfies [P]. *)
Definition yields {R} (P : R -> Prop) (m : Pg.Query R) : Prop :=
  forall w, match fst (m w) with
            | Pg.Ok r => P r
            | Pg.Threw _ => True
            end.

(** A value holds [needle] as a string somewhere inside. *)
Fixpoint holds_text (needle : string) (v : JS.value) : bool :=
  match v with
  | JS.VStr s => (s =? needle)%string
  | JS.VArr items => existsb (holds_text needle) items
  | JS.VObj fields => existsb (fun kv => holds_text needle (snd kv)) fields
  | _ => false
  end.

(** A value has a property named [k], at any depth. *)
Fixpoint names_key (k : string) (v : JS.value) : bool :=
  match v with
  | JS.VArr items => existsb (names_key k) items
  | JS.VObj fields =>
      existsb (fun kv => (fst kv =? k)%string || names_key k (snd kv)) fields
  | _ => false
  end.

Definition unnamed (k : string) (o : JS.object) : Prop :=
  names_key k (JS.VObj o) = false.

(** The response has no property named [password]. *)
Definition discreet (r : response) : Prop := unnamed "password" (json r).

(** *** Sample requests *)

Module Sample.

Definition env : env :=
  {| ACCESS_TOKEN_SECRET := Some "access-secret";
     REFRESH_TOKEN_SECRET := Some "refresh-secret";
     ACCESS_TOKEN_EXPIRY := None;
     REFRESH_TOKEN_EXPIRY := None;
     PER_PAGE := None |}.

Definition context : context :=
  {| environment := env; clock := 1000000; entropy := "salt" |}.

Definition no_body : body :=
  {| body_username := None; body_email := None; body_password := None;
     body_name := None; body_bio := None; body_refreshToken := None;
     body_ids := JS.VUndefined |}.

Definition blank : request :=
  {| authorization := None; query := []; params_id := EmptyString;
     req_body := no_body |}.

Definition start : Pg.world := {| Pg.store := Pg.empty; Pg.log := [] |}.

(** An access token of user 1, as [POST /auth/login] signs it. *)
Definition access_token : string :=
  match Reference.jwt_sign
          {| payload_id := Some 1; payload_email := Some "ann@example.com" |}
          (Some "access-secret") "1h" 1000 with
  | Pg.Ok t => t
  | Pg.Threw _ => EmptyString
  end.

(** A refresh token of user 1, as [POST /auth/login] signs it. *)
Definition refresh_token : string :=
  match Reference.jwt_sign
          {| payload_id := Some 1; payload_email := Some "ann@example.com" |}
          (Some "refresh-secret") "7d" 1000 with
  | Pg.Ok t => t
  | Pg.Threw _ => EmptyString
  end.

(** An access token of a user 9, who never registered. *)
Definition stranger_token : string :=
  match Reference.jwt_sign
          {| payload_id := Some 9; payload_email := Some "eve@example.com" |}
          (Some "access-secret") "1h" 1000 with
  | Pg.Ok t => t
  | Pg.Threw _ => EmptyString
  end.

Definition presenting (tok : string) : request :=
  {| authorization := Some ("Bearer " ++ tok)%string; query := [];
     params_id := EmptyString; req_body := no_body |}.

Definition bearer (b : body) : request :=
  {| authorization := Some ("Bearer " ++ access_token)%string; query := [];
     params_id := EmptyString; req_body := b |}.

Definition credentials (email pw : string) : body :=
  {| body_username := Some "ann"; body_email := Some email;
     body_password := Some pw; body_name := None; body_bio := None;
     body_refreshToken := None; body_ids := JS.VUndefined |}.

Definition signing_up (email pw : string) : request :=
  {| authorization := None; query := []; params_id := EmptyString;
     req_body := credentials email pw |}.

(** The store once Ann has registered with the password [secret1]. *)
Definition registered : Pg.world :=
  {| Pg.store :=
       {| Pg.users :=
            [ {| Pg.user_id := 1; Pg.username := "ann";
                 Pg.user_email := "ann@example.com";
                 Pg.password := Reference.bcrypt_hash "secret1" 10 "salt";
                 Pg.user_created_at := 1000000;
                 Pg.user_updated_at := 1000000 |} ];
          Pg.users_id_seq := 2;
          Pg.authors := []; Pg.authors_id_seq := 1; Pg.books := [] |};
     Pg.log := [] |}.

Definition refreshing (tok : string) : request :=
  {| authorization := None; query := []; params_id := EmptyString;
     req_body :=
       {| body_username := None; body_email := None; body_password := None;
          body_name := None; body_bio := None; body_refreshToken := Some tok;
          body_ids := JS.VUndefined |} |}.

Definition new_author (nm email : string) : body :=
  {| body_username := None; body_email := Some email; body_password := None;
     body_name := Some nm; body_bio := None; body_refreshToken := None;
     body_ids := JS.VUndefined |}.

Definition with_ids (ids : JS.value) : body :=
  {| body_username := None; body_email := None; body_password := None;
     body_name := None; body_bio := None; body_refreshToken := None;
     body_ids := ids |}.

Definition listing (q : list (string * string)) : request :=
  {| authorization := Some ("Bearer " ++ access_token)%string; query := q;
     params_id := EmptyString; req_body := no_body |}.

(** Authors 1 to [n], created one second apart. *)
Definition author_at (i : nat) : Pg.author :=
  {| Pg.author_id := Z.of_nat i; Pg.name := "author";
     Pg.author_email := (decimal (Z.of_nat i) ++ "@example.com")%string;
     Pg.bio := None;
     Pg.author_created_at := 1000 * Z.of_nat i;
     Pg.author_updated_at := 1000 * Z.of_nat i |}.

Definition library (n : nat) : Pg.world :=
  {| Pg.store :=
       {| Pg.users := []; Pg.users_id_seq := 1;
          Pg.authors := map author_at (seq 1 n);
          Pg.authors_id_seq := Z.of_nat n + 1; Pg.books := [] |};
     Pg.log := [] |}.

End Sample.

(** *** Notions of the specification *)




(** The number of authors that have the email. *)
Definition authors_with_email (email : string) (w : Pg.world) : nat :=
  List.length (filter (Knex.has_author_email email)
                      (Pg.authors (Pg.store w))).

(** A text without a space. *)
Fixpoint spaceless (s : string) : bool :=
  match s with
  | EmptyString => true
  | String c s' => negb (Ascii.eqb c " ") && spaceless s'
  end.

(** The tokens the bearer step is not to accept (spec, section 4.1): one
    signed with the refresh secret, one signed with a secret that is not
    the access secret, and an access token whose life time has passed. *)
Inductive unacceptable {E : Externals} (c : context) (tok : string) : Prop :=
| signed_for_refresh (p : payload) (r e : string) (t : Z) :
    REFRESH_TOKEN_SECRET (environment c) = Some r ->
    jwt_sign p (Some r) e t = Pg.Ok tok ->
    unacceptable c tok
| signed_with_other_secret (p : payload) (k e : string) (t : Z) :
    ACCESS_TOKEN_SECRET (environment c) <> Some k ->
    jwt_sign p (Some k) e t = Pg.Ok tok ->
    unacceptable c tok
| expired (p : payload) (k e : string) (t d : Z) :
    ACCESS_TOKEN_SECRET (environment c) = Some k ->
    jwt_sign p (Some k) e t = Pg.Ok tok ->
    timespan e = Some d ->
    t + d <= clock c / 1000 ->
    unacceptable c tok.

(** The token secrets are set and the life times are readable. *)
Definition configured {E : Externals} (c : context) : Prop :=
  (exists k, ACCESS_TOKEN_SECRET (environment c) = Some k /\ k <> EmptyString)
  /\ (exists k, REFRESH_TOKEN_SECRET (environment c) = Some k
                /\ k <> EmptyString)
  /\ (exists d, timespan (access_expiry c) = Some d)
  /\ (exists d, timespan (refresh_expiry c) = Some d).


(** *** What is assumed of bcrypt *)

(** [compare] accepts a password against the hash [hash] made of it. *)
Definition compare_accepts_hash (E : Externals) : Prop :=
  forall pw rounds salt, bcrypt_compare pw (bcrypt_hash pw rounds salt) = true.

(** The user row [POST /auth/register] inserts for a body, in the store
    [d]. *)
Definition registered_user {E : Externals} (c : context) (b : body)
    (d : Pg.db) : Pg.user :=
  {| Pg.user_id := Pg.users_id_seq d;
     Pg.username := JS.trim (text (body_username b));
     Pg.user_email := normalizeEmail (JS.trim (text (body_email b)));
     Pg.password := bcrypt_hash (text (body_password b)) 10 (entropy c);
     Pg.user_created_at := clock c;
     Pg.user_updated_at := clock c |}.

(** The computation leaves the store as it is. *)
Definition untouched {A} (m : Pg.Query A) : Prop :=
  forall w, Pg.store (snd (m w)) = Pg.store w.

(** The routes that only read. *)
Definition reading_routes : list endpoint :=
  [PostLogin; PostRefreshToken; GetMe; GetAuthors; GetAuthor].

(** What the migrations promise of the authors table: the emails are
    unique, the ids are unique, every id has been drawn from the sequence,
    and the author a book names is in the table. *)
Definition refers_to (l : list Pg.author) (b : Pg.book) : Prop :=
  match Pg.book_author_id b with
  | Some i => In i (map Pg.author_id l)
  | None => True
  end.

Definition authors_consistent (d : Pg.db) : Prop :=
  NoDup (map Pg.author_email (Pg.authors d))
  /\ NoDup (map Pg.author_id (Pg.authors d))
  /\ Forall (fun a => Pg.author_id a < Pg.authors_id_seq d) (Pg.authors d)
  /\ Forall (refers_to (Pg.authors d)) (Pg.books d).

(** The computation keeps a property of the store. *)
Definition keeps {A} (I : Pg.db -> Prop) (m : Pg.Query A) : Prop :=
  forall w, I (Pg.store w) -> I (Pg.store (snd (m w))).

Definition all_routes : list endpoint :=
  [ PostRegister; PostLogin; PostRefreshToken; GetMe; PutMe; DeleteMe;
    GetAuthors; GetAuthor; PostAuthor; PutAuthor; DeleteAuthor;
    DeleteAuthors ].

(** The author a successful [POST /authors] stores for the body of the
    request: the rules have trimmed the name and the bio and normalised the
    email, the id comes from the sequence and both dates from the clock. *)
Definition created_author {E : Externals} (c : context) (b : body)
    (d : Pg.db) : Pg.author :=
  {| Pg.author_id := Pg.authors_id_seq d;
     Pg.name := JS.trim (text (body_name b));
     Pg.author_email := normalizeEmail (JS.trim (text (body_email b)));
     Pg.bio := option_map JS.trim (body_bio b);
     Pg.author_created_at := clock c;
     Pg.author_updated_at := clock c |}.

(** The conditions the rules of the author routes put on a body. *)
Definition author_rules {E : Externals} (b : body) : Prop :=
  JS.trim (text (body_name b)) <> EmptyString
  /\ isEmail (JS.trim (text (body_email b))) = true
  /\ match body_bio b with
     | Some t => (String.length (JS.trim t) <= 500)%nat
     | None => True
     end.

(** The conditions the rules of the registration put on a body. *)
Definition register_rules_hold {E : Externals} (b : body) : Prop :=
  (3 <= String.length (JS.trim (text (body_username b))) <= 30)%nat
  /\ isEmail (JS.trim (text (body_email b))) = true
  /\ (6 <= String.length (text (body_password b)))%nat.

(** The characters [LIKE] gives a meaning to. *)
Definition wildcard (c : ascii) : bool :=
  Ascii.eqb c "%" || Ascii.eqb c "_" || Ascii.eqb c "\".

(** A search text without such characters. *)
Definition literal (s : string) : bool :=
  forallb (fun c => negb (wildcard c)) (list_ascii_of_string s).

(** [sub] occurs in [s]. *)
Definition occurs_in {A} (sub s : list A) : Prop :=
  exists pre post, s = pre ++ sub ++ post.

(** A text in lower case, as [ILIKE] compares it. *)
Definition lowered (s : string) : list ascii :=
  map Knex.lower (list_ascii_of_string s).

(** Requests and a store for the author routes. *)
Module Scenario.

(** What the access token of the samples verifies to. *)
Definition ann : claims :=
  {| claims_id := Some 1; claims_email := Some "ann@example.com";
     iat := 1000; exp := 1000 + 3600 |}.

Definition author_body (nm email : string) (b : option string) : body :=
  {| body_username := None; body_email := Some email; body_password := None;
     body_name := Some nm; body_bio := b; body_refreshToken := None;
     body_ids := JS.VUndefined |}.

(** A request with the access token, for the author of the id [id]. *)
Definition visiting (id : string) (b : body) : request :=
  {| authorization := Some ("Bearer " ++ Sample.access_token)%string;
     query := []; params_id := id; req_body := b |}.

Definition volume (i : Z) (by_author : option Z) : Pg.book :=
  {| Pg.book_id := i; Pg.title := "title"; Pg.genre := "genre";
     Pg.year := 2000; Pg.book_author_id := by_author;
     Pg.book_user_id := None |}.

(** Three authors; two books of the second, one of the third and one of
    nobody. *)
Definition shelf : Pg.world :=
  {| Pg.store :=
       {| Pg.users := []; Pg.users_id_seq := 1;
          Pg.authors := map Sample.author_at (seq 1 3);
          Pg.authors_id_seq := 4;
          Pg.books := [ volume 1 (Some 2); volume 2 (Some 2);
                        volume 3 (Some 3); volume 4 None ] |};
     Pg.log := [] |}.

End Scenario.

(* ================================================================== *)
(** * Properties *)

(** ** Numbers read from text *)

Example parseInt_10 : JS.parseInt "10" = Some 10. Proof. reflexivity. Qed.
Example parseInt_pfx : JS.parseInt " -0x1fz" = Some (-31). Proof. reflexivity. Qed.
Example parseInt_abc : JS.parseInt "abc" = None. Proof. reflexivity. Qed.
Example parseInt_frac : JS.parseInt "2.5" = Some 2. Proof. reflexivity. Qed.
Example Number_10 : JS.Number "10" = JS.of_Z 10. Proof. reflexivity. Qed.
Example Number_frac : JS.Number " 2.5 " = JS.Fin (5 # 2). Proof. reflexivity. Qed.
Example Number_exp : JS.Number "1e3" = JS.of_Z 1000. Proof. reflexivity. Qed.
Example Number_exp2 : JS.Number "15e-1" = JS.Fin (3 # 2). Proof. reflexivity. Qed.
Example Number_bad : JS.Number "10abc" = JS.NaN. Proof. reflexivity. Qed.
Example Number_empty : JS.Number EmptyString = JS.of_Z 0. Proof. reflexivity. Qed.
Example Number_negz : JS.Number "-0" = JS.NZero. Proof. reflexivity. Qed.
Example Number_hex : JS.Number "0x10" = JS.of_Z 16. Proof. reflexivity. Qed.
Example Number_dot : JS.Number "." = JS.NaN. Proof. reflexivity. Qed.
Example Number_inf : JS.Number "-Infinity" = JS.NInf. Proof. reflexivity. Qed.
Example ceil_div : JS.ceil (JS.div (JS.of_Z 25) (JS.of_Z 10)) = JS.of_Z 3. Proof. reflexivity. Qed.
Example ceil_div0 : JS.ceil (JS.div (JS.of_Z 25) (JS.of_Z 0)) = JS.PInf. Proof. reflexivity. Qed.
Example ceil_div00 : JS.ceil (JS.div (JS.of_Z 0) (JS.of_Z 0)) = JS.NaN. Proof. reflexivity. Qed.

(** ** Objects *)

Lemma get_set_same (k : string) (v : JS.value) (o : JS.object) :
  JS.get k (JS.set k v o) = Some v.
Proof.
  induction o as [| [k' v'] o IH]; simpl.
  - now rewrite String.eqb_refl.
  - destruct (String.eqb k k') eqn:Hk; simpl.
    + now rewrite String.eqb_refl.
    + now rewrite Hk.
Qed.

Lemma get_set_other (k k' : string) (v : JS.value) (o : JS.object) :
  String.eqb k k' = false ->
  JS.get k (JS.set k' v o) = JS.get k o.
Proof.
  intros Hk. induction o as [| [k0 v0] o IH]; simpl.
  - now rewrite Hk.
  - destruct (String.eqb k' k0) eqn:H0; simpl.
    + apply String.eqb_eq in H0. subst k0. now rewrite Hk.
    + destruct (String.eqb k k0); [reflexivity | exact IH].
Qed.

(** Reads a property of an object literal spread over [responseFormat]. *)
Ltac read_field :=
  unfold envelope, failure, failure_with, respond, JS.spread; simpl;
  repeat first
    [ rewrite get_set_same
    | rewrite get_set_other by reflexivity ].

(** ** C1: the middleware answers outside the envelope *)

(** C1 (the code departs from its response format). A request without an
    [Authorization] header is answered by the credential verifier, on every
    bearer-protected route, with the body [{ error }]; a login request
    without fields is answered by the validation middleware with the body
    [{ status, message, errors }]. Neither body has the shape of the
    envelope, whatever the imported libraries are. *)
Theorem middleware_answers_outside_envelope (E : Externals) (c : context)
    (w : Pg.world) :
  Forall (fun ep =>
            route ep c Sample.blank w
            = (respond 401
                 (error_body "Authorization header missing or malformed"), w))
         [ GetMe; PutMe; DeleteMe; GetAuthors; GetAuthor; PostAuthor;
           PutAuthor; DeleteAuthor; DeleteAuthors ]
  /\ envelope_shape
       (error_body "Authorization header missing or malformed") = false
  /\ status (fst (route PostLogin c Sample.blank w)) = 400
  /\ JS.keys (json (fst (route PostLogin c Sample.blank w)))
     = ["status"; "message"; "errors"]
  /\ envelope_shape (json (fst (route PostLogin c Sample.blank w))) = false.
Proof.
  split; [| split; [reflexivity |]].
  - repeat constructor.
  - assert (Hne : exists e es, login_errors (req_body Sample.blank) = e :: es).
    { unfold login_errors, email_errors. simpl.
      destruct (failing (isEmail _) _ _ _) as [| e es]; simpl; eauto. }
    destruct Hne as (e & es & He).
    unfold route, guarded, validate. rewrite He. simpl. auto.
Qed.

(** The answers of the middleware never have the shape of the envelope. *)
Lemma middleware_answers_are_no_envelopes (r : response) :
  middleware_answer r -> envelope_shape (json r) = false.
Proof.
  intros [(code & text & ->) | (errors & ->)]; reflexivity.
Qed.

(** *** The handlers answer inside the envelope *)

Lemma forallb_set (P : string * JS.value -> bool) (k : string)
    (v : JS.value) (o : JS.object) :
  forallb P o = true -> P (k, v) = true -> forallb P (JS.set k v o) = true.
Proof.
  intros Ho Hkv. induction o as [| [k' v'] o IH]; simpl in *.
  - now rewrite Hkv.
  - apply andb_prop in Ho as [H1 H2].
    destruct (String.eqb k k'); simpl.
    + now rewrite Hkv, H2.
    + now rewrite H1, IH.
Qed.

Lemma has_key_set (k' k : string) (v : JS.value) (o : JS.object) :
  JS.has_key k' o = true -> JS.has_key k' (JS.set k v o) = true.
Proof.
  unfold JS.has_key. destruct (String.eqb k' k) eqn:Hk.
  - apply String.eqb_eq in Hk. subst k'. now rewrite get_set_same.
  - now rewrite get_set_other.
Qed.

Lemma envelope_shape_set (k : string) (v : JS.value) (o : JS.object) :
  envelope_shape o = true -> field_ok (k, v) = true ->
  envelope_shape (JS.set k v o) = true.
Proof.
  unfold envelope_shape. intros Ho Hkv. apply andb_prop in Ho as [H1 H2].
  apply andb_true_intro. split; [now apply forallb_set |].
  apply forallb_forall. intros k' Hk'.
  apply has_key_set. eapply forallb_forall in H2; eauto.
Qed.

Lemma envelope_shape_spread (fields : list (string * JS.value))
    (o : JS.object) :
  envelope_shape o = true -> forallb field_ok fields = true ->
  envelope_shape (JS.spread o fields) = true.
Proof.
  unfold JS.spread. revert o.
  induction fields as [| [k v] fields IH]; simpl; intros o Ho Hf; [exact Ho |].
  apply andb_prop in Hf as [H1 H2].
  apply IH; [| exact H2]. now apply envelope_shape_set.
Qed.

Section Envelope.
Context {E : Externals}.
Hypothesis format : envelope_shape responseFormat = true.

Lemma envelope_enveloped (code : Z) (fields : list (string * JS.value)) :
  forallb field_ok fields = true -> enveloped (envelope code fields).
Proof. intros H. now apply envelope_shape_spread. Qed.

Lemma failure_enveloped (code : Z) (msg : string) :
  enveloped (failure code msg).
Proof. now apply envelope_enveloped. Qed.

Lemma failure_with_enveloped (code : Z) (msg : string) (e : Pg.error) :
  enveloped (failure_with code msg e).
Proof. now apply envelope_enveloped. Qed.

Lemma yields_ret {R} (P : R -> Prop) (r : R) : P r -> yields P (Pg.ret r).
Proof. intros H w. exact H. Qed.

Lemma yields_throw {R} (P : R -> Prop) (e : Pg.error) :
  yields P (Pg.throw e).
Proof. intros w. exact I. Qed.

Lemma yields_bind {A R} (P : R -> Prop) (m : Pg.Query A)
    (k : A -> Pg.Query R) :
  (forall a, yields P (k a)) -> yields P (Pg.bind m k).
Proof.
  intros H w. unfold Pg.bind. destruct (m w) as [[a | e] w'].
  - apply H.
  - exact I.
Qed.

Lemma caught {R} (P : R -> Prop) (m : Pg.Query R) (h : Pg.error -> R)
    (w : Pg.world) :
  yields P m -> (forall e, P (h e)) -> P (fst (Pg.try_catch m h w)).
Proof.
  intros Hm Hh. unfold Pg.try_catch. specialize (Hm w).
  destruct (m w) as [[r | e] w']; simpl in *; auto.
Qed.

(** Steps through a handler: every [bind], every branch, down to the
    responses it builds. *)
Ltac answer :=
  match goal with
  | |- yields _ (Pg.ret _) => apply yields_ret
  | |- yields _ (Pg.throw _) => apply yields_throw
  | |- yields _ (Pg.bind _ _) => apply yields_bind; intros ?
  | |- yields _ (match ?x with _ => _ end) => destruct x
  | |- enveloped (failure _ _) => apply failure_enveloped
  | |- enveloped (failure_with _ _ _) => apply failure_with_enveloped
  | |- enveloped (envelope _ _) => apply envelope_enveloped; reflexivity
  end.

Tactic Notation "handler" reference(h) :=
  unfold h, defined, Knex.binding, sign;
  first [ apply (caught enveloped); [repeat answer | intros ?; answer]
        | repeat answer ].
















End Envelope.

(** ** C2: a second author with the same email *)

(** The insert of an author whose email is taken is rejected by the store,
    and the handler answers with the 500 of its [catch]; the table is as it
    was. *)
Lemma create_author_taken_email (E : Externals) (c : context) (b : body)
    (w : Pg.world) (nm email : string) :
  body_name b = Some nm ->
  body_email b = Some email ->
  Knex.fits 255 nm = true ->
  Knex.fits 255 email = true ->
  body_bio b = None ->
  existsb (Knex.has_author_email email) (Pg.authors (Pg.store w)) = true ->
  fst (create_author c b w)
  = failure_with 500 "Failed to create author"
      (Pg.UniqueViolation "authors_email_unique")
  /\ Pg.authors (Pg.store (snd (create_author c b w)))
     = Pg.authors (Pg.store w).
Proof.
  intros Hn He Fn Fe Hb Ht.
  unfold create_author, Pg.try_catch, defined, Knex.binding.
  rewrite Hn, He. cbn.
  unfold Knex.authors_insert, Knex.check_author_columns, Pg.bind, Pg.sent,
    Pg.read, Pg.write, Pg.throw, Pg.ret. cbn.
  rewrite Fn, Fe, Hb. cbn. rewrite Ht. cbn. split; reflexivity.
Qed.

(** C2 (the code answers a conflict as an unexpected failure). With the
    reference libraries: Ann is created, then a second author with Ann's
    email is posted, then the second author Bob is updated to Ann's email.
    Both attempts are answered 500 "Failed to ...", not 409; one row with
    the email exists afterwards. *)
Theorem duplicate_author_email_is_answered_500 :
  let E := Reference.externals in
  let ann := Sample.bearer (Sample.new_author "Ann" "ann@example.com") in
  let bob := Sample.bearer (Sample.new_author "Bob" "bob@example.com") in
  let again := Sample.bearer (Sample.new_author "Anna" "ann@example.com") in
  let move :=
    {| authorization := authorization again; query := [];
       params_id := "2"; req_body := req_body again |} in
  let s1 := route PostAuthor Sample.context ann Sample.start in
  let s2 := route PostAuthor Sample.context bob (snd s1) in
  let s3 := route PostAuthor Sample.context again (snd s2) in
  let s4 := route PutAuthor Sample.context move (snd s3) in
  status (fst s1) = 201 /\ status (fst s2) = 201
  /\ fst s3 = failure_with 500 "Failed to create author"
                (Pg.UniqueViolation "authors_email_unique")
  /\ status (fst s3) = 500
  /\ fst s4 = failure_with 500 "Failed to update author"
                (Pg.UniqueViolation "authors_email_unique")
  /\ status (fst s4) = 500
  /\ authors_with_email "ann@example.com" (snd s3) = 1%nat
  /\ authors_with_email "ann@example.com" (snd s4) = 1%nat.
Proof.
  vm_compute. repeat split; reflexivity.
Qed.

(** ** C3: a page of authors *)

Section Ordering.
Import Pg Knex.





End Ordering.






(** ** The reference libraries meet the contract *)

Module ReferenceFacts.
Import Reference.

Lemma is_one_bit (b : bool) : is_one (bit b) = b.
Proof. now destruct b. Qed.

Lemma read_write_text (s rest : string) :
  read_text (write_text s ++ rest) = Some (s, rest).
Proof.
  induction s as [| a s IH]; [reflexivity |].
  destruct a as [b0 b1 b2 b3 b4 b5 b6 b7]. cbn [write_text append read_text].
  rewrite IH. now rewrite !is_one_bit.
Qed.

Lemma read_write_pos (p : positive) (rest : string) :
  read_pos (write_pos p ++ rest) = Some (p, rest).
Proof.
  induction p as [q IH | q IH |]; cbn [write_pos append read_pos];
    try rewrite IH; reflexivity.
Qed.

Lemma read_write_Z (z : Z) (rest : string) :
  read_Z (write_Z z ++ rest) = Some (z, rest).
Proof.
  destruct z; cbn [write_Z append read_Z]; try rewrite read_write_pos;
    reflexivity.
Qed.

Lemma read_write_option {A} (w : A -> string)
    (r : string -> option (A * string)) (o : option A) (rest : string) :
  (forall a rest', r (w a ++ rest')%string = Some (a, rest')) ->
  read_option r (write_option w o ++ rest) = Some (o, rest).
Proof.
  intros H. destruct o; cbn [write_option append read_option];
    try rewrite H; reflexivity.
Qed.

Lemma append_empty (s : string) : (s ++ EmptyString)%string = s.
Proof. induction s; simpl; congruence. Qed.

Lemma read_write_token (t : token) : read_token (write_token t) = Some t.
Proof.
  destruct t as [[i e t0 t1] k]. unfold read_token, write_token.
  cbn [content key claims_id claims_email iat exp].
  rewrite (read_write_option _ _ _ _ read_write_Z).
  rewrite (read_write_option _ _ _ _ read_write_text).
  rewrite !read_write_Z.
  rewrite <- (append_empty (write_text k)), read_write_text.
  reflexivity.
Qed.

Lemma spaceless_append (a b : string) :
  spaceless (a ++ b) = spaceless a && spaceless b.
Proof.
  induction a as [| c a IH]; simpl; [reflexivity |].
  rewrite IH. now rewrite andb_assoc.
Qed.

Lemma spaceless_text (s : string) : spaceless (write_text s) = true.
Proof.
  induction s as [| a s IH]; [reflexivity |].
  destruct a as [[] [] [] [] [] [] [] []]; simpl; exact IH.
Qed.

Lemma spaceless_pos (p : positive) : spaceless (write_pos p) = true.
Proof. induction p; simpl; auto. Qed.

Lemma spaceless_Z (z : Z) : spaceless (write_Z z) = true.
Proof. destruct z; simpl; auto using spaceless_pos. Qed.

Lemma spaceless_token (t : token) : spaceless (write_token t) = true.
Proof.
  unfold write_token. rewrite !spaceless_append.
  destruct (claims_id (content t)), (claims_email (content t)); simpl;
    rewrite ?spaceless_Z, ?spaceless_text; reflexivity.
Qed.

Lemma write_token_not_empty (t : token) : write_token t <> EmptyString.
Proof.
  unfold write_token. destruct (claims_id (content t)); discriminate.
Qed.

Lemma signs : signs_when_configured externals.
Proof.
  intros p k e t d Hk Hd. cbn in *. unfold jwt_sign.
  destruct k as [| a k]; [contradiction |]. rewrite Hd. eauto.
Qed.

(** A signed token is the written form of its content and secret. *)
Lemma signed (p : payload) (k : option string) (e : string) (t : Z)
    (tok : string) :
  jwt_sign p k e t = Pg.Ok tok ->
  exists s d,
    k = Some s /\ s <> EmptyString /\ timespan e = Some d
    /\ tok = write_token
               {| content := {| claims_id := payload_id p;
                                claims_email := payload_email p;
                                iat := t; exp := t + d |};
                  key := s |}.
Proof.
  unfold jwt_sign. destruct k as [[| a s] |]; try discriminate.
  destruct (timespan e) as [d |]; try discriminate.
  intros H. injection H as <-. exists (String a s), d.
  repeat split; discriminate.
Qed.

Lemma split_spaceless (s : string) :
  spaceless s = true -> split " " s = [s].
Proof.
  induction s as [| c s IH]; [reflexivity |].
  simpl. intros H. apply andb_prop in H as [Hc Hs].
  destruct (Ascii.eqb c " "); [discriminate |].
  now rewrite (IH Hs).
Qed.

Lemma words : tokens_are_words externals.
Proof.
  intros p k e t tok H. apply signed in H as (s & d & _ & _ & _ & ->).
  split; [apply write_token_not_empty |].
  apply split_spaceless, spaceless_token.
Qed.

Lemma other_secret : rejects_other_secret externals.
Proof.
  intros p k e t tok k' now H Hk.
  apply signed in H as (s & d & Hs & _ & _ & ->). injection Hs as <-.
  cbn. unfold jwt_verify. destruct k' as [[| a k'] |]; eauto.
  rewrite read_write_token. cbn [key].
  destruct (String.eqb k (String a k')) eqn:Heq; cbn; eauto.
  apply String.eqb_eq in Heq. congruence.
Qed.

Lemma expiry : rejects_expired externals.
Proof.
  intros p k e t tok d now H Hd Hle.
  apply signed in H as (s & d' & Hs & Hne & Hd' & ->). injection Hs as <-.
  cbn in Hd. rewrite Hd in Hd'. injection Hd' as <-.
  cbn. unfold jwt_verify. destruct k as [| a k]; [contradiction |].
  rewrite read_write_token. cbn [key content exp].
  rewrite String.eqb_refl. cbn.
  replace (t + d <=? now) with true by (symmetry; apply Z.leb_le; lia).
  eauto.
Qed.

Lemma validity : accepts_valid externals.
Proof.
  intros p k e t tok d now H Hd Hlt.
  apply signed in H as (s & d' & Hs & Hne & Hd' & ->). injection Hs as <-.
  cbn in Hd. rewrite Hd in Hd'. injection Hd' as <-.
  cbn. unfold jwt_verify. destruct k as [| a k]; [contradiction |].
  rewrite read_write_token. cbn [key content exp].
  rewrite String.eqb_refl. cbn.
  replace (t + d <=? now) with false by (symmetry; apply Z.leb_gt; lia).
  reflexivity.
Qed.

End ReferenceFacts.

(** ** C4: tokens the bearer step refuses *)

Lemma split_bearer (tok : string) :
  split " " ("Bearer " ++ tok) = "Bearer" :: split " " tok.
Proof. reflexivity. Qed.

(** A header [Bearer tok] whose token does not verify under the access
    secret is answered 403 by [authenticate]. *)
Lemma authenticate_refuses (E : Externals) (c : context) (req : request)
    (tok : string) (err : Pg.error) :
  authorization req = Some ("Bearer " ++ tok)%string ->
  tok <> EmptyString ->
  split " " tok = [tok] ->
  jwt_verify tok (ACCESS_TOKEN_SECRET (environment c)) (clock c / 1000)
  = Pg.Threw err ->
  authenticate c req
  = Respond (respond 403 (error_body "Invalid or expired token")).
Proof.
  intros Hh Hne Hw Hv. unfold authenticate. rewrite Hh.
  cbn [append]. cbn [String.prefix Ascii.eqb Bool.eqb negb andb].
  change (String "B" (String "e" (String "a" (String "r" (String "e"
            (String "r" (String " " tok)))))))
    with ("Bearer " ++ tok)%string.
  rewrite split_bearer, Hw. cbn [nth_error].
  destruct tok as [| a tok]; [contradiction |].
  now rewrite Hv.
Qed.

(** C4. Provided the access secret and the refresh secret differ: a request
    to a bearer-protected route that presents a token signed with the
    refresh secret, or with any secret that is not the access secret, or an
    expired access token, is answered 403 by the bearer step; the handler
    is not entered (the store and its log are as they were). *)
Theorem bearer_step_refuses (E : Externals) (c : context) (ep : endpoint)
    (req : request) (w : Pg.world) (tok : string) :
  rejects_other_secret E -> rejects_expired E -> tokens_are_words E ->
  ACCESS_TOKEN_SECRET (environment c) <> REFRESH_TOKEN_SECRET (environment c) ->
  bearer_protected ep = true ->
  authorization req = Some ("Bearer " ++ tok)%string ->
  unacceptable c tok ->
  authenticate c req
  = Respond (respond 403 (error_body "Invalid or expired token"))
  /\ route ep c req w
     = (respond 403 (error_body "Invalid or expired token"), w).
Proof.
  intros Hother Hexp Hwords Hdiff Hep Hh Hbad.
  assert (Hauth : authenticate c req
                  = Respond (respond 403 (error_body "Invalid or expired token"))).
  { destruct Hbad as [p r e t Hr Hs | p k e t Hk Hs | p k e t d Hk Hs Hd Ht].
    - destruct (Hwords _ _ _ _ _ Hs) as [Hne Hw].
      destruct (Hother p r e t tok (ACCESS_TOKEN_SECRET (environment c))
                  (clock c / 1000) Hs) as [err Herr]; [congruence |].
      eapply authenticate_refuses; eauto.
    - destruct (Hwords _ _ _ _ _ Hs) as [Hne Hw].
      destruct (Hother p k e t tok (ACCESS_TOKEN_SECRET (environment c))
                  (clock c / 1000) Hs Hk) as [err Herr].
      eapply authenticate_refuses; eauto.
    - destruct (Hwords _ _ _ _ _ Hs) as [Hne Hw].
      destruct (Hexp p k e t tok d (clock c / 1000) Hs Hd Ht) as [err Herr].
      rewrite <- Hk in Herr.
      eapply authenticate_refuses; eauto. }
  split; [exact Hauth |].
  destruct ep; try discriminate Hep; unfold route, guarded;
    rewrite Hauth; reflexivity.
Qed.

Lemma bearer_step_refuses_witness :
  let E := Reference.externals in
  let req := Sample.presenting Sample.refresh_token in
  authenticate Sample.context req
  = Respond (respond 403 (error_body "Invalid or expired token"))
  /\ route DeleteMe Sample.context req Sample.start
     = (respond 403 (error_body "Invalid or expired token"), Sample.start).
Proof.
  intros E req.
  apply (bearer_step_refuses E Sample.context DeleteMe req Sample.start
           Sample.refresh_token ReferenceFacts.other_secret
           ReferenceFacts.expiry ReferenceFacts.words).
  - discriminate.
  - reflexivity.
  - reflexivity.
  - eapply (signed_for_refresh Sample.context Sample.refresh_token
              {| payload_id := Some 1;
                 payload_email := Some "ann@example.com" |}
              "refresh-secret" "7d" 1000); reflexivity.
Defined.

(** X1. A token signed with the access secret and not yet expired passes the
    bearer step, and its claims go to the handler. *)
Lemma authenticate_accepts (E : Externals) (c : context) (req : request)
    (p : payload) (k e tok : string) (t d : Z) :
  accepts_valid E -> tokens_are_words E ->
  ACCESS_TOKEN_SECRET (environment c) = Some k ->
  authorization req = Some ("Bearer " ++ tok)%string ->
  jwt_sign p (Some k) e t = Pg.Ok tok ->
  timespan e = Some d ->
  clock c / 1000 < t + d ->
  authenticate c req
  = Next {| claims_id := payload_id p; claims_email := payload_email p;
            iat := t; exp := t + d |}.
Proof.
  intros Hvalid Hwords Hk Hh Hs Hd Hlt.
  destruct (Hwords _ _ _ _ _ Hs) as [Hne Hw].
  unfold authenticate. rewrite Hh.
  cbn [append]. cbn [String.prefix Ascii.eqb Bool.eqb negb andb].
  change (String "B" (String "e" (String "a" (String "r" (String "e"
            (String "r" (String " " tok)))))))
    with ("Bearer " ++ tok)%string.
  rewrite split_bearer, Hw. cbn [nth_error].
  destruct tok as [| a tok]; [contradiction |].
  rewrite Hk. now rewrite (Hvalid p k e t _ d (clock c / 1000) Hs Hd Hlt).
Qed.

(** ** C5: the outcomes of a login *)

Lemma failing_nil (ok : bool) (path : string) (v : option string)
    (msg : string) :
  failing ok path v msg = [] -> ok = true.
Proof. destruct ok; [reflexivity | discriminate]. Qed.

(** C5 (as amended). A login request that passes the validation rules (a
    well-formed email and a password that is not empty), the token secrets
    and life times being configured: when the email, trimmed and
    normalised, is that of a registered user and the password matches the
    stored hash, the answer is a 200 whose data hold the user, an access
    token and a refresh token, both signed for that user; for any other
    password and for an email that is not registered, the answer is the 401
    envelope "Invalid email or password". *)
Theorem login_outcome (E : Externals) (c : context) (req : request)
    (w : Pg.world) :
  signs_when_configured E ->
  configured c ->
  login_errors (req_body req) = [] ->
  let email := normalizeEmail (JS.trim (text (body_email (req_body req)))) in
  let pw := text (body_password (req_body req)) in
  let r := fst (route PostLogin c req w) in
  match find (Knex.has_user_email email) (Pg.users (Pg.store w)) with
  | Some u =>
      if bcrypt_compare pw (Pg.password u)
      then
        let p := {| payload_id := Some (Pg.user_id u);
                    payload_email := Some (Pg.user_email u) |} in
        exists accessToken refreshToken,
          jwt_sign p (ACCESS_TOKEN_SECRET (environment c)) (access_expiry c)
                   (clock c / 1000) = Pg.Ok accessToken
          /\ jwt_sign p (REFRESH_TOKEN_SECRET (environment c))
                      (refresh_expiry c) (clock c / 1000)
             = Pg.Ok refreshToken
          /\ status r = 200
          /\ JS.get "statusCode" (json r) = Some (num 200)
          /\ JS.get "data" (json r)
             = Some (JS.VObj
                       [ ("user", JS.VObj
                            [ ("id", num (Pg.user_id u));
                              ("username", str (Pg.username u));
                              ("email", str (Pg.user_email u)) ]);
                         ("accessToken", str accessToken);
                         ("refreshToken", str refreshToken) ])
      else r = failure 401 "Invalid email or password"
  | None => r = failure 401 "Invalid email or password"
  end.
Proof.
  intros Hsign (Ha & Hr & Hea & Her) Hok email pw r.
  destruct Ha as (ka & Hka & Hkane), Hr as (kr & Hkr & Hkrne).
  destruct Hea as (da & Hda), Her as (dr & Hdr).
  assert (Hpw : exists s, body_password (req_body req) = Some s).
  { unfold login_errors in Hok. apply app_eq_nil in Hok as [_ Hok].
    apply failing_nil in Hok. destruct (body_password (req_body req)); eauto.
    discriminate. }
  destruct Hpw as (s & Hs).
  subst r. unfold route, guarded, validate. rewrite Hok.
  unfold login, Pg.try_catch, defined, Knex.binding.
  cbn [login_sanitized email_sanitized set_email body_email body_password].
  fold email. rewrite Hs.
  unfold Knex.users_where_email_first, Pg.bind, Pg.sent, Pg.read, Pg.ret.
  cbn [Pg.store].
  destruct (find (Knex.has_user_email email) (Pg.users (Pg.store w)))
    as [u |]; [| reflexivity].
  subst pw. rewrite Hs. cbn [text].
  destruct (bcrypt_compare s (Pg.password u)); [| reflexivity].
  cbn [negb]. unfold sign, Pg.lift. rewrite Hka, Hkr.
  destruct (Hsign {| payload_id := Some (Pg.user_id u);
                     payload_email := Some (Pg.user_email u) |}
              ka (access_expiry c) (clock c / 1000) da Hkane Hda) as (a & Hsa).
  destruct (Hsign {| payload_id := Some (Pg.user_id u);
                     payload_email := Some (Pg.user_email u) |}
              kr (refresh_expiry c) (clock c / 1000) dr Hkrne Hdr) as (t & Hst).
  rewrite Hsa, Hst. exists a, t.
  split; [reflexivity |]. split; [reflexivity |]. split; [reflexivity |].
  split; read_field; reflexivity.
Qed.

Lemma login_outcome_witness :
  let E := Reference.externals in
  let req := Sample.signing_up "ann@example.com" "secret1" in
  let r := fst (route PostLogin Sample.context req Sample.registered) in
  let p := {| payload_id := Some 1;
              payload_email := Some "ann@example.com" |} in
  exists accessToken refreshToken,
    jwt_sign p (Some "access-secret") "1h" 1000 = Pg.Ok accessToken
    /\ jwt_sign p (Some "refresh-secret") "7d" 1000 = Pg.Ok refreshToken
    /\ status r = 200
    /\ JS.get "statusCode" (json r) = Some (num 200)
    /\ JS.get "data" (json r)
       = Some (JS.VObj
                 [ ("user", JS.VObj [ ("id", num 1); ("username", str "ann");
                                      ("email", str "ann@example.com") ]);
                   ("accessToken", str accessToken);
                   ("refreshToken", str refreshToken) ]).
Proof.
  intros E req r p.
  refine (login_outcome E Sample.context req Sample.registered
            ReferenceFacts.signs _ _).
  - repeat split; eexists; first [ split; [reflexivity | discriminate]
                                 | reflexivity ].
  - reflexivity.
Defined.

(** C5, as stated, fails for the empty password: it is another password
    than Ann's, and the answer is the 400 of the validation rules, not a
    401. *)
Lemma login_empty_password :
  let E := Reference.externals in
  let req := Sample.signing_up "ann@example.com" EmptyString in
  let r := fst (route PostLogin Sample.context req Sample.registered) in
  find (Knex.has_user_email "ann@example.com")
       (Pg.users (Pg.store Sample.registered)) <> None
  /\ bcrypt_compare EmptyString (Reference.bcrypt_hash "secret1" 10 "salt") = false
  /\ status r = 400
  /\ status r <> 401
  /\ r <> failure 401 "Invalid email or password".
Proof.
  vm_compute. repeat split; discriminate.
Qed.

(** ** C6: a batch delete without ids *)



(** ** C7: deleting a user that is not stored *)

(** C7. A delete-user request whose authenticated user id matches no stored
    user is answered with the 404 envelope "User not found"; the store is as
    it was, and the one statement sent to it is the [SELECT] of the
    lookup. *)
Theorem delete_missing_user (E : Externals) (c : context) (req : request)
    (w : Pg.world) (user : claims) (i : Z) :
  authenticate c req = Next user ->
  claims_id user = Some i ->
  (forall u, In u (Pg.users (Pg.store w)) -> Pg.user_id u <> i) ->
  fst (route DeleteMe c req w) = failure 404 "User not found"
  /\ status (fst (route DeleteMe c req w)) = 404
  /\ Pg.store (snd (route DeleteMe c req w)) = Pg.store w
  /\ Pg.log (snd (route DeleteMe c req w))
     = Pg.log w ++ [(Pg.Users, Pg.Select)].
Proof.
  intros Hauth Hid Hnone.
  assert (Hfind : find (Knex.has_user_id i) (Pg.users (Pg.store w)) = None).
  { destruct (find (Knex.has_user_id i) (Pg.users (Pg.store w))) as [u |] eqn:Hf;
      [| reflexivity].
    apply find_some in Hf as [Hin Hu]. unfold Knex.has_user_id in Hu.
    apply Z.eqb_eq in Hu. now apply Hnone in Hin. }
  unfold route, guarded. rewrite Hauth.
  unfold delete_me, Pg.try_catch, Knex.users_where_id_first, Knex.binding.
  rewrite Hid.
  unfold Pg.bind, Pg.sent, Pg.read, Pg.ret. cbn [Pg.store].
  rewrite Hfind. repeat split; reflexivity.
Qed.

Lemma delete_missing_user_witness :
  let E := Reference.externals in
  let req := Sample.presenting Sample.stranger_token in
  let w := Sample.registered in
  fst (route DeleteMe Sample.context req w) = failure 404 "User not found"
  /\ status (fst (route DeleteMe Sample.context req w)) = 404
  /\ Pg.store (snd (route DeleteMe Sample.context req w)) = Pg.store w
  /\ Pg.log (snd (route DeleteMe Sample.context req w))
     = Pg.log w ++ [(Pg.Users, Pg.Select)].
Proof.
  intros E req w.
  apply (delete_missing_user E Sample.context req w
           {| claims_id := Some 9; claims_email := Some "eve@example.com";
              iat := 1000; exp := 4600 |} 9).
  - reflexivity.
  - reflexivity.
  - intros u [<- | []]. discriminate.
Defined.

(** ** C8: the password in responses *)

(** The columns the user routes return leave the password out. *)
Lemma public_columns_hide_password (u : Pg.user) :
  JS.get "password" (JS.pick public_columns (Knex.user_row u)) = None.
Proof. reflexivity. Qed.

Lemma unnamed_set (k k' : string) (v : JS.value) (o : JS.object) :
  unnamed k o -> (k' =? k)%string = false -> names_key k v = false ->
  unnamed k (JS.set k' v o).
Proof.
  unfold unnamed. intros Ho Hk Hv.
  induction o as [| [k0 v0] o IH]; simpl in *.
  - now rewrite Hk, Hv.
  - apply orb_false_elim in Ho as [H1 H2].
    destruct (String.eqb k' k0); simpl.
    + now rewrite Hk, Hv, H2.
    + now rewrite H1, IH.
Qed.

Lemma unnamed_spread (k : string) (fields : list (string * JS.value))
    (o : JS.object) :
  unnamed k o -> unnamed k fields -> unnamed k (JS.spread o fields).
Proof.
  unfold JS.spread. revert o.
  induction fields as [| [k' v] fields IH]; simpl; intros o Ho Hf;
    [exact Ho |].
  unfold unnamed in Hf. simpl in Hf. apply orb_false_elim in Hf as [H1 H2].
  apply orb_false_elim in H1 as [H1 H3].
  apply IH; [| exact H2]. now apply unnamed_set.
Qed.

(** No answer has a property named [password]: the handlers build their
    data from column lists without it, and the entries of a validation
    failure name the field under [path]. *)
Section Discretion.
Context {E : Externals}.
Hypothesis format : unnamed "password" responseFormat.

Lemma author_rows_discreet (authors : list Pg.author) :
  existsb (names_key "password")
    (map (fun a => JS.VObj (Knex.author_row a)) authors) = false.
Proof.
  induction authors as [| a l IH]; [reflexivity |].
  simpl in *. rewrite IH. destruct (Pg.bio a); reflexivity.
Qed.

Lemma envelope_discreet (code : Z) (fields : list (string * JS.value)) :
  unnamed "password" fields -> discreet (envelope code fields).
Proof. intros H. now apply unnamed_spread. Qed.

Ltac quiet :=
  match goal with
  | |- yields _ (Pg.ret _) => apply yields_ret
  | |- yields _ (Pg.throw _) => apply yields_throw
  | |- yields _ (Pg.bind _ _) => apply yields_bind; intros ?
  | |- yields _ (match ?x with _ => _ end) => destruct x
  | |- discreet (failure _ _) => apply envelope_discreet; reflexivity
  | |- discreet (failure_with _ _ _) => apply envelope_discreet; reflexivity
  | |- discreet (envelope _ _) =>
      apply envelope_discreet; unfold unnamed, first_row;
      cbn [names_key existsb fst snd]; rewrite ?author_rows_discreet;
      unfold Knex.author_row;
      repeat match goal with
             | |- context [match ?x with [] => _ | _ :: _ => _ end] =>
                 destruct x
             | |- context [Pg.bio ?a] => destruct (Pg.bio a)
             end;
      reflexivity
  end.

Tactic Notation "handler" reference(h) :=
  unfold h, defined, Knex.binding, sign;
  first [ apply (caught discreet); [repeat quiet | intros ?; quiet]
        | repeat quiet ].


















End Discretion.

(** C8 (the code returns a password). A registration whose password is
    shorter than six characters is refused by the validation rules, and the
    400 it answers lists, under the path [password], the value the rule
    saw: the password of the request, in the clear. *)
Theorem rejected_password_is_echoed (E : Externals) (c : context)
    (req : request) (w : Pg.world) (pw : string) :
  body_password (req_body req) = Some pw ->
  (String.length pw < 6)%nat ->
  exists errors,
    route PostRegister c req w
    = (respond 400 [ ("status", str "error");
                     ("message", str "Validation failed");
                     ("errors", JS.VArr errors) ], w)
    /\ In (JS.VObj [ ("type", str "field"); ("value", str pw);
                     ("msg", str "Password must be at least 6 characters long");
                     ("path", str "password"); ("location", str "body") ])
          errors.
Proof.
  intros Hpw Hlen.
  exists (register_errors (req_body req)).
  assert (Hin : In (field_error "password" (Some pw)
                      "Password must be at least 6 characters long")
                   (register_errors (req_body req))).
  { unfold register_errors. rewrite Hpw. cbn [text].
    apply in_or_app. right. apply in_or_app. right. apply in_or_app. right.
    unfold isLength. cbn [andb].
    replace (6 <=? Z.of_nat (String.length pw)) with false
      by (symmetry; apply Z.leb_gt; lia).
    left. reflexivity. }
  split; [| exact Hin].
  unfold route, guarded, validate.
  destruct (register_errors (req_body req)) as [| e es]; [destruct Hin |].
  reflexivity.
Qed.

Lemma rejected_password_is_echoed_witness :
  let E := Reference.externals in
  let req := Sample.signing_up "ann@example.com" "abc12" in
  exists errors,
    route PostRegister Sample.context req Sample.start
    = (respond 400 [ ("status", str "error");
                     ("message", str "Validation failed");
                     ("errors", JS.VArr errors) ], Sample.start)
    /\ In (JS.VObj [ ("type", str "field"); ("value", str "abc12");
                     ("msg", str "Password must be at least 6 characters long");
                     ("path", str "password"); ("location", str "body") ])
          errors.
Proof.
  intros E req.
  apply (rejected_password_is_echoed E Sample.context req Sample.start
           "abc12").
  - reflexivity.
  - cbn. lia.
Defined.

(** The same registration, evaluated: the one entry of [errors] carries the
    password. *)
Example register_short_password :
  let E := Reference.externals in
  let req := Sample.signing_up "ann@example.com" "abc12" in
  route PostRegister Sample.context req Sample.start
  = (respond 400
       [ ("status", str "error"); ("message", str "Validation failed");
         ("errors", JS.VArr
            [ JS.VObj
                [ ("type", str "field"); ("value", str "abc12");
                  ("msg", str "Password must be at least 6 characters long");
                  ("path", str "password"); ("location", str "body") ] ]) ],
     Sample.start)
  /\ holds_text "abc12"
       (JS.VObj (json (fst (route PostRegister Sample.context req
                              Sample.start)))) = true.
Proof. split; reflexivity. Qed.

(** ** C9: a limit of zero *)

(** C9. An authenticated list request with [limit=0] is answered 200 with
    [pages] computed as [ceil(total / 0)]: the division is not guarded, and
    the value is not a finite number (NaN over an empty result, Infinity
    otherwise; either is written as [null] when the body is serialised). *)
Theorem list_authors_limit_zero (E : Externals) (c : context)
    (req : request) (w : Pg.world) (user : claims) :
  authenticate c req = Next user ->
  lookup "limit" (query req) = Some "0" ->
  let found := filter (Knex.matching (param "search" EmptyString req))
                      (Pg.authors (Pg.store w)) in
  let n := Z.of_nat (List.length found) in
  let r := fst (route GetAuthors c req w) in
  let pages := JS.ceil (JS.div (JS.of_Z n) (JS.of_Z 0)) in
  status r = 200
  /\ JS.get "pagination" (json r)
     = Some (JS.VObj [ ("total", num n);
                       ("page", JS.VNum (JS.Number (param "page" "1" req)));
                       ("limit", num 0); ("pages", JS.VNum pages) ])
  /\ JS.isFinite pages = false
  /\ pages = (if n =? 0 then JS.NaN else JS.PInf).
Proof.
  intros Hauth Hl found n r pages.
  assert (Hpages : pages = (if n =? 0 then JS.NaN else JS.PInf)).
  { subst pages. unfold JS.div, JS.of_Z, JS.is_negative, JS.is_zero.
    change (Qnum (inject_Z n)) with n. change (Qnum (inject_Z 0)) with 0.
    replace (n <? 0) with false by (symmetry; apply Z.ltb_ge; lia).
    cbn. destruct (n =? 0); reflexivity. }
  assert (Hoff : Knex.is_negative
                   (option_mul (option_sub (JS.parseInt (param "page" "1" req)) 1)
                               (Some 0)) = false).
  { destruct (JS.parseInt (param "page" "1" req)) as [x |]; cbn;
      [rewrite Z.mul_0_r |]; reflexivity. }
  subst r. unfold route, guarded. rewrite Hauth.
  unfold list_authors, Pg.try_catch.
  replace (param "limit" (or_default (PER_PAGE (environment c)) "10") req)
    with "0" by (unfold param; now rewrite Hl).
  change (JS.parseInt "0") with (Some 0).
  change (JS.Number "0") with (JS.of_Z 0).
  unfold Knex.authors_count, Knex.authors_page. rewrite Hoff.
  unfold Pg.bind, Pg.sent, Pg.read, Pg.ret. cbn iota beta.
  cbn [Knex.is_negative Z.ltb Z.compare fst snd Pg.store].
  fold found. fold n. fold pages.
  split; [reflexivity |].
  split; [read_field; reflexivity |].
  split; [| exact Hpages].
  rewrite Hpages. destruct (n =? 0); reflexivity.
Qed.

Lemma list_authors_limit_zero_witness :
  let E := Reference.externals in
  let req := Sample.listing [("page", "3"); ("limit", "0")] in
  let r := fst (route GetAuthors Sample.context req (Sample.library 25)) in
  let pages := JS.ceil (JS.div (JS.of_Z 25) (JS.of_Z 0)) in
  status r = 200
  /\ JS.get "pagination" (json r)
     = Some (JS.VObj [ ("total", num 25); ("page", num 3);
                       ("limit", num 0); ("pages", JS.VNum pages) ])
  /\ JS.isFinite pages = false
  /\ pages = JS.PInf.
Proof.
  intros E req r pages.
  apply (list_authors_limit_zero E Sample.context req (Sample.library 25)
           {| claims_id := Some 1; claims_email := Some "ann@example.com";
              iat := 1000; exp := 4600 |}); reflexivity.
Defined.

(** ** C10: the claims of the two kinds of access token *)





(** With the reference libraries: what the bearer step reads from the access
    token of a login, and from the one a refresh exchange gives for the
    refresh token of the same login. *)
Example claims_of_both_tokens :
  let E := Reference.externals in
  let minted :=
    fst (route PostRefreshToken Sample.context
           (Sample.refreshing Sample.refresh_token) Sample.registered) in
  exists tok,
    JS.get "data" (json minted) = Some (JS.VObj [("accessToken", str tok)])
    /\ authenticate Sample.context (Sample.presenting Sample.access_token)
       = Next {| claims_id := Some 1;
                 claims_email := Some "ann@example.com";
                 iat := 1000; exp := 4600 |}
    /\ authenticate Sample.context (Sample.presenting tok)
       = Next {| claims_id := Some 1; claims_email := None;
                 iat := 1000; exp := 4600 |}.
Proof. eexists. repeat split; reflexivity. Qed.

(* ================================================================== *)
(** * Further properties of the routes *)

(** ** middleware/auth.js *)

Lemma authenticate_accepts_witness :
  authenticate (E := Reference.externals) Sample.context
    (Sample.presenting Sample.access_token)
  = Next {| claims_id := Some 1; claims_email := Some "ann@example.com";
            iat := 1000; exp := 1000 + 3600 |}.
Proof.
  apply (authenticate_accepts Reference.externals Sample.context
           (Sample.presenting Sample.access_token)
           {| payload_id := Some 1; payload_email := Some "ann@example.com" |}
           "access-secret" "1h" Sample.access_token 1000 3600
           ReferenceFacts.validity ReferenceFacts.words);
    first [ reflexivity | cbn; lia ].
Defined.

Lemma split_word (tok rest : string) :
  spaceless tok = true ->
  split " " (tok ++ String " " rest) = tok :: split " " rest.
Proof.
  induction tok as [| c tok IH]; [reflexivity |].
  simpl. intros H. apply andb_prop in H as [Hc Hs].
  destruct (Ascii.eqb c " "); [discriminate |].
  now rewrite (IH Hs).
Qed.

(** What [authenticate] does with a header that starts with [Bearer ]. *)
Lemma authenticate_bearer (E : Externals) (c : context) (req : request)
    (x : string) :
  authorization req = Some ("Bearer " ++ x)%string ->
  authenticate c req
  = match split " " x with
    | [] | EmptyString :: _ =>
        Respond (respond 401 (error_body "Access token not provided"))
    | token :: _ =>
        match jwt_verify token (ACCESS_TOKEN_SECRET (environment c))
                         (clock c / 1000) with
        | Pg.Threw _ =>
            Respond (respond 403 (error_body "Invalid or expired token"))
        | Pg.Ok user => Next user
        end
    end.
Proof.
  intros H. unfold authenticate. rewrite H.
  assert (Hp : String.prefix "Bearer " ("Bearer " ++ x) = true)
    by (destruct x; reflexivity).
  cbn [append] in *. rewrite Hp. cbn [negb].
  change (String "B" (String "e" (String "a" (String "r" (String "e"
            (String "r" (String " " x)))))))
    with ("Bearer " ++ x)%string.
  rewrite split_bearer. cbn [nth_error].
  destruct (split " " x) as [| [| a t] l]; reflexivity.
Qed.

(** X2. The bearer step reads the second word of the header and nothing else:
    text after the token is ignored, and a token that follows two spaces is
    never read. *)
Theorem authenticate_reads_second_word (E : Externals) (c : context)
    (req req' req'' : request) (tok rest : string) :
  spaceless tok = true ->
  authorization req = Some ("Bearer " ++ tok)%string ->
  authorization req' = Some ("Bearer " ++ tok ++ String " " rest)%string ->
  authorization req'' = Some ("Bearer " ++ String " " tok)%string ->
  authenticate c req' = authenticate c req
  /\ authenticate c req''
     = Respond (respond 401 (error_body "Access token not provided")).
Proof.
  intros Hs H H' H''.
  rewrite (authenticate_bearer E c req _ H), (authenticate_bearer E c req' _ H'),
    (authenticate_bearer E c req'' _ H'').
  rewrite split_word, ReferenceFacts.split_spaceless by exact Hs.
  split; reflexivity.
Qed.

Lemma authenticate_reads_second_word_witness :
  let E := Reference.externals in
  let header h :=
    {| authorization := Some h; query := []; params_id := EmptyString;
       req_body := Sample.no_body |} in
  authenticate Sample.context
    (header ("Bearer " ++ Sample.access_token ++ String " " "and more")%string)
  = authenticate Sample.context
      (header ("Bearer " ++ Sample.access_token)%string)
  /\ authenticate Sample.context
       (header ("Bearer " ++ String " " Sample.access_token)%string)
     = Respond (respond 401 (error_body "Access token not provided")).
Proof.
  intros E header.
  apply (authenticate_reads_second_word E Sample.context _ _ _
           Sample.access_token "and more"); reflexivity.
Defined.

(** ** routes/auth.js: registration *)

Lemma find_none_existsb {A} (f : A -> bool) (l : list A) :
  find f l = None -> existsb f l = false.
Proof.
  induction l as [| a l IH]; simpl; [reflexivity |].
  destruct (f a); [discriminate | exact IH].
Qed.

Lemma find_append {A} (f : A -> bool) (l l' : list A) :
  find f (l ++ l') = match find f l with
                     | Some a => Some a
                     | None => find f l'
                     end.
Proof.
  induction l as [| a l IH]; simpl; [reflexivity |].
  destruct (f a); [reflexivity | exact IH].
Qed.

(** The rules of the registration, as conditions on the body. *)
Lemma register_errors_nil (E : Externals) (b : body) :
  register_errors b = []
  <-> (3 <= String.length (JS.trim (text (body_username b))) <= 30)%nat
      /\ isEmail (JS.trim (text (body_email b))) = true
      /\ (6 <= String.length (text (body_password b)))%nat.
Proof.
  unfold register_errors, email_errors, failing, notEmpty, isLength.
  set (u := JS.trim (text (body_username b))).
  set (e := JS.trim (text (body_email b))).
  set (pw := text (body_password b)).
  split.
  - intros H.
    destruct (negb (u =? EmptyString)%string); [| discriminate H].
    destruct ((3 <=? Z.of_nat (String.length u))
              && (Z.of_nat (String.length u) <=? 30)) eqn:Hu;
      [| discriminate H].
    destruct (isEmail e); [| discriminate H].
    destruct ((6 <=? Z.of_nat (String.length pw)) && true) eqn:Hp;
      [| discriminate H].
    apply andb_prop in Hu as [H1 H2]. apply andb_prop in Hp as [H3 _].
    apply Z.leb_le in H1, H2, H3. repeat split; lia.
  - intros ((H1 & H2) & He & H3).
    assert (Hne : negb (u =? EmptyString)%string = true).
    { destruct u; [simpl in H1; lia | reflexivity]. }
    rewrite Hne, He.
    replace (3 <=? Z.of_nat (String.length u)) with true
      by (symmetry; apply Z.leb_le; lia).
    replace (Z.of_nat (String.length u) <=? 30) with true
      by (symmetry; apply Z.leb_le; lia).
    replace (6 <=? Z.of_nat (String.length pw)) with true
      by (symmetry; apply Z.leb_le; lia).
    reflexivity.
Qed.

Lemma register_errors_password (E : Externals) (b : body) :
  register_errors b = [] ->
  exists pw, body_password b = Some pw /\ pw <> EmptyString.
Proof.
  intros H. apply register_errors_nil in H as (_ & _ & H).
  destruct (body_password b) as [pw |]; [| simpl in H; lia].
  exists pw. split; [reflexivity |]. intros ->. simpl in H. lia.
Qed.

(** What the registration route does for a body that passes the rules, by
    whether the email is stored. *)
Lemma register_step (E : Externals) (c : context) (req : request)
    (w : Pg.world) :
  register_errors (req_body req) = [] ->
  let b := req_body req in
  let email := normalizeEmail (JS.trim (text (body_email b))) in
  route PostRegister c req w
  = match find (Knex.has_user_email email) (Pg.users (Pg.store w)) with
    | Some _ =>
        (failure 409 "User already exists",
         {| Pg.store := Pg.store w;
            Pg.log := Pg.log w ++ [(Pg.Users, Pg.Select)] |})
    | None =>
        let u := registered_user c b (Pg.store w) in
        (envelope 201
           [ ("message", str "User registered successfully");
             ("data", JS.VObj (JS.pick public_columns (Knex.user_row u)));
             ("statusCode", num 201) ],
         {| Pg.store :=
              {| Pg.users := Pg.users (Pg.store w) ++ [u];
                 Pg.users_id_seq := Pg.users_id_seq (Pg.store w) + 1;
                 Pg.authors := Pg.authors (Pg.store w);
                 Pg.authors_id_seq := Pg.authors_id_seq (Pg.store w);
                 Pg.books := Pg.books (Pg.store w) |};
            Pg.log := (Pg.log w ++ [(Pg.Users, Pg.Select)])
                      ++ [(Pg.Users, Pg.Insert)] |})
    end.
Proof.
  intros Hok b email. subst b.
  destruct (register_errors_password E _ Hok) as (pw & Hpw & _).
  unfold route, guarded, validate. rewrite Hok.
  unfold register, Pg.try_catch, defined, Knex.binding.
  cbn [register_sanitized email_sanitized set_email set_username
       body_email body_password body_username].
  fold email. rewrite Hpw.
  unfold Knex.users_where_email_first, Pg.bind, Pg.sent, Pg.read, Pg.ret.
  cbn [Pg.store Pg.log].
  destruct (find (Knex.has_user_email email) (Pg.users (Pg.store w)))
    as [u |] eqn:Hfind; [reflexivity |].
  unfold Knex.users_insert, Pg.bind, Pg.sent, Pg.read, Pg.write, Pg.ret,
    Pg.throw.
  cbn [Pg.store Pg.log Pg.users Pg.users_id_seq Pg.authors Pg.authors_id_seq
       Pg.books].
  rewrite (find_none_existsb _ _ Hfind).
  unfold registered_user. rewrite Hpw. reflexivity.
Qed.

(** X4. A registration that passes the rules, with an email that is not stored,
    is answered 201 with the new user's id, username, email and dates; the
    store gains one user row, under the next id of the sequence, with the
    username trimmed, the email normalised and the password hashed; nothing
    else changes. *)
Theorem register_creates_user (E : Externals) (c : context) (req : request)
    (w : Pg.world) :
  register_errors (req_body req) = [] ->
  find (Knex.has_user_email
          (normalizeEmail (JS.trim (text (body_email (req_body req))))))
       (Pg.users (Pg.store w)) = None ->
  let u := registered_user c (req_body req) (Pg.store w) in
  let r := fst (route PostRegister c req w) in
  let d := Pg.store (snd (route PostRegister c req w)) in
  status r = 201
  /\ JS.get "data" (json r)
     = Some (JS.VObj [ ("id", num (Pg.user_id u));
                       ("username", str (Pg.username u));
                       ("email", str (Pg.user_email u));
                       ("created_at", JS.VDate (clock c));
                       ("updated_at", JS.VDate (clock c)) ])
  /\ Pg.users d = Pg.users (Pg.store w) ++ [u]
  /\ Pg.users_id_seq d = Pg.users_id_seq (Pg.store w) + 1
  /\ Pg.authors d = Pg.authors (Pg.store w)
  /\ Pg.books d = Pg.books (Pg.store w).
Proof.
  intros Hok Hfind u r d. subst r d.
  rewrite (register_step E c req w Hok). cbv zeta. rewrite Hfind.
  split; [reflexivity |]. split; [read_field; reflexivity |].
  repeat split; reflexivity.
Qed.

Lemma register_creates_user_witness :
  let E := Reference.externals in
  let req := Sample.signing_up " Ann@Example.com " "secret1" in
  let u := {| Pg.user_id := 1; Pg.username := "ann";
              Pg.user_email := "ann@example.com";
              Pg.password := Reference.bcrypt_hash "secret1" 10 "salt";
              Pg.user_created_at := 1000000;
              Pg.user_updated_at := 1000000 |} in
  let r := fst (route PostRegister Sample.context req Sample.start) in
  let d := Pg.store (snd (route PostRegister Sample.context req Sample.start)) in
  status r = 201
  /\ JS.get "data" (json r)
     = Some (JS.VObj [ ("id", num 1); ("username", str "ann");
                       ("email", str "ann@example.com");
                       ("created_at", JS.VDate 1000000);
                       ("updated_at", JS.VDate 1000000) ])
  /\ Pg.users d = [] ++ [u]
  /\ Pg.users_id_seq d = 1 + 1
  /\ Pg.authors d = []
  /\ Pg.books d = [].
Proof.
  intros E req u r d.
  apply (register_creates_user E Sample.context req Sample.start);
    reflexivity.
Defined.

(** X5. A registration whose email is stored is answered 409 "User already
    exists"; the store is as it was and the lookup is the one statement
    sent. *)
Theorem register_taken_email (E : Externals) (c : context) (req : request)
    (w : Pg.world) (u : Pg.user) :
  register_errors (req_body req) = [] ->
  find (Knex.has_user_email
          (normalizeEmail (JS.trim (text (body_email (req_body req))))))
       (Pg.users (Pg.store w)) = Some u ->
  fst (route PostRegister c req w) = failure 409 "User already exists"
  /\ Pg.store (snd (route PostRegister c req w)) = Pg.store w
  /\ Pg.log (snd (route PostRegister c req w))
     = Pg.log w ++ [(Pg.Users, Pg.Select)].
Proof.
  intros Hok Hfind.
  rewrite (register_step E c req w Hok). cbv zeta. rewrite Hfind.
  repeat split; reflexivity.
Qed.

Lemma register_taken_email_witness :
  let E := Reference.externals in
  let req := Sample.signing_up "ANN@example.com" "another1" in
  fst (route PostRegister Sample.context req Sample.registered)
  = failure 409 "User already exists"
  /\ Pg.store (snd (route PostRegister Sample.context req Sample.registered))
     = Pg.store Sample.registered
  /\ Pg.log (snd (route PostRegister Sample.context req Sample.registered))
     = Pg.log Sample.registered ++ [(Pg.Users, Pg.Select)].
Proof.
  intros E req.
  eapply (register_taken_email E Sample.context req Sample.registered);
    reflexivity.
Defined.

(** ** routes/auth.js: login and refresh *)

(** What the login route does for a body that passes the rules. *)
Lemma login_step (E : Externals) (c : context) (req : request)
    (w : Pg.world) (pw : string) :
  login_errors (req_body req) = [] ->
  body_password (req_body req) = Some pw ->
  let email := normalizeEmail (JS.trim (text (body_email (req_body req)))) in
  let w' := {| Pg.store := Pg.store w;
               Pg.log := Pg.log w ++ [(Pg.Users, Pg.Select)] |} in
  route PostLogin c req w
  = (match find (Knex.has_user_email email) (Pg.users (Pg.store w)) with
     | None => failure 401 "Invalid email or password"
     | Some user =>
         if bcrypt_compare pw (Pg.password user)
         then
           let p := {| payload_id := Some (Pg.user_id user);
                       payload_email := Some (Pg.user_email user) |} in
           match jwt_sign p (ACCESS_TOKEN_SECRET (environment c))
                          (access_expiry c) (clock c / 1000) with
           | Pg.Threw e => failure_with 500 "Login failed" e
           | Pg.Ok accessToken =>
               match jwt_sign p (REFRESH_TOKEN_SECRET (environment c))
                              (refresh_expiry c) (clock c / 1000) with
               | Pg.Threw e => failure_with 500 "Login failed" e
               | Pg.Ok refreshToken =>
                   envelope 200
                     [ ("message", str "Login successful");
                       ("data", JS.VObj
                          [ ("user", JS.VObj
                               [ ("id", num (Pg.user_id user));
                                 ("username", str (Pg.username user));
                                 ("email", str (Pg.user_email user)) ]);
                            ("accessToken", str accessToken);
                            ("refreshToken", str refreshToken) ]);
                       ("statusCode", num 200) ]
               end
           end
         else failure 401 "Invalid email or password"
     end, w').
Proof.
  intros Hok Hpw email w'.
  unfold route, guarded, validate. rewrite Hok.
  unfold login, Pg.try_catch, defined, Knex.binding.
  cbn [login_sanitized email_sanitized set_email body_email body_password].
  fold email. rewrite Hpw.
  unfold Knex.users_where_email_first, Pg.bind, Pg.sent, Pg.read, Pg.ret.
  cbn [Pg.store Pg.log]. fold w'.
  destruct (find (Knex.has_user_email email) (Pg.users (Pg.store w)))
    as [u |]; [| reflexivity].
  destruct (bcrypt_compare pw (Pg.password u)); [| reflexivity].
  cbn [negb]. unfold sign, Pg.lift.
  destruct (jwt_sign _ (ACCESS_TOKEN_SECRET (environment c)) _ _);
    [| reflexivity].
  destruct (jwt_sign _ (REFRESH_TOKEN_SECRET (environment c)) _ _);
    reflexivity.
Qed.

(** X6. Whoever has registered can log in: after a registration that succeeds,
    a login with the same email and password is answered 200 with the new
    user and two tokens (bcrypt accepting a password against its own hash,
    the token secrets and life times being configured). *)
Theorem register_then_login (E : Externals) (c c' : context)
    (req : request) (w : Pg.world) :
  compare_accepts_hash E ->
  signs_when_configured E ->
  configured c' ->
  register_errors (req_body req) = [] ->
  find (Knex.has_user_email
          (normalizeEmail (JS.trim (text (body_email (req_body req))))))
       (Pg.users (Pg.store w)) = None ->
  let u := registered_user c (req_body req) (Pg.store w) in
  let w1 := snd (route PostRegister c req w) in
  let r := fst (route PostLogin c' req w1) in
  status r = 200
  /\ exists accessToken refreshToken,
       JS.get "data" (json r)
       = Some (JS.VObj
                 [ ("user", JS.VObj [ ("id", num (Pg.user_id u));
                                      ("username", str (Pg.username u));
                                      ("email", str (Pg.user_email u)) ]);
                   ("accessToken", str accessToken);
                   ("refreshToken", str refreshToken) ]).
Proof.
  intros Hbcrypt Hsign (Ha & Hr & Hea & Her) Hok Hfind u w1 r.
  destruct Ha as (ka & Hka & Hkane), Hr as (kr & Hkr & Hkrne).
  destruct Hea as (da & Hda), Her as (dr & Hdr).
  destruct (register_errors_password E _ Hok) as (pw & Hpw & Hne).
  assert (Hlogin : login_errors (req_body req) = []).
  { apply register_errors_nil in Hok as (_ & He & _).
    unfold login_errors, email_errors, failing, notEmpty. rewrite He, Hpw.
    cbn [text]. destruct pw; [contradiction | reflexivity]. }
  assert (Hroute : exists a t,
            fst (route PostLogin c' req (snd (route PostRegister c req w)))
            = envelope 200
                [ ("message", str "Login successful");
                  ("data", JS.VObj
                     [ ("user", JS.VObj
                          [ ("id", num (Pg.user_id u));
                            ("username", str (Pg.username u));
                            ("email", str (Pg.user_email u)) ]);
                       ("accessToken", str a);
                       ("refreshToken", str t) ]);
                  ("statusCode", num 200) ]).
  { subst u. rewrite (login_step E c' req _ pw Hlogin Hpw). cbv zeta.
    rewrite (register_step E c req w Hok). cbv zeta. rewrite Hfind.
    cbn [snd Pg.store Pg.users]. rewrite find_append, Hfind.
    cbn [find]. unfold Knex.has_user_email.
    unfold registered_user.
    cbn [Pg.user_email Pg.password Pg.user_id Pg.username].
    rewrite String.eqb_refl. rewrite Hpw.
    cbn [text Pg.user_email Pg.password Pg.user_id Pg.username].
    rewrite Hbcrypt.
    rewrite Hka, Hkr.
    set (p := {| payload_id := Some (Pg.users_id_seq (Pg.store w));
                 payload_email := Some (normalizeEmail
                   (JS.trim (text (body_email (req_body req))))) |}).
    destruct (Hsign p ka (access_expiry c') (clock c' / 1000) da Hkane Hda)
      as (a & Hsa).
    destruct (Hsign p kr (refresh_expiry c') (clock c' / 1000) dr Hkrne Hdr)
      as (t & Hst).
    rewrite Hsa, Hst. exists a, t. reflexivity. }
  destruct Hroute as (a & t & Hroute). subst r w1. rewrite Hroute.
  split; [reflexivity |]. exists a, t. read_field. reflexivity.
Qed.

Module BcryptFacts.
Import Reference.

Lemma length_append (s t : string) :
  String.length (s ++ t) = (String.length s + String.length t)%nat.
Proof. induction s; simpl; congruence. Qed.

Lemma substring_all (s : string) :
  String.substring 0 (String.length s) s = s.
Proof. induction s; simpl; congruence. Qed.

Lemma substring_skip (s t : string) (m : nat) :
  String.substring (String.length s) m (s ++ t) = String.substring 0 m t.
Proof. induction s; simpl; auto. Qed.

Lemma compare_hash : compare_accepts_hash externals.
Proof.
  intros pw rounds salt. cbn. unfold bcrypt_compare, bcrypt_hash.
  rewrite length_append. cbn [append String.length].
  replace (String.length salt + S (String.length pw)
           - String.length pw - 1)%nat
    with (String.length salt) by lia.
  rewrite substring_skip.
  replace (String.length pw + 1)%nat
    with (String.length (String "$" pw)) by (simpl; lia).
  rewrite substring_all. apply String.eqb_refl.
Qed.

End BcryptFacts.

Lemma register_then_login_witness :
  let E := Reference.externals in
  let req := Sample.signing_up "ann@example.com" "secret1" in
  let w1 := snd (route PostRegister Sample.context req Sample.start) in
  let r := fst (route PostLogin Sample.context req w1) in
  status r = 200
  /\ exists accessToken refreshToken,
       JS.get "data" (json r)
       = Some (JS.VObj
                 [ ("user", JS.VObj [ ("id", num 1); ("username", str "ann");
                                      ("email", str "ann@example.com") ]);
                   ("accessToken", str accessToken);
                   ("refreshToken", str refreshToken) ]).
Proof.
  intros E req w1 r.
  refine (register_then_login E Sample.context Sample.context req
            Sample.start BcryptFacts.compare_hash ReferenceFacts.signs
            _ _ _).
  - repeat split; eexists; first [ split; [reflexivity | discriminate]
                                 | reflexivity ].
  - reflexivity.
  - reflexivity.
Defined.

(** X7. The refresh exchange never reads or writes the store: whatever the
    request, the store and the log of statements are as they were. *)
Theorem refresh_leaves_store (E : Externals) (c : context) (req : request)
    (w : Pg.world) :
  snd (route PostRefreshToken c req w) = w.
Proof.
  unfold route, refresh_token.
  destruct (falsy (body_refreshToken (req_body req))); [reflexivity |].
  unfold Pg.try_catch, Pg.bind, Pg.lift, sign, Pg.ret.
  destruct (jwt_verify _ _ _); [| reflexivity].
  destruct (jwt_sign _ _ _ _); reflexivity.
Qed.

(** X8. A token that was not signed with the refresh secret, such as an access
    token when the two secrets differ, is refused by the refresh exchange
    with the 403 envelope "Invalid refresh token", which carries the
    message of the verification. *)
Theorem refresh_refuses_other_secret (E : Externals) (c : context)
    (req : request) (w : Pg.world) (p : payload) (k e tok : string) (t : Z) :
  rejects_other_secret E ->
  tokens_are_words E ->
  body_refreshToken (req_body req) = Some tok ->
  jwt_sign p (Some k) e t = Pg.Ok tok ->
  REFRESH_TOKEN_SECRET (environment c) <> Some k ->
  exists err,
    fst (route PostRefreshToken c req w)
    = failure_with 403 "Invalid refresh token" err
    /\ JS.get "errors" (json (fst (route PostRefreshToken c req w)))
       = Some (str (Pg.message err)).
Proof.
  intros Hother Hwords Htok Hs Hk.
  destruct (Hother p k e t tok (REFRESH_TOKEN_SECRET (environment c))
              (clock c / 1000) Hs Hk) as (err & Herr).
  destruct (Hwords _ _ _ _ _ Hs) as [Hne _].
  exists err.
  assert (Hr : fst (route PostRefreshToken c req w)
               = failure_with 403 "Invalid refresh token" err).
  { unfold route, refresh_token. rewrite Htok.
    destruct tok as [| a tok]; [contradiction |].
    cbn [falsy]. unfold Pg.try_catch, Pg.bind, Pg.lift. cbn [text].
    now rewrite Herr. }
  split; [exact Hr |]. rewrite Hr. read_field. reflexivity.
Qed.

Lemma refresh_refuses_other_secret_witness :
  let E := Reference.externals in
  let req := Sample.refreshing Sample.access_token in
  exists err,
    fst (route PostRefreshToken Sample.context req Sample.registered)
    = failure_with 403 "Invalid refresh token" err
    /\ JS.get "errors"
         (json (fst (route PostRefreshToken Sample.context req
                       Sample.registered)))
       = Some (str (Pg.message err)).
Proof.
  intros E req.
  apply (refresh_refuses_other_secret E Sample.context req Sample.registered
           {| payload_id := Some 1; payload_email := Some "ann@example.com" |}
           "access-secret" "1h" Sample.access_token 1000
           ReferenceFacts.other_secret ReferenceFacts.words).
  - reflexivity.
  - reflexivity.
  - discriminate.
Defined.

(** X9. The refresh exchange keeps the subject: a refresh token that is still
    valid is exchanged for an access token with which the bearer step reads
    the id of the refresh token, no email, and a life time that starts at
    the exchange. *)
Theorem refresh_then_authenticate (E : Externals) (c : context)
    (req : request) (w : Pg.world) (p : payload)
    (kr ka e rt : string) (t dr da : Z) :
  accepts_valid E -> signs_when_configured E -> tokens_are_words E ->
  REFRESH_TOKEN_SECRET (environment c) = Some kr ->
  ACCESS_TOKEN_SECRET (environment c) = Some ka ->
  ka <> EmptyString ->
  body_refreshToken (req_body req) = Some rt ->
  jwt_sign p (Some kr) e t = Pg.Ok rt ->
  timespan e = Some dr ->
  clock c / 1000 < t + dr ->
  timespan (access_expiry c) = Some da ->
  0 < da ->
  exists accessToken,
    status (fst (route PostRefreshToken c req w)) = 200
    /\ JS.get "data" (json (fst (route PostRefreshToken c req w)))
       = Some (JS.VObj [("accessToken", str accessToken)])
    /\ forall req',
         authorization req' = Some ("Bearer " ++ accessToken)%string ->
         authenticate c req'
         = Next {| claims_id := payload_id p; claims_email := None;
                   iat := clock c / 1000; exp := clock c / 1000 + da |}.
Proof.
  intros Hvalid Hsign Hwords Hkr Hka Hkane Hrt Hs Hdr Hlive Hda Hpos.
  destruct (Hwords _ _ _ _ _ Hs) as [Hrtne _].
  pose proof (Hvalid p kr e t rt dr (clock c / 1000) Hs Hdr Hlive) as Hverify.
  destruct (Hsign {| payload_id := payload_id p; payload_email := None |}
              ka (access_expiry c) (clock c / 1000) da Hkane Hda)
    as (a & Ha).
  exists a.
  assert (Hr : fst (route PostRefreshToken c req w)
               = envelope 200
                   [ ("message", str "Access token refreshed successfully");
                     ("data", JS.VObj [("accessToken", str a)]);
                     ("statusCode", num 200) ]).
  { unfold route, refresh_token. rewrite Hrt.
    destruct rt as [| x rt]; [contradiction |]. cbn [falsy text].
    unfold Pg.try_catch, Pg.bind, Pg.lift, sign, Pg.ret.
    rewrite Hkr, Hverify. cbn [claims_id]. rewrite Hka, Ha. reflexivity. }
  rewrite Hr. split; [reflexivity |]. split; [read_field; reflexivity |].
  intros req' Hh. rewrite (authenticate_bearer E c req' a Hh).
  destruct (Hwords _ _ _ _ _ Ha) as [Hane Hword]. rewrite Hword.
  destruct a as [| x a]; [contradiction |].
  rewrite Hka.
  rewrite (Hvalid _ ka _ _ _ da (clock c / 1000) Ha Hda ltac:(lia)).
  reflexivity.
Qed.

Lemma refresh_then_authenticate_witness :
  let E := Reference.externals in
  let req := Sample.refreshing Sample.refresh_token in
  exists accessToken,
    status (fst (route PostRefreshToken Sample.context req Sample.registered))
    = 200
    /\ JS.get "data"
         (json (fst (route PostRefreshToken Sample.context req
                       Sample.registered)))
       = Some (JS.VObj [("accessToken", str accessToken)])
    /\ authenticate Sample.context (Sample.presenting accessToken)
       = Next {| claims_id := Some 1; claims_email := None;
                 iat := 1000; exp := 1000 + 3600 |}.
Proof.
  intros E req.
  destruct (refresh_then_authenticate E Sample.context req
              Sample.registered
              {| payload_id := Some 1;
                 payload_email := Some "ann@example.com" |}
              "refresh-secret" "access-secret" "7d" Sample.refresh_token
              1000 604800 3600
              ReferenceFacts.validity ReferenceFacts.signs
              ReferenceFacts.words eq_refl eq_refl ltac:(discriminate)
              eq_refl eq_refl eq_refl ltac:(cbn; lia) eq_refl ltac:(lia))
    as (a & H1 & H2 & H3).
  exists a. split; [exact H1 |]. split; [exact H2 |].
  apply (H3 (Sample.presenting a)). reflexivity.
Defined.

(** ** Routes that only read *)

Lemma untouched_ret {A} (a : A) : untouched (Pg.ret a).
Proof. intros w. reflexivity. Qed.

Lemma untouched_throw {A} (e : Pg.error) : untouched (Pg.throw (A := A) e).
Proof. intros w. reflexivity. Qed.

Lemma untouched_lift {A} (r : Pg.result A) : untouched (Pg.lift r).
Proof. intros w. reflexivity. Qed.

Lemma untouched_sent (t : Pg.table) (s : Pg.statement) :
  untouched (Pg.sent t s).
Proof. intros w. reflexivity. Qed.

Lemma untouched_read {A} (f : Pg.db -> A) : untouched (Pg.read f).
Proof. intros w. reflexivity. Qed.

Lemma untouched_bind {A B} (m : Pg.Query A) (k : A -> Pg.Query B) :
  untouched m -> (forall a, untouched (k a)) -> untouched (Pg.bind m k).
Proof.
  intros Hm Hk w. unfold Pg.bind. specialize (Hm w).
  destruct (m w) as [[a | e] w']; simpl in *.
  - now rewrite Hk.
  - exact Hm.
Qed.

Lemma untouched_caught {R} (m : Pg.Query R) (h : Pg.error -> R)
    (w : Pg.world) :
  untouched m -> Pg.store (snd (Pg.try_catch m h w)) = Pg.store w.
Proof.
  intros Hm. unfold Pg.try_catch. specialize (Hm w).
  destruct (m w) as [[r | e] w']; exact Hm.
Qed.

Ltac reads :=
  repeat match goal with
         | |- untouched (Pg.ret _) => apply untouched_ret
         | |- untouched (Pg.throw _) => apply untouched_throw
         | |- untouched (Pg.lift _) => apply untouched_lift
         | |- untouched (Pg.sent _ _) => apply untouched_sent
         | |- untouched (Pg.read _) => apply untouched_read
         | |- untouched (Pg.bind _ _) => apply untouched_bind; [| intros ?]
         | |- untouched (match ?x with _ => _ end) => destruct x
         end.

(** X10. Login, the refresh exchange, the user lookup, the author list and the
    author lookup change no row, whatever the request: the store after the
    route is the store before it. *)
Theorem reading_routes_leave_store (E : Externals) (c : context)
    (req : request) (w : Pg.world) :
  Forall (fun ep => Pg.store (snd (route ep c req w)) = Pg.store w)
         reading_routes.
Proof.
  repeat constructor; unfold route, guarded;
    repeat match goal with
           | |- context [authenticate c req] => destruct (authenticate c req)
           | |- context [validate ?e ?a] => destruct (validate e a)
           end;
    try reflexivity.
  - unfold login. apply untouched_caught.
    unfold defined, Knex.binding, Knex.users_where_email_first, sign. reads.
  - unfold refresh_token. destruct (falsy _); [reflexivity |].
    apply untouched_caught. unfold sign. reads.
  - unfold get_me. apply untouched_caught.
    unfold Knex.users_where_id_first, Knex.binding. reads.
  - unfold list_authors. apply untouched_caught.
    unfold Knex.authors_count, Knex.authors_page. reads.
  - unfold get_author. apply untouched_caught.
    unfold Knex.authors_where_id_first. reads.
Qed.

(** ** routes/users.js *)

Lemma find_filter_out {A} (f : A -> bool) (l : list A) :
  find f (filter (fun a => negb (f a)) l) = None.
Proof.
  induction l as [| a l IH]; simpl; [reflexivity |].
  destruct (f a) eqn:Hf; simpl; [exact IH |]. now rewrite Hf.
Qed.

(** X11. [GET /users/me] for the user of the token: the answer is a 200 whose
    data are the id, username, email and dates of the stored user, and
    nothing else. *)
Theorem get_me_returns_user (E : Externals) (c : context) (req : request)
    (w : Pg.world) (user : claims) (i : Z) (u : Pg.user) :
  authenticate c req = Next user ->
  claims_id user = Some i ->
  find (Knex.has_user_id i) (Pg.users (Pg.store w)) = Some u ->
  let r := fst (route GetMe c req w) in
  status r = 200
  /\ JS.get "success" (json r) = Some (JS.VBool true)
  /\ JS.get "data" (json r)
     = Some (JS.VObj [ ("id", num (Pg.user_id u));
                       ("username", str (Pg.username u));
                       ("email", str (Pg.user_email u));
                       ("created_at", JS.VDate (Pg.user_created_at u));
                       ("updated_at", JS.VDate (Pg.user_updated_at u)) ]).
Proof.
  intros Hauth Hid Hfind r. subst r.
  unfold route, guarded. rewrite Hauth.
  unfold get_me, Pg.try_catch, Knex.users_where_id_first, Knex.binding.
  rewrite Hid. unfold Pg.bind, Pg.sent, Pg.read, Pg.ret. cbn [Pg.store].
  rewrite Hfind. cbn [fst].
  split; [reflexivity |]. split; read_field; reflexivity.
Qed.

Lemma get_me_returns_user_witness :
  let E := Reference.externals in
  let r := fst (route GetMe Sample.context
                  (Sample.presenting Sample.access_token)
                  Sample.registered) in
  status r = 200
  /\ JS.get "success" (json r) = Some (JS.VBool true)
  /\ JS.get "data" (json r)
     = Some (JS.VObj [ ("id", num 1); ("username", str "ann");
                       ("email", str "ann@example.com");
                       ("created_at", JS.VDate 1000000);
                       ("updated_at", JS.VDate 1000000) ]).
Proof.
  intros E r.
  apply (get_me_returns_user E Sample.context
           (Sample.presenting Sample.access_token) Sample.registered
           {| claims_id := Some 1; claims_email := Some "ann@example.com";
              iat := 1000; exp := 4600 |} 1
           {| Pg.user_id := 1; Pg.username := "ann";
              Pg.user_email := "ann@example.com";
              Pg.password := Reference.bcrypt_hash "secret1" 10 "salt";
              Pg.user_created_at := 1000000;
              Pg.user_updated_at := 1000000 |}); reflexivity.
Defined.

(** X12. [DELETE /users/me] for a stored user: the answer is a 200 with the data
    of the deleted user; the user's row and the books of the user are gone,
    the other users and the authors stay; with the same token, which still
    passes the bearer step, the user is then not found. *)
Theorem delete_me_removes_user (E : Externals) (c : context) (req : request)
    (w : Pg.world) (user : claims) (i : Z) (u : Pg.user) :
  authenticate c req = Next user ->
  claims_id user = Some i ->
  find (Knex.has_user_id i) (Pg.users (Pg.store w)) = Some u ->
  let r := fst (route DeleteMe c req w) in
  let w' := snd (route DeleteMe c req w) in
  status r = 200
  /\ JS.get "data" (json r)
     = Some (JS.VObj [ ("id", num (Pg.user_id u));
                       ("username", str (Pg.username u));
                       ("email", str (Pg.user_email u));
                       ("created_at", JS.VDate (Pg.user_created_at u));
                       ("updated_at", JS.VDate (Pg.user_updated_at u)) ])
  /\ Pg.users (Pg.store w')
     = filter (fun x => negb (Pg.user_id x =? i)) (Pg.users (Pg.store w))
  /\ Pg.books (Pg.store w')
     = filter (fun b => negb (Knex.is_some_of i (Pg.book_user_id b)))
              (Pg.books (Pg.store w))
  /\ Pg.authors (Pg.store w') = Pg.authors (Pg.store w)
  /\ fst (route GetMe c req w') = failure 404 "User not found"
  /\ fst (route DeleteMe c req w') = failure 404 "User not found".
Proof.
  intros Hauth Hid Hfind r w'.
  assert (Hroute : route DeleteMe c req w
    = (envelope 200
         [ ("success", JS.VBool true);
           ("message", str "User deleted successfully");
           ("statusCode", num 200);
           ("data", JS.VObj
              [ ("id", num (Pg.user_id u));
                ("username", str (Pg.username u));
                ("email", str (Pg.user_email u));
                ("created_at", JS.VDate (Pg.user_created_at u));
                ("updated_at", JS.VDate (Pg.user_updated_at u)) ]) ],
       {| Pg.store :=
            {| Pg.users := filter (fun x => negb (Knex.has_user_id i x))
                                  (Pg.users (Pg.store w));
               Pg.users_id_seq := Pg.users_id_seq (Pg.store w);
               Pg.authors := Pg.authors (Pg.store w);
               Pg.authors_id_seq := Pg.authors_id_seq (Pg.store w);
               Pg.books := filter (fun b => negb (Knex.is_some_of i
                                                    (Pg.book_user_id b)))
                                  (Pg.books (Pg.store w)) |};
          Pg.log := (Pg.log w ++ [(Pg.Users, Pg.Select)])
                    ++ [(Pg.Users, Pg.Delete)] |})).
  { unfold route, guarded. rewrite Hauth.
    unfold delete_me, Pg.try_catch, Knex.users_where_id_first,
      Knex.users_where_id_del, Knex.binding.
    rewrite Hid.
    unfold Pg.bind, Pg.sent, Pg.read, Pg.write, Pg.ret.
    cbn [Pg.store Pg.log]. rewrite Hfind. reflexivity. }
  subst r w'. rewrite Hroute. cbn [fst snd Pg.store Pg.users Pg.books Pg.authors].
  split; [reflexivity |]. split; [read_field; reflexivity |].
  split; [reflexivity |]. split; [reflexivity |]. split; [reflexivity |].
  split.
  - unfold route, guarded. rewrite Hauth.
    unfold get_me, Pg.try_catch, Knex.users_where_id_first, Knex.binding.
    rewrite Hid. unfold Pg.bind, Pg.sent, Pg.read, Pg.ret.
    cbn [Pg.store Pg.users]. now rewrite find_filter_out.
  - unfold route, guarded. rewrite Hauth.
    unfold delete_me, Pg.try_catch, Knex.users_where_id_first, Knex.binding.
    rewrite Hid. unfold Pg.bind, Pg.sent, Pg.read, Pg.ret.
    cbn [Pg.store Pg.users]. now rewrite find_filter_out.
Qed.

Lemma delete_me_removes_user_witness :
  let E := Reference.externals in
  let req := Sample.presenting Sample.access_token in
  let r := fst (route DeleteMe Sample.context req Sample.registered) in
  let w' := snd (route DeleteMe Sample.context req Sample.registered) in
  status r = 200
  /\ JS.get "data" (json r)
     = Some (JS.VObj [ ("id", num 1); ("username", str "ann");
                       ("email", str "ann@example.com");
                       ("created_at", JS.VDate 1000000);
                       ("updated_at", JS.VDate 1000000) ])
  /\ Pg.users (Pg.store w') = []
  /\ Pg.books (Pg.store w') = []
  /\ Pg.authors (Pg.store w') = []
  /\ fst (route GetMe Sample.context req w') = failure 404 "User not found"
  /\ fst (route DeleteMe Sample.context req w')
     = failure 404 "User not found".
Proof.
  intros E req r w'.
  apply (delete_me_removes_user E Sample.context req Sample.registered
           {| claims_id := Some 1; claims_email := Some "ann@example.com";
              iat := 1000; exp := 4600 |} 1
           {| Pg.user_id := 1; Pg.username := "ann";
              Pg.user_email := "ann@example.com";
              Pg.password := Reference.bcrypt_hash "secret1" 10 "salt";
              Pg.user_created_at := 1000000;
              Pg.user_updated_at := 1000000 |}); reflexivity.
Defined.

Lemma falsy_some (s : string) : s <> EmptyString -> falsy (Some s) = false.
Proof. destruct s; [contradiction | reflexivity]. Qed.

Lemma find_filter_head {A} (f : A -> bool) (l : list A) (a : A) :
  find f l = Some a -> exists rest, filter f l = a :: rest.
Proof.
  induction l as [| x l IH]; simpl; [discriminate |].
  destruct (f x); [| exact IH].
  intros H. injection H as <-. eauto.
Qed.

Lemma find_map_same {A} (f : A -> bool) (g : A -> A) (l : list A) (a : A) :
  (forall x, f (g x) = f x) ->
  find f l = Some a -> find f (map g l) = Some (g a).
Proof.
  intros Hg. induction l as [| x l IH]; simpl; [discriminate |].
  rewrite Hg. destruct (f x); [| exact IH].
  intros H. now injection H as <-.
Qed.

Lemma existsb_false {A} (f : A -> bool) (l : list A) :
  (forall x, In x l -> f x = false) -> existsb f l = false.
Proof.
  induction l as [| a l IH]; simpl; intros H; [reflexivity |].
  rewrite (H a) by now left. apply IH. intros x Hx. apply H. now right.
Qed.

(** X13. [PUT /users/me] for a stored user, with a username and an email that
    pass the rules and an email no other user has: the answer is a 200 with
    the user's new public data; the row keeps its id, its password hash and
    its creation date, takes the trimmed username, the normalised email and
    the time of the request as its update date; the rows of the other users
    stay. *)
Theorem update_me_replaces_profile (E : Externals) (c : context)
    (req : request) (w : Pg.world) (user : claims) (i : Z) (u : Pg.user) :
  authenticate c req = Next user ->
  claims_id user = Some i ->
  update_user_errors (req_body req) = [] ->
  let uname := JS.trim (text (body_username (req_body req))) in
  let email := normalizeEmail (JS.trim (text (body_email (req_body req)))) in
  email <> EmptyString ->
  find (Knex.has_user_id i) (Pg.users (Pg.store w)) = Some u ->
  (forall x, In x (Pg.users (Pg.store w)) ->
             Pg.user_id x <> i -> Pg.user_email x <> email) ->
  let u' := {| Pg.user_id := Pg.user_id u; Pg.username := uname;
               Pg.user_email := email; Pg.password := Pg.password u;
               Pg.user_created_at := Pg.user_created_at u;
               Pg.user_updated_at := clock c |} in
  let r := fst (route PutMe c req w) in
  let w' := snd (route PutMe c req w) in
  status r = 200
  /\ JS.get "data" (json r)
     = Some (JS.VObj [ ("id", num (Pg.user_id u)); ("username", str uname);
                       ("email", str email);
                       ("created_at", JS.VDate (Pg.user_created_at u));
                       ("updated_at", JS.VDate (clock c)) ])
  /\ find (Knex.has_user_id i) (Pg.users (Pg.store w')) = Some u'
  /\ (forall x, In x (Pg.users (Pg.store w)) -> Pg.user_id x <> i ->
                In x (Pg.users (Pg.store w')))
  /\ List.length (Pg.users (Pg.store w'))
     = List.length (Pg.users (Pg.store w)).
Proof.
  intros Hauth Hid Hok uname email Hemail Hfind Hfree u' r w'.
  assert (Huname : uname <> EmptyString).
  { unfold update_user_errors in Hok. apply app_eq_nil in Hok as [Hok _].
    apply failing_nil in Hok. unfold notEmpty in Hok. fold uname in Hok.
    destruct uname; [discriminate | discriminate]. }
  destruct (find_filter_head _ _ _ Hfind) as (rest & Hhit).
  set (upd := fun x => if Knex.has_user_id i x
                       then Knex.set_user uname email (clock c) x else x).
  assert (Hothers : existsb (Knex.has_user_email email)
                      (filter (fun x => negb (Knex.has_user_id i x))
                              (Pg.users (Pg.store w))) = false).
  { apply existsb_false. intros x Hx. apply filter_In in Hx as [Hin Hx].
    unfold Knex.has_user_id in Hx. apply negb_true_iff, Z.eqb_neq in Hx.
    unfold Knex.has_user_email. apply String.eqb_neq. now apply Hfree. }
  assert (Hroute : route PutMe c req w
    = (envelope 200
         [ ("success", JS.VBool true);
           ("message", str "User details updated successfully");
           ("statusCode", num 200);
           ("data", JS.VObj (JS.pick public_columns (Knex.user_row (upd u)))) ],
       {| Pg.store :=
            {| Pg.users := map upd (Pg.users (Pg.store w));
               Pg.users_id_seq := Pg.users_id_seq (Pg.store w);
               Pg.authors := Pg.authors (Pg.store w);
               Pg.authors_id_seq := Pg.authors_id_seq (Pg.store w);
               Pg.books := Pg.books (Pg.store w) |};
          Pg.log := (Pg.log w ++ [(Pg.Users, Pg.Select)])
                    ++ [(Pg.Users, Pg.Update)] |})).
  { unfold route, guarded. rewrite Hauth. unfold validate. rewrite Hok.
    unfold update_me.
    cbn [update_user_sanitized email_sanitized set_email set_username
         body_email body_username].
    fold uname. fold email.
    rewrite !falsy_some by assumption. cbn [orb text].
    unfold Pg.try_catch, Knex.users_where_id_first,
      Knex.users_where_id_update, Knex.binding.
    rewrite Hid.
    unfold Pg.bind, Pg.sent, Pg.read, Pg.write, Pg.ret, Pg.throw.
    cbn [Pg.store Pg.log]. rewrite Hfind. cbn [Pg.store Pg.log].
    rewrite Hhit, Hothers. cbn [Pg.store Pg.log map first_row].
    reflexivity. }
  assert (Hu : upd u = u').
  { unfold upd. apply find_some in Hfind as [_ Hu]. rewrite Hu.
    unfold Knex.set_user, u'. reflexivity. }
  subst r w'. rewrite Hroute. cbn [fst snd Pg.store Pg.users].
  split; [reflexivity |].
  split; [rewrite Hu; read_field; reflexivity |].
  split.
  - rewrite <- Hu. apply find_map_same; [| exact Hfind].
    intros x. unfold upd. destruct (Knex.has_user_id i x) eqn:Hx;
      [| exact Hx].
    unfold Knex.has_user_id, Knex.set_user in *. exact Hx.
  - split; [| apply length_map].
    intros x Hin Hx. apply in_map_iff. exists x. split; [| exact Hin].
    unfold upd, Knex.has_user_id.
    now replace (Pg.user_id x =? i) with false
      by (symmetry; apply Z.eqb_neq; exact Hx).
Qed.

Lemma update_me_replaces_profile_witness :
  let E := Reference.externals in
  let req :=
    {| authorization := Some ("Bearer " ++ Sample.access_token)%string;
       query := []; params_id := EmptyString;
       req_body :=
         {| body_username := Some " anna "; body_email := Some "Anna@Example.com";
            body_password := None; body_name := None; body_bio := None;
            body_refreshToken := None; body_ids := JS.VUndefined |} |} in
  let u' := {| Pg.user_id := 1; Pg.username := "anna";
               Pg.user_email := "anna@example.com";
               Pg.password := Reference.bcrypt_hash "secret1" 10 "salt";
               Pg.user_created_at := 1000000;
               Pg.user_updated_at := 1000000 |} in
  let r := fst (route PutMe Sample.context req Sample.registered) in
  let w' := snd (route PutMe Sample.context req Sample.registered) in
  status r = 200
  /\ JS.get "data" (json r)
     = Some (JS.VObj [ ("id", num 1); ("username", str "anna");
                       ("email", str "anna@example.com");
                       ("created_at", JS.VDate 1000000);
                       ("updated_at", JS.VDate 1000000) ])
  /\ find (Knex.has_user_id 1) (Pg.users (Pg.store w')) = Some u'
  /\ (forall x, In x (Pg.users (Pg.store Sample.registered)) ->
                Pg.user_id x <> 1 -> In x (Pg.users (Pg.store w')))
  /\ List.length (Pg.users (Pg.store w'))
     = List.length (Pg.users (Pg.store Sample.registered)).
Proof.
  intros E req u' r w'.
  apply (update_me_replaces_profile E Sample.context req Sample.registered
           {| claims_id := Some 1; claims_email := Some "ann@example.com";
              iat := 1000; exp := 4600 |} 1
           {| Pg.user_id := 1; Pg.username := "ann";
              Pg.user_email := "ann@example.com";
              Pg.password := Reference.bcrypt_hash "secret1" 10 "salt";
              Pg.user_created_at := 1000000;
              Pg.user_updated_at := 1000000 |}).
  - reflexivity.
  - reflexivity.
  - reflexivity.
  - discriminate.
  - reflexivity.
  - intros x [<- | []] Hx. now contradiction Hx.
Defined.

(** ** The authors table stays consistent *)

Section Consistency.
Import Pg Knex.

Lemma keeps_untouched {A} (I : db -> Prop) (m : Query A) :
  untouched m -> keeps I m.
Proof. intros H w Hw. now rewrite H. Qed.

Lemma keeps_bind {A B} (I : db -> Prop) (m : Query A) (k : A -> Query B) :
  keeps I m -> (forall a, keeps I (k a)) -> keeps I (bind m k).
Proof.
  intros Hm Hk w Hw. unfold bind. specialize (Hm w Hw).
  destruct (m w) as [[a | e] w']; simpl in *.
  - now apply Hk.
  - exact Hm.
Qed.

Lemma keeps_caught {R} (I : db -> Prop) (m : Query R) (h : error -> R)
    (w : world) :
  keeps I m -> I (store w) -> I (store (snd (try_catch m h w))).
Proof.
  intros Hm Hw. unfold try_catch. specialize (Hm w Hw).
  destruct (m w) as [[r | e] w']; exact Hm.
Qed.

Lemma not_taken (email : string) (l : list author) :
  existsb (has_author_email email) l = false ->
  ~ In email (map author_email l).
Proof.
  induction l as [| a l IH]; simpl; [tauto |].
  intros H. apply orb_false_elim in H as [H1 H2].
  unfold has_author_email in H1. apply String.eqb_neq in H1.
  intros [Heq | Hin]; [congruence | now apply IH].
Qed.

Lemma NoDup_snoc {A} (l : list A) (a : A) :
  NoDup l -> ~ In a l -> NoDup (l ++ [a]).
Proof.
  intros Hl Ha. eapply Permutation_NoDup.
  - apply Permutation_cons_append.
  - now constructor.
Qed.

Lemma kept_rows_distinct {Row Key} (key : Row -> Key) (keep : Row -> bool)
    (rows : list Row) :
  NoDup (map key rows) -> NoDup (map key (filter keep rows)).
Proof.
  intros Hrows. induction rows as [| r rows IH]; [constructor |].
  cbn [map] in Hrows. apply NoDup_cons_iff in Hrows as [Hfresh Hrest].
  cbn [filter]. destruct (keep r); [| now apply IH].
  cbn [map]. apply NoDup_cons; [| now apply IH].
  rewrite in_map_iff. intros (x & Hx & Hin).
  apply filter_In in Hin as [Hin _]. apply Hfresh.
  rewrite in_map_iff. now exists x.
Qed.

Lemma Forall_filter {A} (P : A -> Prop) (p : A -> bool) (l : list A) :
  Forall P l -> Forall P (filter p l).
Proof.
  intros H. apply Forall_forall. intros x Hx.
  apply filter_In in Hx as [Hx _]. eapply Forall_forall in H; eauto.
Qed.

Lemma consistent_drawn (d : db) :
  authors_consistent d ->
  authors_consistent
    {| users := users d; users_id_seq := users_id_seq d;
       authors := authors d; authors_id_seq := authors_id_seq d + 1;
       books := books d |}.
Proof.
  intros (H1 & H2 & H3 & H4). repeat split; simpl; auto.
  eapply Forall_impl; [| exact H3]. simpl. intros a Ha. lia.
Qed.

Lemma authors_insert_keeps nm email b created updated :
  keeps authors_consistent (authors_insert nm email b created updated).
Proof.
  intros w Hw. pose proof (consistent_drawn _ Hw) as Hd.
  unfold authors_insert, check_author_columns, bind, sent, read, write,
    throw, ret. cbn [store log authors authors_id_seq users users_id_seq books
                     fst snd].
  destruct (negb (fits 255 nm)); [exact Hd |].
  destruct (negb (fits 255 email)); [exact Hd |].
  assert (Hgo :
    authors_consistent
      (store (snd
         ((if existsb (has_author_email email) (authors (store w))
           then fun w0 => (Threw (UniqueViolation "authors_email_unique"), w0)
           else
             fun w0 =>
               (Ok [ {| author_id := authors_id_seq (store w); name := nm;
                        author_email := email; bio := b;
                        author_created_at := created;
                        author_updated_at := updated |} ],
                {| store :=
                     {| users := users (store w0);
                        users_id_seq := users_id_seq (store w0);
                        authors := authors (store w0)
                          ++ [ {| author_id := authors_id_seq (store w);
                                  name := nm; author_email := email; bio := b;
                                  author_created_at := created;
                                  author_updated_at := updated |} ];
                        authors_id_seq := authors_id_seq (store w0);
                        books := books (store w0) |};
                   log := log w0 |}))
            {| store :=
                 {| users := users (store w);
                    users_id_seq := users_id_seq (store w);
                    authors := authors (store w);
                    authors_id_seq := authors_id_seq (store w) + 1;
                    books := books (store w) |};
               log := log w ++ [(Authors, Insert)] |})))).
  { destruct (existsb (has_author_email email) (authors (store w))) eqn:Ht;
      [exact Hd |].
    destruct Hw as (H1 & H2 & H3 & H4).
    cbn [snd store authors authors_id_seq users users_id_seq books].
    repeat split; cbn [authors authors_id_seq books].
    - rewrite map_app. apply NoDup_snoc; [exact H1 |].
      cbn [map author_email]. now apply not_taken.
    - rewrite map_app. apply NoDup_snoc; [exact H2 |].
      cbn [map author_id]. intros Hin.
      apply in_map_iff in Hin as (x & Hx & Hin).
      eapply Forall_forall in H3; eauto. lia.
    - apply Forall_app. split.
      + eapply Forall_impl; [| exact H3]. simpl. intros a Ha. lia.
      + constructor; [simpl; lia | constructor].
    - eapply Forall_impl; [| exact H4]. intros bk. unfold refers_to.
      destruct (book_author_id bk); [| trivial].
      rewrite map_app, in_app_iff. tauto. }
  destruct b as [t |]; [destruct (fits 500 t); [exact Hgo | exact Hd] |].
  exact Hgo.
Qed.

Lemma update_keeps_ids (i : Z) (set : author -> author) (l : list author) :
  (forall a, author_id (set a) = author_id a) ->
  map author_id (map (fun a => if has_author_id i a then set a else a) l)
  = map author_id l.
Proof.
  intros Hset. rewrite map_map. apply map_ext. intros a.
  destruct (has_author_id i a); [apply Hset | reflexivity].
Qed.

Lemma update_keeps_emails (i : Z) (email : string) (set : author -> author)
    (l : list author) :
  (forall a, author_email (set a) = email) ->
  NoDup (map author_id l) ->
  NoDup (map author_email l) ->
  existsb (has_author_email email)
          (filter (fun a => negb (has_author_id i a)) l) = false ->
  NoDup (map author_email
             (map (fun a => if has_author_id i a then set a else a) l)).
Proof.
  intros Hset. induction l as [| a l IH]; intros Hid Hem Hfree;
    [constructor |].
  cbn [map] in *. inversion Hid as [| ? ? Hinid Hid']; subst.
  inversion Hem as [| ? ? Hinem Hem']; subst.
  cbn [filter] in Hfree.
  destruct (has_author_id i a) eqn:Ha; cbn [negb] in Hfree.
  - specialize (IH Hid' Hem' Hfree). constructor; [| exact IH].
    rewrite Hset. intros Hin.
    apply in_map_iff in Hin as (y & Hy & Hin).
    apply in_map_iff in Hin as (x & Hx & Hin). subst y.
    destruct (has_author_id i x) eqn:Hx.
    + apply Hinid. unfold has_author_id in *.
      apply Z.eqb_eq in Ha, Hx. apply in_map_iff. exists x. split; [lia | easy].
    + apply (not_taken email _ Hfree). apply in_map_iff. exists x.
      split; [exact Hy |]. apply filter_In. split; [exact Hin |].
      now rewrite Hx.
  - cbn [existsb] in Hfree. apply orb_false_elim in Hfree as [Hne Hfree].
    specialize (IH Hid' Hem' Hfree). constructor; [| exact IH].
    intros Hin. apply in_map_iff in Hin as (y & Hy & Hin).
    apply in_map_iff in Hin as (x & Hx & Hin). subst y.
    destruct (has_author_id i x) eqn:Hx.
    + rewrite Hset in Hy. unfold has_author_email in Hne.
      apply String.eqb_neq in Hne. congruence.
    + apply Hinem. apply in_map_iff. eauto.
Qed.

Lemma authors_where_id_update_keeps id nm email b updated :
  keeps authors_consistent (authors_where_id_update id nm email b updated).
Proof.
  intros w Hw.
  unfold authors_where_id_update, check_author_columns, bind, sent, read,
    write, throw, ret, lift.
  cbn [store log authors authors_id_seq users users_id_seq books fst snd].
  destruct (int4_in id) as [i | e]; [| exact Hw].
  cbn [store log authors authors_id_seq users users_id_seq books fst snd].
  destruct (filter (has_author_id i) (authors (store w))) as [| h hs] eqn:Hhit;
    [exact Hw |].
  destruct (negb (fits 255 nm)); [exact Hw |].
  destruct (negb (fits 255 email)); [exact Hw |].
  assert (Hgo :
    authors_consistent
      (store (snd
         ((if existsb (has_author_email email)
                (filter (fun a => negb (has_author_id i a))
                        (authors (store w)))
           then fun w0 => (Threw (UniqueViolation "authors_email_unique"), w0)
           else
             fun w0 =>
               (Ok (map (fun a => if has_author_id i a
                                  then set_author nm email b updated a else a)
                        (h :: hs)),
                {| store :=
                     {| users := users (store w0);
                        users_id_seq := users_id_seq (store w0);
                        authors :=
                          map (fun a => if has_author_id i a
                                        then set_author nm email b updated a
                                        else a) (authors (store w0));
                        authors_id_seq := authors_id_seq (store w0);
                        books := books (store w0) |};
                   log := log w0 |}))
            {| store := store w; log := log w ++ [(Authors, Update)] |})))).
  { destruct (existsb (has_author_email email)
                (filter (fun a => negb (has_author_id i a))
                        (authors (store w)))) eqn:Ht; [exact Hw |].
    destruct Hw as (H1 & H2 & H3 & H4).
    cbn [snd store authors authors_id_seq users users_id_seq books].
    repeat split; cbn [authors authors_id_seq books].
    - apply (update_keeps_emails i email); auto.
    - now rewrite update_keeps_ids.
    - apply Forall_forall. intros x Hx.
      apply in_map_iff in Hx as (y & Hy & Hin).
      eapply Forall_forall in H3; [| exact Hin].
      destruct (has_author_id i y); subst x; exact H3.
    - eapply Forall_impl; [| exact H4]. intros bk. unfold refers_to.
      now rewrite update_keeps_ids. }
  destruct b as [t |]; [destruct (fits 500 t); [exact Hgo | exact Hw] |].
  exact Hgo.
Qed.

Lemma delete_authors_keeps (ids : list Z) (d : db) :
  authors_consistent d -> authors_consistent (delete_authors ids d).
Proof.
  intros (H1 & H2 & H3 & H4). unfold delete_authors.
  repeat split; cbn [authors authors_id_seq books].
  - now apply kept_rows_distinct.
  - now apply kept_rows_distinct.
  - now apply Forall_filter.
  - apply Forall_forall. intros bk Hbk. apply filter_In in Hbk as [Hin Hkept].
    eapply Forall_forall in H4; [| exact Hin]. unfold refers_to in *.
    destruct (book_author_id bk) as [i |]; [| trivial].
    apply in_map_iff in H4 as (a & Ha & Hina). apply in_map_iff.
    exists a. split; [exact Ha |]. apply filter_In. split; [exact Hina |].
    now rewrite Ha.
Qed.

Lemma authors_where_id_del_keeps id :
  keeps authors_consistent (authors_where_id_del id).
Proof.
  intros w Hw. unfold authors_where_id_del, bind, sent, read, write, ret, lift.
  cbn [store log fst snd].
  destruct (int4_in id) as [i | e]; [| exact Hw].
  cbn [store log fst snd]. now apply delete_authors_keeps.
Qed.

Lemma authors_whereIn_id_del_keeps ids :
  keeps authors_consistent (authors_whereIn_id_del ids).
Proof.
  intros w Hw.
  unfold authors_whereIn_id_del, bind, sent, read, write, ret, lift.
  cbn [store log fst snd].
  destruct (int4_list ids) as [zs | e]; [| exact Hw].
  cbn [store log fst snd]. now apply delete_authors_keeps.
Qed.

Lemma consistent_users (d : db) (us : list user) (s : Z) (bs : list book) :
  authors_consistent d ->
  (forall bk, In bk bs -> In bk (books d)) ->
  authors_consistent
    {| users := us; users_id_seq := s; authors := authors d;
       authors_id_seq := authors_id_seq d; books := bs |}.
Proof.
  intros (H1 & H2 & H3 & H4) Hbs. repeat split; simpl; auto.
  apply Forall_forall. intros bk Hbk. eapply Forall_forall in H4; eauto.
Qed.

Lemma users_insert_keeps uname email pw created updated :
  keeps authors_consistent (users_insert uname email pw created updated).
Proof.
  intros w Hw. unfold users_insert, bind, sent, read, write, throw, ret.
  cbn [store log authors authors_id_seq users users_id_seq books fst snd].
  destruct (existsb (has_user_email email) (users (store w)));
    cbn [store log authors authors_id_seq users users_id_seq books fst snd];
    now apply consistent_users.
Qed.

Lemma users_where_id_update_keeps id uname email updated :
  keeps authors_consistent (users_where_id_update id uname email updated).
Proof.
  intros w Hw.
  unfold users_where_id_update, binding, bind, sent, read, write, throw, ret.
  destruct id as [i |]; [| exact Hw].
  cbn [store log authors authors_id_seq users users_id_seq books fst snd].
  destruct (filter (has_user_id i) (users (store w))); [exact Hw |].
  destruct (existsb (has_user_email email)
              (filter (fun u => negb (has_user_id i u)) (users (store w))));
    [exact Hw |].
  cbn [store log authors authors_id_seq users users_id_seq books fst snd].
  now apply consistent_users.
Qed.

Lemma users_where_id_del_keeps id :
  keeps authors_consistent (users_where_id_del id).
Proof.
  intros w Hw.
  unfold users_where_id_del, binding, bind, sent, read, write, throw, ret.
  destruct id as [i |]; [| exact Hw].
  cbn [store log authors authors_id_seq users users_id_seq books fst snd].
  apply consistent_users; [exact Hw |].
  intros bk Hbk. now apply filter_In in Hbk.
Qed.

End Consistency.

Ltac stays :=
  repeat match goal with
         | |- keeps _ (Pg.ret _) => apply keeps_untouched, untouched_ret
         | |- keeps _ (Pg.throw _) => apply keeps_untouched, untouched_throw
         | |- keeps _ (Pg.lift _) => apply keeps_untouched, untouched_lift
         | |- keeps _ (Pg.sent _ _) => apply keeps_untouched, untouched_sent
         | |- keeps _ (Pg.read _) => apply keeps_untouched, untouched_read
         | |- keeps _ (Knex.authors_insert _ _ _ _ _) =>
             apply authors_insert_keeps
         | |- keeps _ (Knex.authors_where_id_update _ _ _ _ _) =>
             apply authors_where_id_update_keeps
         | |- keeps _ (Knex.authors_where_id_del _) =>
             apply authors_where_id_del_keeps
         | |- keeps _ (Knex.authors_whereIn_id_del _) =>
             apply authors_whereIn_id_del_keeps
         | |- keeps _ (Knex.users_insert _ _ _ _ _) => apply users_insert_keeps
         | |- keeps _ (Knex.users_where_id_update _ _ _ _) =>
             apply users_where_id_update_keeps
         | |- keeps _ (Knex.users_where_id_del _) =>
             apply users_where_id_del_keeps
         | |- keeps _ (Pg.bind _ _) => apply keeps_bind; [| intros ?]
         | |- keeps _ (match ?x with _ => _ end) => destruct x
         end.

(** X14. Whatever the request, a route takes a store in which author emails and
    ids are unique, every id is below the sequence and every book names a
    stored author to a store of which the same holds. *)
Theorem routes_keep_authors_consistent (E : Externals) (ep : endpoint)
    (c : context) (req : request) (w : Pg.world) :
  authors_consistent (Pg.store w) ->
  authors_consistent (Pg.store (snd (route ep c req w))).
Proof.
  intros Hw.
  destruct ep; unfold route, guarded;
    repeat match goal with
           | |- context [authenticate c req] => destruct (authenticate c req)
           | |- context [validate ?e ?a] => destruct (validate e a)
           end;
    try exact Hw.
  - unfold register. apply keeps_caught; [| exact Hw].
    unfold defined, Knex.binding, Knex.users_where_email_first. stays.
  - unfold login. apply keeps_caught; [| exact Hw].
    unfold defined, Knex.binding, Knex.users_where_email_first, sign. stays.
  - unfold refresh_token. destruct (falsy _); [exact Hw |].
    apply keeps_caught; [| exact Hw]. unfold sign. stays.
  - unfold get_me. apply keeps_caught; [| exact Hw].
    unfold Knex.users_where_id_first, Knex.binding. stays.
  - unfold update_me. destruct (_ || _); [exact Hw |].
    apply keeps_caught; [| exact Hw].
    unfold Knex.users_where_id_first, Knex.binding. stays.
  - unfold delete_me. apply keeps_caught; [| exact Hw].
    unfold Knex.users_where_id_first, Knex.binding. stays.
  - unfold list_authors. apply keeps_caught; [| exact Hw].
    unfold Knex.authors_count, Knex.authors_page. stays.
  - unfold get_author. apply keeps_caught; [| exact Hw].
    unfold Knex.authors_where_id_first. stays.
  - unfold create_author. apply keeps_caught; [| exact Hw].
    unfold defined, Knex.binding. stays.
  - unfold update_author. apply keeps_caught; [| exact Hw].
    unfold defined, Knex.binding, Knex.authors_where_id_first. stays.
  - unfold delete_author. apply keeps_caught; [| exact Hw]. stays.
  - unfold batch_delete_authors.
    destruct (body_ids _) as [| | | | | | [| v vs] |]; try exact Hw.
    apply keeps_caught; [| exact Hw]. stays.
Qed.

(** ** The rules in front of the handlers *)

Section Rules.
Context {E : Externals}.

Lemma status_envelope (code : Z) (fields : list (string * JS.value)) :
  status (envelope code fields) = code.
Proof. reflexivity. Qed.

Ltac other_status :=
  repeat match goal with
         | |- yields _ (Pg.ret _) => apply yields_ret
         | |- yields _ (Pg.throw _) => apply yields_throw
         | |- yields _ (Pg.bind _ _) => apply yields_bind; intros ?
         | |- yields _ (match ?x with _ => _ end) => destruct x
         | |- status _ <> 400 => cbn; lia
         end.

Lemma register_not_400 (c : context) (b : body) (w : Pg.world) :
  status (fst (register c b w)) <> 400.
Proof.
  unfold register, defined, Knex.binding.
  apply (caught (fun r => status r <> 400)); [| intros e; cbn; lia].
  other_status.
Qed.

Lemma create_author_not_400 (c : context) (b : body) (w : Pg.world) :
  status (fst (create_author c b w)) <> 400.
Proof.
  unfold create_author, defined, Knex.binding.
  apply (caught (fun r => status r <> 400)); [| intros e; cbn; lia].
  other_status.
Qed.

Lemma update_author_not_400 (c : context) (req : request) (b : body)
    (w : Pg.world) :
  status (fst (update_author c req b w)) <> 400.
Proof.
  unfold update_author, defined, Knex.binding.
  apply (caught (fun r => status r <> 400)); [| intros e; cbn; lia].
  other_status.
Qed.

Lemma author_errors_nil (b : body) :
  author_errors b = [] <-> author_rules b.
Proof.
  unfold author_errors, email_errors, bio_errors, author_rules, failing,
    notEmpty, isLength.
  set (n := JS.trim (text (body_name b))).
  set (e := JS.trim (text (body_email b))).
  split.
  - intros H.
    destruct (n =? EmptyString)%string eqn:Hn; [discriminate H |].
    destruct (isEmail e); [| discriminate H].
    apply String.eqb_neq in Hn. repeat split; [exact Hn |].
    destruct (body_bio b) as [t |]; [| exact I].
    cbn [negb app] in H.
    destruct ((0 <=? Z.of_nat (String.length (JS.trim t)))
              && (Z.of_nat (String.length (JS.trim t)) <=? 500)) eqn:Hb;
      [| discriminate H].
    apply andb_prop in Hb as [_ Hb]. apply Z.leb_le in Hb. lia.
  - intros (Hn & He & Hb). apply String.eqb_neq in Hn. rewrite Hn, He.
    cbn [negb app]. destruct (body_bio b) as [t |]; [| reflexivity].
    replace (0 <=? Z.of_nat (String.length (JS.trim t))) with true
      by (symmetry; apply Z.leb_le; lia).
    replace (Z.of_nat (String.length (JS.trim t)) <=? 500) with true
      by (symmetry; apply Z.leb_le; lia).
    reflexivity.
Qed.

(** X3. [POST /auth/register] answers 400 exactly when the body breaks a rule:
    a username that, trimmed, has fewer than 3 or more than 30 characters,
    an email that, trimmed, is not one, or a password of fewer than 6
    characters. The 400 is sent before any query: the store and the log of
    statements are as they were. *)
Theorem register_rules (c : context) (req : request) (w : Pg.world) :
  (status (fst (route PostRegister c req w)) = 400
   <-> ~ register_rules_hold (req_body req))
  /\ (status (fst (route PostRegister c req w)) = 400 ->
      snd (route PostRegister c req w) = w).
Proof.
  unfold route, guarded, validate.
  pose proof (register_errors_nil E (req_body req)) as Hnil.
  fold (register_rules_hold (req_body req)) in Hnil.
  destruct (register_errors (req_body req)) as [| e es].
  - assert (Hok : register_rules_hold (req_body req)) by now apply Hnil.
    pose proof (register_not_400 c (register_sanitized (req_body req)) w).
    split; [split |]; intros; tauto.
  - split; [split |]; intros; try reflexivity.
    intros Hok. apply Hnil in Hok. discriminate Hok.
Qed.

(** X15. For a request with a valid token, [POST /authors] and
    [PUT /authors/:id] answer 400 exactly when the body breaks a rule: a
    name that is blank, an email that, trimmed, is not one, or a bio that,
    trimmed, has more than 500 characters (one of exactly 500 passes). The
    400 is sent before any query. *)
Theorem author_rules_refuse (ep : endpoint) (c : context) (req : request)
    (w : Pg.world) (user : claims) :
  ep = PostAuthor \/ ep = PutAuthor ->
  authenticate c req = Next user ->
  (status (fst (route ep c req w)) = 400 <-> ~ author_rules (req_body req))
  /\ (status (fst (route ep c req w)) = 400 -> snd (route ep c req w) = w).
Proof.
  intros Hep Hauth.
  pose proof (author_errors_nil (req_body req)) as Hnil.
  assert (Hnot : forall b w0,
             status (fst (match ep with
                          | PutAuthor => update_author c req b w0
                          | _ => create_author c b w0
                          end)) <> 400).
  { intros b w0. destruct Hep as [-> | ->];
      [apply create_author_not_400 | apply update_author_not_400]. }
  destruct Hep as [-> | ->]; unfold route, guarded, validate in *;
    rewrite Hauth;
    (destruct (author_errors (req_body req)) as [| e es];
     [ assert (Hok : author_rules (req_body req)) by now apply Hnil
     | ]);
    try (pose proof (Hnot (author_sanitized (req_body req)) w);
         split; [split |]; intros; tauto);
    (split; [split |]; intros; try reflexivity;
     intros Hok; apply Hnil in Hok; discriminate Hok).
Qed.

End Rules.

Lemma author_rules_refuse_witness :
  let E := Reference.externals in
  let bio500 := String.concat EmptyString (repeat "0123456789" 50) in
  let req :=
    Sample.bearer
      {| body_username := None; body_email := Some "ann@example.com";
         body_password := None; body_name := Some "Ann";
         body_bio := Some bio500; body_refreshToken := None;
         body_ids := JS.VUndefined |} in
  String.length bio500 = 500%nat
  /\ (status (fst (route PostAuthor Sample.context req Sample.start)) = 400
      <-> ~ author_rules (req_body req))
  /\ (status (fst (route PostAuthor Sample.context req Sample.start)) = 400 ->
      snd (route PostAuthor Sample.context req Sample.start) = Sample.start).
Proof.
  intros E bio500 req. split; [reflexivity |].
  apply (author_rules_refuse (E := E) PostAuthor Sample.context req
           Sample.start
           {| claims_id := Some 1; claims_email := Some "ann@example.com";
              iat := 1000; exp := 1000 + 3600 |}).
  - left. reflexivity.
  - reflexivity.
Defined.

(** ** routes/authors.js *)

Section Authors.
Context {E : Externals}.

Lemma fits_length (n : Z) (t : string) :
  Z.of_nat (String.length t) <= n -> Knex.fits n t = true.
Proof. intros H. unfold Knex.fits. now apply Z.leb_le. Qed.

(** What the creation route does for a valid token and a body that passes
    the rules, when the store takes the row. *)
Lemma create_author_step (c : context) (req : request) (w : Pg.world)
    (user : claims) :
  authenticate c req = Next user ->
  author_rules (req_body req) ->
  let a := created_author c (req_body req) (Pg.store w) in
  (String.length (Pg.name a) <= 255)%nat ->
  (String.length (Pg.author_email a) <= 255)%nat ->
  existsb (Knex.has_author_email (Pg.author_email a))
          (Pg.authors (Pg.store w)) = false ->
  route PostAuthor c req w
  = (envelope 201
       [ ("success", JS.VBool true);
         ("message", str "Author created successfully");
         ("statusCode", num 201);
         ("data", JS.VObj (Knex.author_row a)) ],
     {| Pg.store :=
          {| Pg.users := Pg.users (Pg.store w);
             Pg.users_id_seq := Pg.users_id_seq (Pg.store w);
             Pg.authors := Pg.authors (Pg.store w) ++ [a];
             Pg.authors_id_seq := Pg.authors_id_seq (Pg.store w) + 1;
             Pg.books := Pg.books (Pg.store w) |};
        Pg.log := Pg.log w ++ [(Pg.Authors, Pg.Insert)] |}).
Proof.
  intros Hauth Hok a Hn He Hfree.
  pose proof Hok as (_ & _ & Hbio).
  apply author_errors_nil in Hok.
  unfold route, guarded, validate. rewrite Hauth, Hok.
  unfold create_author, Pg.try_catch, defined, Knex.binding.
  assert (Hname : body_name (author_sanitized (req_body req))
                  = Some (Pg.name a)).
  { unfold author_sanitized. destruct (body_bio (req_body req)); reflexivity. }
  assert (Hemail : body_email (author_sanitized (req_body req))
                   = Some (Pg.author_email a)).
  { unfold author_sanitized. destruct (body_bio (req_body req)); reflexivity. }
  assert (Hb : body_bio (author_sanitized (req_body req)) = Pg.bio a).
  { unfold author_sanitized. cbn [a created_author Pg.bio].
    destruct (body_bio (req_body req)) eqn:Hb'; [reflexivity |].
    cbn. exact Hb'. }
  rewrite Hname, Hemail, Hb.
  unfold Knex.authors_insert, Knex.check_author_columns, Pg.bind, Pg.sent,
    Pg.read, Pg.write, Pg.ret, Pg.throw.
  cbn [Pg.store Pg.log Pg.users Pg.users_id_seq Pg.authors Pg.authors_id_seq
       Pg.books fst snd].
  rewrite (fits_length 255 (Pg.name a)), (fits_length 255 (Pg.author_email a))
    by lia.
  cbn [negb].
  assert (Hfit : match Pg.bio a with
                 | Some t => Knex.fits 500 t = true
                 | None => True
                 end).
  { cbn [a created_author Pg.bio].
    destruct (body_bio (req_body req)) as [t |]; [| exact I].
    cbn [option_map]. apply (fits_length 500). lia. }
  destruct (Pg.bio a) as [t |] eqn:Hbio'.
  - rewrite Hfit. cbn [Pg.store Pg.log Pg.authors]. rewrite Hfree.
    cbn [Pg.store Pg.log Pg.users Pg.users_id_seq Pg.authors
         Pg.authors_id_seq Pg.books fst snd].
    unfold first_row. subst a. unfold created_author in *.
    cbn [Pg.bio] in Hbio'. rewrite Hbio'. reflexivity.
  - cbn [Pg.store Pg.log Pg.authors]. rewrite Hfree.
    cbn [Pg.store Pg.log Pg.users Pg.users_id_seq Pg.authors
         Pg.authors_id_seq Pg.books fst snd].
    unfold first_row. subst a. unfold created_author in *.
    cbn [Pg.bio] in Hbio'. rewrite Hbio'. reflexivity.
Qed.

Lemma get_author_step (c : context) (req : request) (w : Pg.world)
    (user : claims) :
  authenticate c req = Next user ->
  route GetAuthor c req w
  = (match Knex.int4_in (params_id req) with
     | Pg.Threw e => failure_with 500 "Failed to retrieve author" e
     | Pg.Ok i =>
         match find (Knex.has_author_id i) (Pg.authors (Pg.store w)) with
         | None => failure 404 "Author not found"
         | Some a =>
             envelope 200
               [ ("success", JS.VBool true);
                 ("message", str "Author retrieved successfully");
                 ("statusCode", num 200);
                 ("data", JS.VObj (Knex.author_row a)) ]
         end
     end,
     {| Pg.store := Pg.store w;
        Pg.log := Pg.log w ++ [(Pg.Authors, Pg.Select)] |}).
Proof.
  intros Hauth. unfold route, guarded. rewrite Hauth.
  unfold get_author, Pg.try_catch, Knex.authors_where_id_first, Pg.bind,
    Pg.sent, Pg.lift, Pg.read, Pg.ret.
  destruct (Knex.int4_in (params_id req)) as [i | e]; [| reflexivity].
  cbn [Pg.store Pg.log].
  destruct (find (Knex.has_author_id i) (Pg.authors (Pg.store w)));
    reflexivity.
Qed.

Lemma delete_author_step (c : context) (req : request) (w : Pg.world)
    (user : claims) :
  authenticate c req = Next user ->
  route DeleteAuthor c req w
  = match Knex.int4_in (params_id req) with
    | Pg.Threw e =>
        (failure_with 500 "Failed to delete author" e,
         {| Pg.store := Pg.store w;
            Pg.log := Pg.log w ++ [(Pg.Authors, Pg.Delete)] |})
    | Pg.Ok i =>
        (if Knex.count_authors [i] (Pg.store w) =? 0
         then failure 404 "Author not found"
         else envelope 200
                [ ("success", JS.VBool true);
                  ("message", str "Author deleted successfully");
                  ("statusCode", num 200) ],
         {| Pg.store := Knex.delete_authors [i] (Pg.store w);
            Pg.log := Pg.log w ++ [(Pg.Authors, Pg.Delete)] |})
    end.
Proof.
  intros Hauth. unfold route, guarded. rewrite Hauth.
  unfold delete_author, Pg.try_catch, Knex.authors_where_id_del, Pg.bind,
    Pg.sent, Pg.lift, Pg.read, Pg.write, Pg.ret.
  destruct (Knex.int4_in (params_id req)) as [i | e]; [| reflexivity].
  cbn [Pg.store Pg.log].
  destruct (Knex.count_authors [i] (Pg.store w) =? 0); reflexivity.
Qed.

Lemma count_authors_zero (ids : list Z) (d : Pg.db) :
  Knex.count_authors ids d = 0
  <-> forall a, In a (Pg.authors d) -> ~ In (Pg.author_id a) ids.
Proof.
  unfold Knex.count_authors. split.
  - intros H a Ha Hin.
    assert (Hf : In a (filter (fun a => existsb (Z.eqb (Pg.author_id a)) ids)
                              (Pg.authors d))).
    { apply filter_In. split; [exact Ha |]. apply existsb_exists.
      exists (Pg.author_id a). split; [exact Hin | apply Z.eqb_refl]. }
    destruct (filter _ (Pg.authors d)); [exact Hf | simpl in H; lia].
  - intros H.
    replace (filter (fun a => existsb (Z.eqb (Pg.author_id a)) ids)
                    (Pg.authors d)) with (@nil Pg.author); [reflexivity |].
    symmetry. induction (Pg.authors d) as [| a l IH]; [reflexivity |].
    simpl. destruct (existsb (Z.eqb (Pg.author_id a)) ids) eqn:Ha.
    + exfalso. apply existsb_exists in Ha as (x & Hx & Heq).
      apply Z.eqb_eq in Heq. subst x. apply (H a); [now left | exact Hx].
    + apply IH. intros x Hx. apply H. now right.
Qed.

Lemma delete_authors_rows (ids : list Z) (d : Pg.db) (a : Pg.author) :
  In a (Pg.authors (Knex.delete_authors ids d))
  <-> In a (Pg.authors d) /\ ~ In (Pg.author_id a) ids.
Proof.
  unfold Knex.delete_authors. cbn [Pg.authors]. rewrite filter_In.
  split; intros [Hin H]; (split; [exact Hin |]).
  - intros Hid. apply negb_true_iff in H.
    assert (existsb (Z.eqb (Pg.author_id a)) ids = true); [| congruence].
    apply existsb_exists. exists (Pg.author_id a).
    split; [exact Hid | apply Z.eqb_refl].
  - apply negb_true_iff. destruct (existsb _ ids) eqn:Hx; [| reflexivity].
    exfalso. apply H. apply existsb_exists in Hx as (x & Hx & Heq).
    apply Z.eqb_eq in Heq. now subst x.
Qed.

Lemma delete_authors_books (ids : list Z) (d : Pg.db) (bk : Pg.book) :
  In bk (Pg.books (Knex.delete_authors ids d))
  <-> In bk (Pg.books d)
      /\ (forall i, Pg.book_author_id bk = Some i -> ~ In i ids).
Proof.
  unfold Knex.delete_authors. cbn [Pg.books]. rewrite filter_In.
  split; intros [Hin H]; (split; [exact Hin |]).
  - intros i Hi Hid. rewrite Hi in H. apply negb_true_iff in H.
    assert (existsb (Z.eqb i) ids = true); [| congruence].
    apply existsb_exists. exists i. split; [exact Hid | apply Z.eqb_refl].
  - destruct (Pg.book_author_id bk) as [i |]; [| reflexivity].
    apply negb_true_iff. destruct (existsb _ ids) eqn:Hx; [| reflexivity].
    exfalso. apply (H i eq_refl).
    apply existsb_exists in Hx as (x & Hx & Heq).
    apply Z.eqb_eq in Heq. now subst x.
Qed.

Lemma find_author_none (i : Z) (l : list Pg.author) :
  (forall a, In a l -> Pg.author_id a <> i) ->
  find (Knex.has_author_id i) l = None.
Proof.
  intros H. destruct (find _ l) as [a |] eqn:Hf; [| reflexivity].
  apply find_some in Hf as [Hin Ha]. apply Z.eqb_eq in Ha.
  now apply H in Hin.
Qed.

End Authors.

(** X16. A successful [POST /authors] followed by [GET /authors/:id] with the
    new id: the creation is answered 201 with the stored row, whose name and
    bio are trimmed, whose email is normalised and whose two dates are the
    time of the request; the lookup is answered 200 with the same row. *)
Theorem create_author_then_get (E : Externals) (c c' : context)
    (req req' : request) (w : Pg.world) (user user' : claims) :
  authenticate c req = Next user ->
  author_rules (req_body req) ->
  let a := created_author c (req_body req) (Pg.store w) in
  (String.length (Pg.name a) <= 255)%nat ->
  (String.length (Pg.author_email a) <= 255)%nat ->
  existsb (Knex.has_author_email (Pg.author_email a))
          (Pg.authors (Pg.store w)) = false ->
  Forall (fun x => Pg.author_id x < Pg.authors_id_seq (Pg.store w))
         (Pg.authors (Pg.store w)) ->
  authenticate c' req' = Next user' ->
  Knex.int4_in (params_id req') = Pg.Ok (Pg.authors_id_seq (Pg.store w)) ->
  let s1 := route PostAuthor c req w in
  let s2 := route GetAuthor c' req' (snd s1) in
  status (fst s1) = 201
  /\ JS.get "data" (json (fst s1)) = Some (JS.VObj (Knex.author_row a))
  /\ status (fst s2) = 200
  /\ JS.get "data" (json (fst s2)) = Some (JS.VObj (Knex.author_row a)).
Proof.
  intros Hauth Hok a Hn He Hfree Hseq Hauth' Hid s1 s2. subst s1 s2.
  rewrite (create_author_step c req w user Hauth Hok Hn He Hfree).
  fold a. cbn [fst snd].
  rewrite (get_author_step c' req' _ user' Hauth'), Hid.
  cbn [Pg.store Pg.authors fst].
  rewrite find_append.
  rewrite find_author_none.
  2:{ intros x Hx. eapply Forall_forall in Hseq; [| exact Hx]. lia. }
  cbn [find].
  assert (Hhas : Knex.has_author_id (Pg.authors_id_seq (Pg.store w)) a = true)
    by apply Z.eqb_refl.
  rewrite Hhas.
  repeat split; try reflexivity; read_field; reflexivity.
Qed.

(** X18. [DELETE /authors/:id] for a stored author: the answer is 200, the
    author is gone and so are the books that name it, the other authors and
    the other books stay; a lookup or a second deletion with the same id is
    then answered 404. *)
Theorem delete_author_removes (E : Externals) (c c' : context)
    (req req' : request) (w : Pg.world) (user user' : claims) (i : Z) :
  authenticate c req = Next user ->
  Knex.int4_in (params_id req) = Pg.Ok i ->
  In i (map Pg.author_id (Pg.authors (Pg.store w))) ->
  authenticate c' req' = Next user' ->
  Knex.int4_in (params_id req') = Pg.Ok i ->
  let s1 := route DeleteAuthor c req w in
  status (fst s1) = 200
  /\ (forall a, In a (Pg.authors (Pg.store (snd s1)))
                <-> In a (Pg.authors (Pg.store w)) /\ Pg.author_id a <> i)
  /\ (forall bk, In bk (Pg.books (Pg.store (snd s1)))
                 <-> In bk (Pg.books (Pg.store w))
                     /\ Pg.book_author_id bk <> Some i)
  /\ Pg.users (Pg.store (snd s1)) = Pg.users (Pg.store w)
  /\ status (fst (route GetAuthor c' req' (snd s1))) = 404
  /\ status (fst (route DeleteAuthor c' req' (snd s1))) = 404.
Proof.
  intros Hauth Hid Hin Hauth' Hid' s1. subst s1.
  rewrite (delete_author_step c req w user Hauth), Hid. cbn [fst snd Pg.store].
  assert (Hgone : forall a, In a (Pg.authors (Knex.delete_authors [i]
                                                (Pg.store w))) ->
                            Pg.author_id a <> i).
  { intros a Ha. apply delete_authors_rows in Ha as [_ Ha].
    intros Heq. apply Ha. left. now symmetry. }
  assert (Hcount : (Knex.count_authors [i] (Pg.store w) =? 0) = false).
  { apply Z.eqb_neq. intros H0.
    apply in_map_iff in Hin as (a & Ha & Hin).
    apply (proj1 (count_authors_zero _ _) H0 a Hin). left. now symmetry. }
  rewrite Hcount. split; [reflexivity |].
  split.
  { intros a. rewrite delete_authors_rows. cbn [In]. intuition congruence. }
  split.
  { intros bk. rewrite delete_authors_books. cbn [In]. split.
    - intros [Hb H]. split; [exact Hb |]. intros Hi. apply (H i Hi). now left.
    - intros [Hb H]. split; [exact Hb |]. intros j Hj [<- | []]. congruence. }
  split; [reflexivity |].
  split.
  - rewrite (get_author_step c' req' _ user' Hauth'), Hid'.
    cbn [fst Pg.store]. now rewrite (find_author_none i _ Hgone).
  - rewrite (delete_author_step c' req' _ user' Hauth'), Hid'.
    cbn [fst Pg.store].
    assert (H0 : Knex.count_authors [i]
                   (Knex.delete_authors [i] (Pg.store w)) = 0).
    { apply count_authors_zero. intros a Ha [Heq | []].
      now apply (Hgone a Ha). }
    now rewrite H0.
Qed.


Lemma count_authors_removed (ids : list Z) (d : Pg.db) :
  Knex.count_authors ids d
  = Z.of_nat (List.length (Pg.authors d)
              - List.length (Pg.authors (Knex.delete_authors ids d))).
Proof.
  unfold Knex.count_authors, Knex.delete_authors. cbn [Pg.authors].
  pose proof (filter_length
                (fun a => existsb (Z.eqb (Pg.author_id a)) ids)
                (Pg.authors d)) as H.
  f_equal. lia.
Qed.

(** X19. [DELETE /authors] with a list of ids of which at least one is stored:
    the answer is 200, its message gives the number of rows that went (an
    id listed twice counts once, an id that is not stored does not count),
    exactly the authors whose id is listed are gone, and so are the books
    that name them. *)
Theorem batch_delete_removes_listed (E : Externals) (c : context)
    (req : request) (w : Pg.world) (user : claims) (ids : list JS.value)
    (zs : list Z) (a0 : Pg.author) :
  authenticate c req = Next user ->
  body_ids (req_body req) = JS.VArr ids ->
  Knex.int4_list ids = Pg.Ok zs ->
  In a0 (Pg.authors (Pg.store w)) ->
  In (Pg.author_id a0) zs ->
  let r := fst (route DeleteAuthors c req w) in
  let w' := snd (route DeleteAuthors c req w) in
  let n := (List.length (Pg.authors (Pg.store w))
            - List.length (Pg.authors (Pg.store w')))%nat in
  status r = 200
  /\ (0 < n)%nat
  /\ JS.get "message" (json r)
     = Some (str (decimal (Z.of_nat n) ++ " authors deleted successfully"))
  /\ (forall a, In a (Pg.authors (Pg.store w'))
                <-> In a (Pg.authors (Pg.store w))
                    /\ ~ In (Pg.author_id a) zs)
  /\ (forall bk, In bk (Pg.books (Pg.store w'))
                 <-> In bk (Pg.books (Pg.store w))
                     /\ (forall i, Pg.book_author_id bk = Some i ->
                                   ~ In i zs)).
Proof.
  intros Hauth Hids Hzs Hin Hlisted r w' n.
  assert (Hcount : Knex.count_authors zs (Pg.store w) <> 0).
  { intros H0. exact (proj1 (count_authors_zero _ _) H0 a0 Hin Hlisted). }
  assert (Hroute : route DeleteAuthors c req w
    = (envelope 200
         [ ("success", JS.VBool true);
           ("message", str (decimal (Knex.count_authors zs (Pg.store w))
                            ++ " authors deleted successfully"));
           ("statusCode", num 200) ],
       {| Pg.store := Knex.delete_authors zs (Pg.store w);
          Pg.log := Pg.log w ++ [(Pg.Authors, Pg.Delete)] |})).
  { unfold route, guarded. rewrite Hauth. unfold batch_delete_authors.
    rewrite Hids. destruct ids as [| v vs].
    - simpl in Hzs. injection Hzs as <-. contradiction.
    - unfold Pg.try_catch, Knex.authors_whereIn_id_del, Pg.bind, Pg.sent,
        Pg.lift, Pg.read, Pg.write, Pg.ret.
      rewrite Hzs. cbn [Pg.store Pg.log].
      apply Z.eqb_neq in Hcount. rewrite Hcount. reflexivity. }
  subst r w' n. rewrite Hroute. cbn [fst snd Pg.store].
  rewrite <- count_authors_removed.
  split; [reflexivity |].
  split.
  { rewrite count_authors_removed in Hcount. lia. }
  split; [read_field; reflexivity |].
  split.
  - intros a. apply delete_authors_rows.
  - intros bk. apply delete_authors_books.
Qed.

(** X17. [PUT /authors/:id] for a stored author, with a body that passes the
    rules and an email no other author has: the answer is 200 with the new
    row; the row keeps its id and its creation date, takes the trimmed
    name, the normalised email and the time of the request as its update
    date; a request without [bio] leaves the stored bio as it is; the rows
    of the other authors stay. *)
Theorem update_author_replaces (E : Externals) (c : context) (req : request)
    (w : Pg.world) (user : claims) (i : Z) (a : Pg.author) :
  authenticate c req = Next user ->
  author_rules (req_body req) ->
  Knex.int4_in (params_id req) = Pg.Ok i ->
  find (Knex.has_author_id i) (Pg.authors (Pg.store w)) = Some a ->
  let nm := JS.trim (text (body_name (req_body req))) in
  let email := normalizeEmail (JS.trim (text (body_email (req_body req)))) in
  (String.length nm <= 255)%nat ->
  (String.length email <= 255)%nat ->
  (forall x, In x (Pg.authors (Pg.store w)) ->
             Pg.author_id x <> i -> Pg.author_email x <> email) ->
  let a' := {| Pg.author_id := Pg.author_id a; Pg.name := nm;
               Pg.author_email := email;
               Pg.bio := match body_bio (req_body req) with
                         | Some t => Some (JS.trim t)
                         | None => Pg.bio a
                         end;
               Pg.author_created_at := Pg.author_created_at a;
               Pg.author_updated_at := clock c |} in
  let r := fst (route PutAuthor c req w) in
  let w' := snd (route PutAuthor c req w) in
  status r = 200
  /\ JS.get "data" (json r) = Some (JS.VObj (Knex.author_row a'))
  /\ find (Knex.has_author_id i) (Pg.authors (Pg.store w')) = Some a'
  /\ (forall x, In x (Pg.authors (Pg.store w)) -> Pg.author_id x <> i ->
                In x (Pg.authors (Pg.store w')))
  /\ List.length (Pg.authors (Pg.store w'))
     = List.length (Pg.authors (Pg.store w)).
Proof.
  intros Hauth Hok Hid Hfind nm email Hn He Hfree a' r w'.
  pose proof Hok as (_ & _ & Hbio).
  apply author_errors_nil in Hok.
  destruct (find_filter_head _ _ _ Hfind) as (rest & Hhit).
  set (b := option_map JS.trim (body_bio (req_body req))).
  set (upd := fun x => if Knex.has_author_id i x
                       then Knex.set_author nm email b (clock c) x else x).
  assert (Hothers : existsb (Knex.has_author_email email)
                      (filter (fun x => negb (Knex.has_author_id i x))
                              (Pg.authors (Pg.store w))) = false).
  { apply existsb_false. intros x Hx. apply filter_In in Hx as [Hin Hx].
    unfold Knex.has_author_id in Hx. apply negb_true_iff, Z.eqb_neq in Hx.
    unfold Knex.has_author_email. apply String.eqb_neq. now apply Hfree. }
  assert (Hname : body_name (author_sanitized (req_body req)) = Some nm).
  { unfold author_sanitized. destruct (body_bio (req_body req)); reflexivity. }
  assert (Hemail : body_email (author_sanitized (req_body req)) = Some email).
  { unfold author_sanitized. destruct (body_bio (req_body req)); reflexivity. }
  assert (Hb : body_bio (author_sanitized (req_body req)) = b).
  { unfold author_sanitized, b.
    destruct (body_bio (req_body req)) eqn:Hb'; [reflexivity |].
    cbn. exact Hb'. }
  assert (Hfit : Knex.check_author_columns nm email b = Pg.ret tt).
  { unfold Knex.check_author_columns.
    rewrite (fits_length 255 nm), (fits_length 255 email) by lia.
    cbn [negb]. unfold b.
    destruct (body_bio (req_body req)) as [t |]; [| reflexivity].
    cbn [option_map]. rewrite (fits_length 500) by lia. reflexivity. }
  assert (Hroute : route PutAuthor c req w
    = (envelope 200
         [ ("success", JS.VBool true);
           ("message", str "Author updated successfully");
           ("statusCode", num 200);
           ("data", JS.VObj (JS.pick author_columns
                               (Knex.author_row (upd a)))) ],
       {| Pg.store :=
            {| Pg.users := Pg.users (Pg.store w);
               Pg.users_id_seq := Pg.users_id_seq (Pg.store w);
               Pg.authors := map upd (Pg.authors (Pg.store w));
               Pg.authors_id_seq := Pg.authors_id_seq (Pg.store w);
               Pg.books := Pg.books (Pg.store w) |};
          Pg.log := (Pg.log w ++ [(Pg.Authors, Pg.Select)])
                    ++ [(Pg.Authors, Pg.Update)] |})).
  { unfold route, guarded, validate. rewrite Hauth, Hok.
    unfold update_author, defined, Knex.binding.
    rewrite Hname, Hemail, Hb.
    unfold Pg.try_catch, Knex.authors_where_id_first,
      Knex.authors_where_id_update.
    unfold Pg.bind, Pg.sent, Pg.lift, Pg.read, Pg.write, Pg.throw.
    rewrite Hid. cbn [Pg.store Pg.log Pg.ret]. rewrite Hfind.
    cbn [Pg.store Pg.log Pg.ret].
    rewrite Hhit, Hfit, Hothers. cbn [Pg.store Pg.log Pg.ret map first_row].
    reflexivity. }
  assert (Hu : upd a = a').
  { unfold upd. apply find_some in Hfind as [_ Hu]. rewrite Hu.
    unfold Knex.set_author, a', b.
    destruct (body_bio (req_body req)); reflexivity. }
  subst r w'. rewrite Hroute. cbn [fst snd Pg.store Pg.authors].
  split; [reflexivity |].
  split; [rewrite Hu; read_field; reflexivity |].
  split.
  - rewrite <- Hu. apply find_map_same; [| exact Hfind].
    intros x. unfold upd. destruct (Knex.has_author_id i x) eqn:Hx;
      [| exact Hx].
    unfold Knex.has_author_id, Knex.set_author in *. exact Hx.
  - split; [| apply length_map].
    intros x Hin Hx. apply in_map_iff. exists x. split; [| exact Hin].
    unfold upd, Knex.has_author_id.
    now replace (Pg.author_id x =? i) with false
      by (symmetry; apply Z.eqb_neq; exact Hx).
Qed.

(** ** routes/authors.js: the list *)


(** X22. A [limit] that [parseInt] does not read as a number switches the
    paging off: whatever the page, the answer is 200 with every matching
    author, newest first. *)
Theorem list_authors_unreadable_limit (E : Externals) (c : context)
    (req : request) (w : Pg.world) (user : claims) (ls : string) :
  authenticate c req = Next user ->
  lookup "limit" (query req) = Some ls ->
  JS.parseInt ls = None ->
  let found := filter (Knex.matching (param "search" EmptyString req))
                      (Pg.authors (Pg.store w)) in
  let r := fst (route GetAuthors c req w) in
  status r = 200
  /\ JS.get "data" (json r)
     = Some (JS.VArr (map (fun a => JS.VObj (Knex.author_row a))
                          (Knex.order_by_created_at_desc found))).
Proof.
  intros Hauth Hl Hli found r.
  subst r. unfold route, guarded. rewrite Hauth.
  unfold list_authors, Pg.try_catch.
  replace (param "limit" (or_default (PER_PAGE (environment c)) "10") req)
    with ls by (unfold param; now rewrite Hl).
  rewrite Hli.
  replace (option_mul (option_sub (JS.parseInt (param "page" "1" req)) 1)
                      None) with (@None Z)
    by (destruct (option_sub _ 1); reflexivity).
  unfold Knex.authors_count, Knex.authors_page.
  unfold Pg.bind, Pg.sent, Pg.read, Pg.ret. cbn iota beta.
  cbn [Knex.is_negative fst snd Pg.store Knex.apply_limit Knex.apply_offset].
  fold found.
  split; [reflexivity |].
  read_field; reflexivity.
Qed.

(** X23. A list request whose limit is negative, or whose page is below 1 while
    the limit is positive, is answered 500 "Failed to retrieve authors": the
    negative limit or offset is refused when the page is queried. No row
    changes. *)
Theorem list_authors_out_of_range (E : Externals) (c : context)
    (req : request) (w : Pg.world) (user : claims) (p l : Z) :
  authenticate c req = Next user ->
  JS.parseInt (param "page" "1" req) = Some p ->
  JS.parseInt (param "limit" (or_default (PER_PAGE (environment c)) "10") req)
  = Some l ->
  l < 0 \/ (p < 1 /\ 1 <= l) ->
  let r := fst (route GetAuthors c req w) in
  status r = 500
  /\ JS.get "message" (json r) = Some (str "Failed to retrieve authors")
  /\ Pg.store (snd (route GetAuthors c req w)) = Pg.store w.
Proof.
  intros Hauth Hp Hl Hrange r.
  subst r. unfold route, guarded. rewrite Hauth.
  unfold list_authors, Pg.try_catch.
  rewrite Hp, Hl.
  unfold Knex.authors_count, Knex.authors_page, option_mul, option_sub.
  unfold Pg.bind, Pg.sent, Pg.read, Pg.ret, Pg.throw. cbn iota beta.
  cbn [Knex.is_negative].
  destruct ((p - 1) * l <? 0) eqn:Hoff.
  - cbn [fst snd Pg.store]. repeat split; read_field; reflexivity.
  - assert (Hneg : (l <? 0) = true).
    { apply Z.ltb_lt. apply Z.ltb_ge in Hoff. nia. }
    cbn [fst snd Pg.store Pg.log]. rewrite Hneg.
    cbn [fst snd Pg.store]. repeat split; read_field; reflexivity.
Qed.

(** ** routes/authors.js: the search *)

Section Search.
Import Knex.

Lemma wildcard_lower (c : ascii) : wildcard (lower c) = wildcard c.
Proof. destruct c as [[] [] [] [] [] [] [] []]; reflexivity. Qed.

Lemma like_literal_head (c : ascii) (p s : list ascii) :
  wildcard c = false ->
  like (c :: p) s
  = match s with
    | [] => false
    | x :: s' => Ascii.eqb c x && like p s'
    end.
Proof.
  destruct c as [[] [] [] [] [] [] [] []]; intros H;
    try discriminate H; destruct p; reflexivity.
Qed.

Lemma like_percent_step (p s : list ascii) :
  like ("%"%char :: p) s
  = like p s || match s with
                | [] => false
                | _ :: s' => like ("%"%char :: p) s'
                end.
Proof. destruct s; reflexivity. Qed.

Lemma like_percent (p s : list ascii) :
  like ("%"%char :: p) s = true
  <-> exists pre post, s = pre ++ post /\ like p post = true.
Proof.
  induction s as [| x s IH]; rewrite like_percent_step.
  - rewrite orb_false_r. split.
    + intros H. exists [], []. now split.
    + intros (pre & post & Heq & H). symmetry in Heq.
      apply app_eq_nil in Heq as [_ ->]. exact H.
  - rewrite orb_true_iff, IH. split.
    + intros [H | (pre & post & -> & H)].
      * exists [], (x :: s). now split.
      * exists (x :: pre), post. now split.
    + intros (pre & post & Heq & H). destruct pre as [| y pre].
      * left. simpl in Heq. now subst post.
      * right. injection Heq as -> ->. eauto.
Qed.

Lemma like_all (s : list ascii) : like ["%"%char] s = true.
Proof. apply like_percent. exists s, []. split; [now rewrite app_nil_r | reflexivity]. Qed.

Lemma like_prefix (q s : list ascii) :
  forallb (fun c => negb (wildcard c)) q = true ->
  like (q ++ ["%"%char]) s = true <-> exists post, s = q ++ post.
Proof.
  revert s. induction q as [| c q IH]; intros s Hq.
  - simpl app. split; [intros _; now exists s | intros _; apply like_all].
  - simpl in Hq. apply andb_prop in Hq as [Hc Hq].
    apply negb_true_iff in Hc. simpl app. rewrite like_literal_head by exact Hc.
    destruct s as [| x s].
    + split; [discriminate | intros (post & H); discriminate H].
    + rewrite andb_true_iff, (IH s Hq). split.
      * intros [Hx (post & ->)]. apply Ascii.eqb_eq in Hx. subst x.
        now exists post.
      * intros (post & H). injection H as -> ->.
        split; [apply Ascii.eqb_refl | now exists post].
Qed.

Lemma list_ascii_of_string_app (a b : string) :
  list_ascii_of_string (a ++ b)
  = list_ascii_of_string a ++ list_ascii_of_string b.
Proof. induction a as [| c a IH]; simpl; [reflexivity | now rewrite IH]. Qed.

Lemma lowered_literal (s : string) :
  literal s = true ->
  forallb (fun c => negb (wildcard c)) (lowered s) = true.
Proof.
  unfold literal, lowered.
  induction (list_ascii_of_string s) as [| c l IH]; simpl; [reflexivity |].
  intros H. apply andb_prop in H as [Hc Hl].
  now rewrite wildcard_lower, Hc, IH.
Qed.

End Search.

(** X24. The search of the list: for a text without [%], [_] and backslash, an
    author matches exactly when the text occurs in the name, upper and
    lower case letters taken as equal. (The empty text occurs in every
    name.) *)
Theorem search_is_substring (search : string) (a : Pg.author) :
  literal search = true ->
  Knex.matching search a = true
  <-> occurs_in (lowered search) (lowered (Pg.name a)).
Proof.
  intros Hlit. unfold Knex.matching.
  destruct (search =? EmptyString)%string eqn:Hs.
  - apply String.eqb_eq in Hs. subst search.
    split; [| reflexivity]. intros _.
    exists [], (lowered (Pg.name a)). reflexivity.
  - unfold Knex.ilike.
    change ("%" ++ search ++ "%")%string
      with (String "%" (search ++ "%"))%string.
    cbn [list_ascii_of_string map].
    rewrite list_ascii_of_string_app, map_app.
    change (Knex.lower "%") with "%"%char.
    change (map Knex.lower (list_ascii_of_string "%")) with ["%"%char].
    fold (lowered search). fold (lowered (Pg.name a)).
    rewrite like_percent. unfold occurs_in. split.
    + intros (pre & post & Heq & H).
      apply like_prefix in H as (post' & ->); [| now apply lowered_literal].
      now exists pre, post'.
    + intros (pre & post & Heq). exists pre, (lowered search ++ post).
      split; [exact Heq |].
      apply like_prefix; [now apply lowered_literal | now exists post].
Qed.

Lemma search_is_substring_witness :
  let a := {| Pg.author_id := 1; Pg.name := "Jane Austen";
              Pg.author_email := "jane@example.com"; Pg.bio := None;
              Pg.author_created_at := 0; Pg.author_updated_at := 0 |} in
  literal "AUS" = true
  /\ (Knex.matching "AUS" a = true
      <-> occurs_in (lowered "AUS") (lowered (Pg.name a))).
Proof.
  intros a. split; [reflexivity |].
  apply (search_is_substring "AUS" a). reflexivity.
Defined.

(** ** The properties at work *)

Lemma shelf_consistent : authors_consistent (Pg.store Scenario.shelf).
Proof.
  unfold authors_consistent. cbn.
  repeat split;
    repeat (constructor; cbn; try lia; try tauto);
    intuition discriminate.
Qed.

Lemma routes_keep_authors_consistent_witness :
  authors_consistent
    (Pg.store
       (snd (route (E := Reference.externals) DeleteAuthor Sample.context
               (Scenario.visiting "2" Sample.no_body) Scenario.shelf))).
Proof.
  apply (routes_keep_authors_consistent Reference.externals DeleteAuthor
           Sample.context (Scenario.visiting "2" Sample.no_body)
           Scenario.shelf).
  exact shelf_consistent.
Defined.

Lemma create_author_then_get_witness :
  let E := Reference.externals in
  let req :=
    Scenario.visiting EmptyString
      (Scenario.author_body " Jane Austen " "Jane@Example.com"
         (Some " novelist ")) in
  let req' := Scenario.visiting "4" Sample.no_body in
  let a := {| Pg.author_id := 4; Pg.name := "Jane Austen";
              Pg.author_email := "jane@example.com";
              Pg.bio := Some "novelist";
              Pg.author_created_at := 1000000;
              Pg.author_updated_at := 1000000 |} in
  let s1 := route PostAuthor Sample.context req Scenario.shelf in
  let s2 := route GetAuthor Sample.context req' (snd s1) in
  status (fst s1) = 201
  /\ JS.get "data" (json (fst s1)) = Some (JS.VObj (Knex.author_row a))
  /\ status (fst s2) = 200
  /\ JS.get "data" (json (fst s2)) = Some (JS.VObj (Knex.author_row a)).
Proof.
  intros E req req' a s1 s2.
  apply (create_author_then_get E Sample.context Sample.context req req'
           Scenario.shelf Scenario.ann Scenario.ann).
  - reflexivity.
  - split; [vm_compute; discriminate |].
    split; [reflexivity | apply Nat.leb_le; reflexivity].
  - apply Nat.leb_le. reflexivity.
  - apply Nat.leb_le. reflexivity.
  - reflexivity.
  - repeat constructor.
  - reflexivity.
  - reflexivity.
Defined.

Lemma delete_author_removes_witness :
  let E := Reference.externals in
  let req := Scenario.visiting "2" Sample.no_body in
  let s1 := route DeleteAuthor Sample.context req Scenario.shelf in
  status (fst s1) = 200
  /\ (forall a, In a (Pg.authors (Pg.store (snd s1)))
                <-> In a (Pg.authors (Pg.store Scenario.shelf))
                    /\ Pg.author_id a <> 2)
  /\ (forall bk, In bk (Pg.books (Pg.store (snd s1)))
                 <-> In bk (Pg.books (Pg.store Scenario.shelf))
                     /\ Pg.book_author_id bk <> Some 2)
  /\ Pg.users (Pg.store (snd s1)) = Pg.users (Pg.store Scenario.shelf)
  /\ status (fst (route GetAuthor Sample.context req (snd s1))) = 404
  /\ status (fst (route DeleteAuthor Sample.context req (snd s1))) = 404.
Proof.
  intros E req s1.
  apply (delete_author_removes E Sample.context Sample.context req req
           Scenario.shelf Scenario.ann Scenario.ann 2).
  - reflexivity.
  - reflexivity.
  - cbn. tauto.
  - reflexivity.
  - reflexivity.
Defined.


Lemma batch_delete_removes_listed_witness :
  let E := Reference.externals in
  let ids := [ JS.VStr "2"; JS.VNum (JS.of_Z 3); JS.VNum (JS.of_Z 2);
               JS.VNull; JS.VNum (JS.of_Z 9) ] in
  let zs := [2; 3; 2; 9] in
  let req :=
    Scenario.visiting EmptyString (Sample.with_ids (JS.VArr ids)) in
  let r := fst (route DeleteAuthors Sample.context req Scenario.shelf) in
  let w' := snd (route DeleteAuthors Sample.context req Scenario.shelf) in
  let n := (List.length (Pg.authors (Pg.store Scenario.shelf))
            - List.length (Pg.authors (Pg.store w')))%nat in
  n = 2%nat
  /\ status r = 200
  /\ (0 < n)%nat
  /\ JS.get "message" (json r)
     = Some (str (decimal (Z.of_nat n) ++ " authors deleted successfully"))
  /\ (forall a, In a (Pg.authors (Pg.store w'))
                <-> In a (Pg.authors (Pg.store Scenario.shelf))
                    /\ ~ In (Pg.author_id a) zs)
  /\ (forall bk, In bk (Pg.books (Pg.store w'))
                 <-> In bk (Pg.books (Pg.store Scenario.shelf))
                     /\ (forall i, Pg.book_author_id bk = Some i ->
                                   ~ In i zs)).
Proof.
  intros E ids zs req r w' n. split; [reflexivity |].
  apply (batch_delete_removes_listed E Sample.context req Scenario.shelf
           Scenario.ann ids zs (Sample.author_at 2)).
  - reflexivity.
  - reflexivity.
  - reflexivity.
  - cbn. tauto.
  - cbn. tauto.
Defined.

Lemma update_author_replaces_witness :
  let E := Reference.externals in
  let req :=
    Scenario.visiting "2"
      (Scenario.author_body " Jane " "Jane@Example.com" None) in
  let a := {| Pg.author_id := 2; Pg.name := "author";
              Pg.author_email := "2@example.com"; Pg.bio := Some "poet";
              Pg.author_created_at := 2000; Pg.author_updated_at := 2000 |} in
  let w :=
    {| Pg.store :=
         {| Pg.users := []; Pg.users_id_seq := 1;
            Pg.authors := [Sample.author_at 1; a]; Pg.authors_id_seq := 3;
            Pg.books := [] |};
       Pg.log := [] |} in
  let a' := {| Pg.author_id := 2; Pg.name := "Jane";
               Pg.author_email := "jane@example.com"; Pg.bio := Some "poet";
               Pg.author_created_at := 2000;
               Pg.author_updated_at := 1000000 |} in
  let r := fst (route PutAuthor Sample.context req w) in
  let w' := snd (route PutAuthor Sample.context req w) in
  status r = 200
  /\ JS.get "data" (json r) = Some (JS.VObj (Knex.author_row a'))
  /\ find (Knex.has_author_id 2) (Pg.authors (Pg.store w')) = Some a'
  /\ (forall x, In x (Pg.authors (Pg.store w)) -> Pg.author_id x <> 2 ->
                In x (Pg.authors (Pg.store w')))
  /\ List.length (Pg.authors (Pg.store w'))
     = List.length (Pg.authors (Pg.store w)).
Proof.
  intros E req a w a' r w'.
  apply (update_author_replaces E Sample.context req w Scenario.ann 2 a).
  - reflexivity.
  - split; [vm_compute; discriminate | split; [reflexivity | exact I]].
  - reflexivity.
  - reflexivity.
  - apply Nat.leb_le. reflexivity.
  - apply Nat.leb_le. reflexivity.
  - intros x [<- | [<- | []]] Hx; [discriminate | now contradiction Hx].
Defined.


Lemma list_authors_unreadable_limit_witness :
  let E := Reference.externals in
  let req := Sample.listing [("page", "3"); ("limit", "ten")] in
  let w := Sample.library 25 in
  let found := filter (Knex.matching EmptyString) (Pg.authors (Pg.store w)) in
  let r := fst (route GetAuthors Sample.context req w) in
  List.length found = 25%nat
  /\ status r = 200
  /\ JS.get "data" (json r)
     = Some (JS.VArr (map (fun a => JS.VObj (Knex.author_row a))
                          (Knex.order_by_created_at_desc found))).
Proof.
  intros E req w found r. split; [reflexivity |].
  apply (list_authors_unreadable_limit E Sample.context req w Scenario.ann
           "ten"); reflexivity.
Defined.

Lemma list_authors_out_of_range_witness :
  let E := Reference.externals in
  let req := Sample.listing [("page", "1"); ("limit", "-5")] in
  let w := Sample.library 25 in
  let r := fst (route GetAuthors Sample.context req w) in
  status r = 500
  /\ JS.get "message" (json r) = Some (str "Failed to retrieve authors")
  /\ Pg.store (snd (route GetAuthors Sample.context req w)) = Pg.store w.
Proof.
  intros E req w r.
  apply (list_authors_out_of_range E Sample.context req w Scenario.ann 1
           (-5)).
  - reflexivity.
  - reflexivity.
  - reflexivity.
  - left. lia.
Defined.


